(** * Agentic Dialer: a shallow embedding of the dialer page and the call endpoint

    The development follows the two source files of the application:

    - the client page (the React component [Home]): [normalizePhone],
      [findRowScript], the [dialRecords] derivation, [setCallStatus],
      [triggerCall] and [handleDialAll];
    - the server route [api/call/route.ts]: [escapeForTwiml], [buildTwiml]
      and the [POST] handler.

    Conventions of the embedding.

    - A JavaScript string is a [string]: every character stands for one
      UTF-16 code unit below 256.  [trim], [toLowerCase] and the regular
      expressions of the source are written out on that range.
    - A JavaScript value is a [JsValue].  Numbers are the integer-valued
      ones (as a [Z], printed in decimal like [String(n)] prints a safe
      integer); fractional numbers, NaN and the infinities are not part
      of the model.
    - A JavaScript object (a spreadsheet row, a dial record, a JSON body)
      is the list of its own properties, without repeated keys, in the
      order of their creation.  This is the order [Object.entries] lists
      them in, except that JavaScript lists keys that are array indices
      first ([Object_entries]); no such key can name a script column
      ([index_key_no_script] below), and where the other fields stand
      does not matter to [findRowScript] ([findRowScript_scriptFields]).
      Properties
      inherited from [Object.prototype] are not modelled.
    - The handlers work on an explicit application state; what they do to
      the outside world (state updates, network requests, pauses) is
      recorded in a trace.  What the outside world answers (the outcome of
      [fetch], the clock, the provider's client, the text of the engine's
      own errors) is a parameter of the handlers.
    - The asynchronous handlers are given twice: as functions that run to
      completion ([triggerCall], [handleDialAll]), and cut at their
      [await]s ([triggerStart], [triggerSettle], [queueAdvance]), so that
      clicks and other handlers come in between ([act], [run]).  The
      functions that run to completion are the runs in which every
      handler that waits goes on before anything else happens
      ([triggerCall_run], [handleDialAll_run]). *)

From stdpp Require Import base option list strings pretty gmap.
From Stdlib Require Import ZArith Ascii Lia.

Local Open Scope string_scope.
Local Open Scope list_scope.

(** ** JavaScript strings *)

Module Js.

Definition code (c : ascii) : nat := nat_of_ascii c.

(** [\d] without the unicode flag: the ten ASCII digits. *)
Definition is_digit (c : ascii) : bool :=
  (48 <=? code c)%nat && (code c <=? 57)%nat.

(** White space and line terminators that [String.prototype.trim] strips,
    restricted to code units below 256: TAB, LF, VT, FF, CR, SPACE, NBSP. *)
Definition is_space (c : ascii) : bool :=
  ((9 <=? code c)%nat && (code c <=? 13)%nat)
  || (code c =? 32)%nat || (code c =? 160)%nat.

Fixpoint trimStart (s : string) : string :=
  match s with
  | "" => ""
  | String c s' => if is_space c then trimStart s' else s
  end.

Fixpoint trimEnd (s : string) : string :=
  match s with
  | "" => ""
  | String c s' =>
      match trimEnd s' with
      | "" => if is_space c then "" else String c ""
      | t => String c t
      end
  end.

Definition trim (s : string) : string := trimEnd (trimStart s).

(** [s.startsWith(p)] *)
Definition startsWith (p s : string) : bool := String.prefix p s.

(** [s.includes(p)] *)
Fixpoint includes (p s : string) : bool :=
  String.prefix p s ||
  match s with
  | "" => false
  | String _ s' => includes p s'
  end.

(** [s.replace(/[cls]/g, rep)] for a character class [cls]. *)
Fixpoint replaceAll (cls : ascii -> bool) (rep : string) (s : string) : string :=
  match s with
  | "" => ""
  | String c s' =>
      (if cls c then rep else String c "") +:+ replaceAll cls rep s'
  end.

Definition lower_char (c : ascii) : ascii :=
  let n := code c in
  if ((65 <=? n)%nat && (n <=? 90)%nat)
     || ((192 <=? n)%nat && (n <=? 222)%nat && negb (n =? 215)%nat)
  then ascii_of_nat (n + 32) else c.

(** [s.toLowerCase()] *)
Fixpoint toLowerCase (s : string) : string :=
  match s with
  | "" => ""
  | String c s' => String (lower_char c) (toLowerCase s')
  end.

(** Truthiness of a string: [!s] holds exactly for the empty string. *)
Definition nonempty (s : string) : bool :=
  match s with "" => false | _ => true end.

End Js.

(** ** JavaScript values *)

#[local] Set Warnings "-register-all".

Inductive JsValue : Type :=
  | JUndefined
  | JNull
  | JBool (b : bool)
  | JNum (z : Z)
  | JStr (s : string)
  | JArr (items : list JsValue)
  | JObj (props : list (string * JsValue)).

(** An object as the list of its own properties. *)
Abbreviation JsObject := (list (string * JsValue)).

Definition is_nullish (v : JsValue) : bool :=
  match v with JUndefined | JNull => true | _ => false end.

(** [String(v)] *)
Fixpoint String_ (v : JsValue) : string :=
  match v with
  | JUndefined => "undefined"
  | JNull => "null"
  | JBool true => "true"
  | JBool false => "false"
  | JNum z => pretty z
  | JStr s => s
  | JArr items =>
      (fix join (l : list JsValue) : string :=
         match l with
         | [] => ""
         | x :: l' =>
             (match x with JUndefined | JNull => "" | _ => String_ x end)
             +:+ match l' with [] => "" | _ => "," +:+ join l' end
         end) items
  | JObj _ => "[object Object]"
  end.

(** [Boolean(v)] *)
Definition truthy (v : JsValue) : bool :=
  match v with
  | JUndefined | JNull => false
  | JBool b => b
  | JNum z => negb (z =? 0)%Z
  | JStr s => Js.nonempty s
  | JArr _ | JObj _ => true
  end.

(** [v ?? d] *)
Definition nullish_or (v d : JsValue) : JsValue :=
  if is_nullish v then d else v.

(** ** The phone normalizer (page, [normalizePhone]) *)

Definition plus : ascii := "+"%char.

Definition normalizePhone (value : JsValue) : string :=
  match value with
  | JNull | JUndefined => ""
  | _ =>
      let raw := Js.trim (String_ value) in
      if negb (Js.nonempty raw) then "" else
      let preservedPlus := Js.startsWith "+" raw in
      (* raw.replace(/[^\d+]/g, '') *)
      let digits :=
        Js.replaceAll (fun c => negb (Js.is_digit c || Ascii.eqb c plus)) "" raw in
      if preservedPlus then
        "+" +:+ Js.replaceAll (fun c => Ascii.eqb c plus) "" digits
      else
        let numeric := Js.replaceAll (fun c => Ascii.eqb c plus) "" digits in
        if (String.length numeric =? 11)%nat && Js.startsWith "1" numeric then
          "+" +:+ numeric
        else if (String.length numeric =? 10)%nat then
          "+1" +:+ numeric
        else if Js.startsWith "+" numeric then
          numeric
        else
          numeric
  end.

(** ** Objects: own properties in creation order *)

(** [o[k]] on own properties; a missing property reads [undefined]. *)
Fixpoint obj_get (o : JsObject) (k : string) : JsValue :=
  match o with
  | [] => JUndefined
  | (k', v) :: o' => if String.eqb k' k then v else obj_get o' k
  end.

Definition obj_has (o : JsObject) (k : string) : bool :=
  existsb (fun kv => String.eqb kv.1 k) o.

(** [o[k] = v]: an existing property keeps its place, a new one goes last. *)
Fixpoint obj_set (o : JsObject) (k : string) (v : JsValue) : JsObject :=
  match o with
  | [] => [(k, v)]
  | (k', v') :: o' =>
      if String.eqb k' k then (k', v) :: o' else (k', v') :: obj_set o' k v
  end.

(** [{ ...base, ...src }]: the properties of [src] are assigned in order. *)
Definition obj_spread (base src : JsObject) : JsObject :=
  fold_left (fun o kv => obj_set o kv.1 kv.2) src base.

(** [a || b] on strings. *)
Definition str_or (a b : string) : string :=
  if Js.nonempty a then a else b.

(** ** Row scripts (page, [findRowScript]) *)

Definition preferredKeys : list string :=
  ["script"; "message"; "notes"; "prompt"].

Definition is_script_key (key : string) : bool :=
  let normalized := Js.toLowerCase (Js.trim key) in
  existsb (fun candidate => Js.includes candidate normalized) preferredKeys.

Fixpoint findRowScript (record : JsObject) : option string :=
  match record with
  | [] => None
  | (key, value) :: rest =>
      if is_script_key key then
        let text := Js.trim (String_ (nullish_or value (JStr ""))) in
        if Js.nonempty text then Some text else findRowScript rest
      else findRowScript rest
  end.

(** [findRowScript(record) || scriptOverride.trim()], the [script] of the
    request body in [triggerCall]. *)
Definition resolveScript (record : JsObject) (scriptOverride : string) : string :=
  match findRowScript record with
  | Some text => str_or text (Js.trim scriptOverride)
  | None => Js.trim scriptOverride
  end.

(** ** Dial records (page, the [dialRecords] memo) *)

Record ParsedWorkbook := {
  columns : list string;
  rows : list JsObject;
  suggestedFromColumn : option string;
  suggestedToColumn : option string
}.

(** The object literal of the [map] callback: the derived fields first,
    then the row spread over them. *)
Definition makeRecord (fromColumn toColumn : string)
    (index : nat) (row : JsObject) : JsObject :=
  let rawFrom := obj_get row fromColumn in
  let rawTo := obj_get row toColumn in
  let from := normalizePhone rawFrom in
  let to := normalizePhone rawTo in
  obj_spread
    [ ("id", JStr ("row-" +:+ pretty index));
      ("from", JStr from);
      ("to", JStr to);
      ("displayFrom",
        JStr (str_or (Js.trim (String_ (nullish_or rawFrom (JStr "")))) from));
      ("displayTo",
        JStr (str_or (Js.trim (String_ (nullish_or rawTo (JStr "")))) to));
      ("rowIndex", JNum (Z.of_nat index + 1)) ]
    row.

(** The [map] callback: [None] stands for the [null] entry. *)
Definition dialRecord (fromColumn toColumn : string)
    (index : nat) (row : JsObject) : option JsObject :=
  let from := normalizePhone (obj_get row fromColumn) in
  let to := normalizePhone (obj_get row toColumn) in
  if negb (Js.nonempty from) || negb (Js.nonempty to) then None
  else Some (makeRecord fromColumn toColumn index row).

(** [.filter(Boolean)] on the mapped entries. *)
Fixpoint filterBoolean {A} (l : list (option A)) : list A :=
  match l with
  | [] => []
  | Some x :: l' => x :: filterBoolean l'
  | None :: l' => filterBoolean l'
  end.

Definition dialRecords (workbook : option ParsedWorkbook)
    (fromColumn toColumn : option string) : list JsObject :=
  match workbook, fromColumn, toColumn with
  | Some wb, Some f, Some t =>
      if negb (Js.nonempty f) || negb (Js.nonempty t) then []
      else filterBoolean (imap (dialRecord f t) (rows wb))
  | _, _, _ => []
  end.

(** ** Exceptions *)

(** What a [throw] carries: an [Error] instance with its message, or any
    other value. *)
Inductive Thrown : Type :=
  | ErrorObj (message : string)
  | NonError.

Inductive Exc (A : Type) : Type :=
  | Ok (a : A)
  | Throw (e : Thrown).
Arguments Ok {A} a.
Arguments Throw {A} e.

Global Instance exc_ret : MRet Exc := fun _ a => Ok a.

Global Instance exc_bind : MBind Exc := fun _ _ k m =>
  match m with
  | Ok a => k a
  | Throw e => Throw e
  end.

(** The errors the language itself raises; their message text is chosen
    by the JavaScript engine. *)
Inductive TypeErrorKind : Type :=
  | DestructureNullish
  | ReadPropertyOfNullish
  | NotAFunction.

(** ** Call status (page, [CallResult] and the status dictionary) *)

Inductive Status : Type := idle | calling | success | error.

Global Instance Status_eq_dec : EqDecision Status.
Proof. solve_decision. Defined.

Record CallResult := {
  cr_id : JsValue;
  cr_status : Status;
  cr_message : option string;
  cr_sid : JsValue;
  cr_timestamp : Z
}.

(** The second argument of [setCallStatus]; [None] is a key the object
    literal does not have. *)
Record StatusUpdate := {
  u_status : Status;
  u_message : option string;
  u_sid : option JsValue;
  u_timestamp : option Z
}.

(** The JSON body of the request to [/api/call]. *)
Record Payload := {
  p_from : JsValue;
  p_to : JsValue;
  p_script : string
}.

(** What the page does to the outside world, in order. *)
Inductive Event : Type :=
  | EvStatus (key : string) (entry : CallResult)
  | EvFetch (payload : Payload)
  | EvDelay (ms : Z)
  | EvAutoDialing (flag : bool).

(** The outcome of [fetch]: the promise rejects, or a response arrives
    with its [ok] flag and what [response.json()] settles to. *)
Inductive FetchOutcome : Type :=
  | Rejected (e : Thrown)
  | Response (ok : bool) (json : Exc JsValue).

(** The state of the [Home] component that the handlers read and write. *)
Record AppState := {
  statusMap : gmap string CallResult;
  scriptOverride : string;
  isAutoDialing : bool;
  trace : list Event
}.

(** [statusMap[key]?.status ?? 'idle'], as the table renders it. *)
Definition statusOf (m : gmap string CallResult) (key : string) : Status :=
  match m !! key with
  | Some r => cr_status r
  | None => idle
  end.

Section Runtime.

(** The engine's message for each error it raises. *)
Variable engine_message : TypeErrorKind -> string.

Definition raise {A} (k : TypeErrorKind) : Exc A :=
  Throw (ErrorObj (engine_message k)).

(** [v[k]] for a value [v]: reading a property of [null] or [undefined]
    raises; a primitive or an array has none of the properties read here. *)
Definition get_prop (v : JsValue) (k : string) : Exc JsValue :=
  match v with
  | JUndefined | JNull => raise ReadPropertyOfNullish
  | JObj o => Ok (obj_get o k)
  | _ => Ok JUndefined
  end.

(** [const { k: x } = v] *)
Definition destructure (v : JsValue) (k : string) : Exc JsValue :=
  match v with
  | JUndefined | JNull => raise DestructureNullish
  | JObj o => Ok (obj_get o k)
  | _ => Ok JUndefined
  end.

(** [v?.trim()] *)
Definition opt_trim (v : JsValue) : Exc (option string) :=
  match v with
  | JUndefined | JNull => Ok None
  | JStr s => Ok (Some (Js.trim s))
  | _ => raise NotAFunction
  end.

(** *** The page *)

Section Page.

(** The network, as seen from the page: what [fetch] settles to, given
    everything the page did before and the request body. *)
Variable fetch : list Event -> Payload -> FetchOutcome.

(** [Date.now()], given everything the page did before. *)
Variable Date_now : list Event -> Z.

Definition emit (e : Event) (st : AppState) : AppState :=
  {| statusMap := statusMap st; scriptOverride := scriptOverride st;
     isAutoDialing := isAutoDialing st; trace := trace st ++ [e] |}.

Definition setStatusMap (f : gmap string CallResult -> gmap string CallResult)
    (st : AppState) : AppState :=
  {| statusMap := f (statusMap st); scriptOverride := scriptOverride st;
     isAutoDialing := isAutoDialing st; trace := trace st |}.

Definition setIsAutoDialing (flag : bool) (st : AppState) : AppState :=
  {| statusMap := statusMap st; scriptOverride := scriptOverride st;
     isAutoDialing := flag; trace := trace st ++ [EvAutoDialing flag] |}.

Definition delay (ms : Z) (st : AppState) : AppState := emit (EvDelay ms) st.

(** The entry [setCallStatus] writes: the previous entry spread first,
    then [id] and [timestamp], then the keys of the update. *)
Definition nextEntry (previous : option CallResult) (recordId : JsValue)
    (nextTimestamp : Z) (rest : StatusUpdate) : CallResult :=
  {| cr_id := recordId;
     cr_timestamp := nextTimestamp;
     cr_status := u_status rest;
     cr_message :=
       match u_message rest with
       | Some m => Some m
       | None => previous ≫= cr_message
       end;
     cr_sid :=
       match u_sid rest with
       | Some v => v
       | None => from_option cr_sid JUndefined previous
       end |}.

Definition setCallStatus (recordId : JsValue) (update : StatusUpdate)
    (st : AppState) : AppState :=
  let nextTimestamp :=
    match u_timestamp update with
    | Some t => t
    | None => Date_now (trace st)
    end in
  let key := String_ recordId in
  let entry := nextEntry (statusMap st !! key) recordId nextTimestamp update in
  emit (EvStatus key entry) (setStatusMap (fun previous => <[key := entry]> previous) st).

(** The [try] block of [triggerCall] after the request was sent: the
    identifier it reads from the response, or what it throws. *)
Definition readResponse (outcome : FetchOutcome) : Exc JsValue :=
  match outcome with
  | Rejected e => Throw e
  | Response false json =>
      let parsed :=
        match json with
        | Ok v => v
        | Throw _ => JObj [("error", JStr "Call failed")]
        end in
      apiError ← destructure parsed "error";
      Throw (ErrorObj (String_ (nullish_or apiError (JStr "Call failed"))))
  | Response true json =>
      v ← json;
      destructure v "sid"
  end.

Definition triggerCall (record : JsObject) (st : AppState) : AppState :=
  let id := obj_get record "id" in
  if negb (truthy (obj_get record "from")) || negb (truthy (obj_get record "to")) then
    setCallStatus id
      {| u_status := error; u_message := Some "Missing phone numbers";
         u_sid := None; u_timestamp := None |} st
  else
    let st1 :=
      setCallStatus id
        {| u_status := calling; u_message := Some "Dialing...";
           u_sid := None; u_timestamp := None |} st in
    let payload :=
      {| p_from := obj_get record "from";
         p_to := obj_get record "to";
         p_script := resolveScript record (scriptOverride st) |} in
    let outcome := fetch (trace st1) payload in
    let st2 := emit (EvFetch payload) st1 in
    match readResponse outcome with
    | Ok sid =>
        setCallStatus id
          {| u_status := success;
             u_message :=
               Some (if truthy sid
                     then "Call queued (SID: " +:+ String_ sid +:+ ")"
                     else "Call queued");
             u_sid := Some sid; u_timestamp := None |} st2
    | Throw callError =>
        setCallStatus id
          {| u_status := error;
             u_message :=
               Some (match callError with
                     | ErrorObj message => message
                     | NonError => "Call failed"
                     end);
             u_sid := None; u_timestamp := None |} st2
    end.

(** [statusMap[id]?.status === 'success'] *)
Definition isSuccess (m : gmap string CallResult) (id : JsValue) : bool :=
  match m !! String_ id with
  | Some r => bool_decide (cr_status r = success)
  | None => false
  end.

(** One turn of the [for] loop of [handleDialAll]; [snapshot] is the
    status dictionary the handler closed over. *)
Definition dialStep (snapshot : gmap string CallResult)
    (st : AppState) (record : JsObject) : AppState :=
  if isSuccess snapshot (obj_get record "id") then st
  else delay 1500 (triggerCall record st).

Definition handleDialAll (dialRecords : list JsObject) (st : AppState) : AppState :=
  if isAutoDialing st then st
  else
    let snapshot := statusMap st in
    let st1 := setIsAutoDialing true st in
    let st2 := fold_left (dialStep snapshot) dialRecords st1 in
    setIsAutoDialing false st2.

End Page.

(** *** The call endpoint (route, [POST]) *)

(** [process.env]: the five variables the route reads. *)
Record Env := {
  TWILIO_ACCOUNT_SID : option string;
  TWILIO_AUTH_TOKEN : option string;
  TWILIO_VOICE_URL : option string;
  TWILIO_FALLBACK_MESSAGE : option string;
  TWILIO_STATUS_CALLBACK_URL : option string
}.

(** Truthiness of a [string | undefined]. *)
Definition str_truthy (v : option string) : bool :=
  match v with
  | Some s => Js.nonempty s
  | None => false
  end.

(** The argument of [client.calls.create]. *)
Record CallArgs := {
  ca_to : string;
  ca_from : string;
  ca_url : option string;
  ca_twiml : option string;
  ca_statusCallback : option string;
  ca_statusCallbackEvent : list string;
  ca_statusCallbackMethod : string
}.

Inductive HandlerResult : Type :=
  | Respond (status : Z) (body : JsValue)
  | Uncaught (e : Thrown).

Definition is_char (c : ascii) : ascii -> bool := fun x => Ascii.eqb x c.

Definition quote : ascii := "034"%char.

Definition escapeForTwiml (input : string) : string :=
  Js.replaceAll (is_char "'") "&apos;"
    (Js.replaceAll (is_char quote) "&quot;"
      (Js.replaceAll (is_char ">") "&gt;"
        (Js.replaceAll (is_char "<") "&lt;"
          (Js.replaceAll (is_char "&") "&amp;" input)))).

Definition say (text : string) : string :=
  "<Response><Say>" +:+ escapeForTwiml text +:+ "</Say></Response>".

Definition buildTwiml (env : Env) (script : JsValue) : Exc (option string) :=
  trimmed ← opt_trim script;
  if negb (str_truthy trimmed) then
    let fallback := default "" (TWILIO_FALLBACK_MESSAGE env) in
    if negb (Js.nonempty fallback) then Ok None
    else Ok (Some (say fallback))
  else Ok (Some (say (default "" trimmed))).

(** The object literal passed to [client.calls.create]. *)
Definition createArgs (env : Env) (payload : JsValue) (from to : string)
    : Exc CallArgs :=
  script ← get_prop payload "script";
  let url :=
    if str_truthy (TWILIO_VOICE_URL env) && negb (truthy script)
    then TWILIO_VOICE_URL env else None in
  twiml ← buildTwiml env script;
  Ok {| ca_to := to;
        ca_from := from;
        ca_url := url;
        ca_twiml := twiml;
        ca_statusCallback := TWILIO_STATUS_CALLBACK_URL env;
        ca_statusCallbackEvent := ["initiated"; "ringing"; "answered"; "completed"];
        ca_statusCallbackMethod := "POST" |}.

Definition errorBody (message : string) : JsValue :=
  JObj [("error", JStr message)].

Section Route.

(** The provider's client library: [twilio(sid, token)] builds a client
    or throws; the client's [calls.create] resolves to a call with its
    [sid] or rejects. *)
Variable twilio : string -> string -> Exc (CallArgs -> Exc string).

(** [body] is what [request.json()] settles to: [None] when it rejects. *)
Definition POST (env : Env) (body : option JsValue) : HandlerResult :=
  if negb (str_truthy (TWILIO_ACCOUNT_SID env)) || negb (str_truthy (TWILIO_AUTH_TOKEN env)) then
    Respond 500 (errorBody "Missing Twilio credentials")
  else
    match body with
    | None => Respond 400 (errorBody "Invalid JSON body")
    | Some payload =>
        match (from ← get_prop payload "from" ≫= opt_trim;
               to ← get_prop payload "to" ≫= opt_trim;
               Ok (from, to)) with
        | Throw e => Uncaught e
        | Ok (from, to) =>
            if negb (str_truthy from) || negb (str_truthy to) then
              Respond 400 (errorBody "Both `from` and `to` numbers are required")
            else
              match twilio (default "" (TWILIO_ACCOUNT_SID env))
                           (default "" (TWILIO_AUTH_TOKEN env)) with
              | Throw e => Uncaught e
              | Ok calls_create =>
                  match (args ← createArgs env payload (default "" from) (default "" to);
                         calls_create args) with
                  | Ok sid => Respond 200 (JObj [("sid", JStr sid)])
                  | Throw e =>
                      Respond 500
                        (errorBody
                           match e with
                           | ErrorObj message => message
                           | NonError => "Unable to create call"
                           end)
                  end
              end
        end
    end.

End Route.

End Runtime.

(** ** The claims in the words of the specification

    The definitions of this part are written from the specification, to be
    compared with the ones above, which are written from the source. *)

(** The characters of [s] that satisfy [p], in order. *)
Fixpoint keep (p : ascii -> bool) (s : string) : string :=
  match s with
  | "" => ""
  | String c s' => if p c then String c (keep p s') else keep p s'
  end.

(** Exactly the digits of a text. *)
Definition digitsOf (s : string) : string := keep Js.is_digit s.

(** The specified phone normalizer: empty for a nullish or blank cell; for
    a text that starts with [+] after trimming, [+] and the digits of the
    input; otherwise the digits, with [+] in front of eleven digits that
    start with 1 and [+1] in front of ten digits. *)
Definition normalizePhone_spec (value : JsValue) : string :=
  let text := String_ value in
  if is_nullish value || negb (Js.nonempty (Js.trim text)) then ""
  else if Js.startsWith "+" (Js.trim text) then "+" +:+ digitsOf text
  else
    let digits := digitsOf text in
    if (String.length digits =? 11)%nat && Js.startsWith "1" digits then "+" +:+ digits
    else if (String.length digits =? 10)%nat then "+1" +:+ digits
    else digits.

(** A source row is excluded when the normalizer yields the empty string
    for its selected from-cell or for its selected to-cell. *)
Definition excluded (fromColumn toColumn : string) (row : JsObject) : Prop :=
  normalizePhone (obj_get row fromColumn) = ""
  ∨ normalizePhone (obj_get row toColumn) = "".

Global Instance excluded_dec f t row : Decision (excluded f t row).
Proof. unfold excluded. apply _. Defined.

(** The three-row sheet of the end-to-end scenario of the specification. *)
Definition sampleWorkbook : ParsedWorkbook :=
  {| columns := ["agent_number"; "customer_number"];
     rows :=
       [ [("agent_number", JStr "+15550001111"); ("customer_number", JStr "+15552223333")];
         [("agent_number", JNum 5550004444); ("customer_number", JNum 14445556666)];
         [("agent_number", JStr ""); ("customer_number", JStr "+15559998888")] ];
     suggestedFromColumn := Some "agent_number";
     suggestedToColumn := Some "customer_number" |}.

(** The names of the derived fields of a dial record. *)
Definition derivedKeys : list string :=
  ["id"; "from"; "to"; "displayFrom"; "displayTo"; "rowIndex"].

(** A sheet whose columns are themselves named [from] and [to]. *)
Definition collidingRow : JsObject :=
  [("from", JStr "(555) 000-4444"); ("to", JStr "1 444 555 6666")].

(** A column name mentions a script when, case-insensitively, it contains
    one of the four tokens. *)
Definition mentionsScript (column : string) : bool :=
  existsb (fun token => Js.includes token (Js.toLowerCase column))
    ["script"; "message"; "notes"; "prompt"].

(** The trimmed text of a cell; a nullish cell has none. *)
Definition trimmedText (value : JsValue) : string :=
  if is_nullish value then "" else Js.trim (String_ value).

(** The specified resolution order: the trimmed text of the first field
    whose name mentions a script and whose trimmed text is not empty;
    otherwise the (trimmed) global script; the empty string stands for
    no script. *)
Definition resolveScript_spec (record : JsObject) (globalScript : string) : string :=
  match List.find (fun kv => mentionsScript kv.1 && Js.nonempty (trimmedText kv.2)) record with
  | Some kv => trimmedText kv.2
  | None => Js.trim globalScript
  end.

(** A row with a [Notes] column, as in the scenario of the specification. *)
Definition notesRow : JsObject :=
  [ ("agent_number", JStr "+15550001111");
    ("customer_number", JStr "+15552223333");
    ("Notes", JStr "Hello") ].

(** All characters of [s] satisfy [p]. *)
Fixpoint all_chars (p : ascii -> bool) (s : string) : bool :=
  match s with
  | "" => true
  | String c s' => p c && all_chars p s'
  end.

(** A text without white space that is not empty. *)
Definition solid (p : string) : bool :=
  Js.nonempty p && all_chars (fun c => negb (Js.is_space c)) p.

(** The fields of an object whose names the source takes for script
    columns, in order. *)
Fixpoint scriptFields (o : JsObject) : JsObject :=
  match o with
  | [] => []
  | (k, v) :: o' =>
      if is_script_key k then (k, v) :: scriptFields o' else scriptFields o'
  end.

(** The request body as [JSON.stringify] writes it. *)
Definition payloadJson (p : Payload) : JsValue :=
  JObj [("from", p_from p); ("to", p_to p); ("script", JStr (p_script p))].

(** The key under which the status dictionary holds a record. *)
Definition recordKey (record : JsObject) : string :=
  String_ (obj_get record "id").

(** Both numbers of a record are present (truthy). *)
Definition numbersPresent (record : JsObject) : bool :=
  truthy (obj_get record "from") && truthy (obj_get record "to").

(** The request body of the call for a record. *)
Definition payloadOf (scriptOverride : string) (record : JsObject) : Payload :=
  {| p_from := obj_get record "from";
     p_to := obj_get record "to";
     p_script := resolveScript record scriptOverride |}.

(** The network requests of a trace, in order. *)
Definition fetches (t : list Event) : list Payload :=
  omap (fun e => match e with EvFetch p => Some p | _ => None end) t.

(** The message of what was thrown, or the generic fallback. *)
Definition thrownMessage (e : Thrown) : string :=
  match e with
  | ErrorObj message => message
  | NonError => "Call failed"
  end.

(** The error text a response body provides, if any. *)
Definition serverErrorText (json : Exc JsValue) : option string :=
  match json with
  | Ok (JObj body) =>
      if is_nullish (obj_get body "error") then None
      else Some (String_ (obj_get body "error"))
  | _ => None
  end.

(** A body that is literally [null]: reading a member of it raises. *)
Definition nullBody (json : Exc JsValue) : bool :=
  match json with
  | Ok JNull | Ok JUndefined => true
  | _ => false
  end.

(** The events of one invocation of the call trigger for a record: for a
    record with both numbers, status calling, the request, and the final
    status (success or error); for a record without, status error
    alone. *)
Definition triggerEvents (scriptOverride : string) (record : JsObject)
    (events : list Event) : Prop :=
  if numbersPresent record then
    exists dialing settled,
      events = [ EvStatus (recordKey record) dialing;
                 EvFetch (payloadOf scriptOverride record);
                 EvStatus (recordKey record) settled ]
      /\ cr_status dialing = calling
      /\ (cr_status settled = success \/ cr_status settled = error)
  else
    exists entry,
      events = [EvStatus (recordKey record) entry] /\ cr_status entry = error.

(** The status of a record, in a status dictionary, is success. *)
Definition successful (m : gmap string CallResult) (record : JsObject) : bool :=
  bool_decide (statusOf m (recordKey record) = success).

(** The events of one pass over the queue: nothing for a record whose
    status in the snapshot is success; for every other record, in order,
    the events of its call trigger followed by the pause. *)
Inductive queueEvents (snapshot : gmap string CallResult) (scriptOverride : string)
    : list JsObject -> list Event -> Prop :=
  | queue_done : queueEvents snapshot scriptOverride [] []
  | queue_skip record records events :
      statusOf snapshot (recordKey record) = success ->
      queueEvents snapshot scriptOverride records events ->
      queueEvents snapshot scriptOverride (record :: records) events
  | queue_dial record records block events :
      statusOf snapshot (recordKey record) <> success ->
      triggerEvents scriptOverride record block ->
      queueEvents snapshot scriptOverride records events ->
      queueEvents snapshot scriptOverride (record :: records)
        (block ++ EvDelay 1500 :: events).

(** The records of a queue for which a request goes out: those whose
    status is not success and that have both numbers. *)
Definition requested (snapshot : gmap string CallResult) (record : JsObject) : bool :=
  negb (successful snapshot record) && numbersPresent record.

(** ** Sessions: sequences of user actions *)

(** What the user can start: the call of one row, or the whole queue. *)
Inductive Op : Type :=
  | Dial (record : JsObject)
  | DialAll (records : list JsObject).

(** The state after a workbook was loaded: no status yet. *)
Definition sessionStart (script : string) : AppState :=
  {| statusMap := ∅; scriptOverride := script; isAutoDialing := false; trace := [] |}.

Section Session.

Variable engine_message : TypeErrorKind -> string.
Variable fetch : list Event -> Payload -> FetchOutcome.
Variable Date_now : list Event -> Z.

Definition runOp (st : AppState) (op : Op) : AppState :=
  match op with
  | Dial record => triggerCall engine_message fetch Date_now record st
  | DialAll records => handleDialAll engine_message fetch Date_now records st
  end.

(** The handlers run one after the other, each to completion. *)
Definition runOps (ops : list Op) (st : AppState) : AppState :=
  fold_left runOp ops st.

End Session.

(** ** Handlers that overlap

    [triggerCall] and [handleDialAll] are asynchronous functions: a
    handler runs until its next [await], and goes on when what it waits
    for has settled; clicks and other handlers run in between.  What a
    handler does between two [await]s it does in one piece.  The places
    where a handler waits are the request of [triggerCall] and the pause
    of [handleDialAll]; the further [await]s of [triggerCall] (the body
    of the response) lie between the request and the final status, where
    the handler writes nothing. *)

(** A handler that waits: a call started from a row, for the outcome of
    its request; the queue dialer, inside the call of a record, for the
    same, with the records still to come; the queue dialer in its pause.
    The queue dialer carries the status dictionary it closed over; the
    script field it closed over is the one of the page, which no action
    of a run changes. *)
Inductive Task : Type :=
  | CallTask (record : JsObject) (outcome : FetchOutcome)
  | QueueCall (snapshot : gmap string CallResult) (record : JsObject)
      (outcome : FetchOutcome) (rest : list JsObject)
  | QueuePause (snapshot : gmap string CallResult) (rest : list JsObject).

(** The page with the handlers that wait. *)
Record Live := {
  page : AppState;
  waiting : list Task
}.

(** What happens next: the handler of the Call button of a row is
    started; the handler of the Dial entire queue button is started, with
    the dial list, the status dictionary and the flag of that render; or
    the [n]-th waiting handler goes on.  A handler can be started whether
    or not the page shows its button enabled. *)
Inductive Action : Type :=
  | ClickCall (record : JsObject)
  | ClickDialAll (records : list JsObject)
  | Resume (n : nat).

Section Async.

Variable engine_message : TypeErrorKind -> string.
Variable fetch : list Event -> Payload -> FetchOutcome.
Variable Date_now : list Event -> Z.

(** [triggerCall] up to its first [await]: the refusal of a record
    without numbers, which ends the call; or the status calling and the
    request, for whose outcome the call waits. *)
Definition triggerStart (record : JsObject) (st : AppState)
    : AppState * option FetchOutcome :=
  let id := obj_get record "id" in
  if negb (truthy (obj_get record "from")) || negb (truthy (obj_get record "to")) then
    (setCallStatus Date_now id
       {| u_status := error; u_message := Some "Missing phone numbers";
          u_sid := None; u_timestamp := None |} st,
     None)
  else
    let st1 :=
      setCallStatus Date_now id
        {| u_status := calling; u_message := Some "Dialing...";
           u_sid := None; u_timestamp := None |} st in
    let payload :=
      {| p_from := obj_get record "from";
         p_to := obj_get record "to";
         p_script := resolveScript record (scriptOverride st) |} in
    (emit (EvFetch payload) st1, Some (fetch (trace st1) payload)).

(** [triggerCall] from the outcome of its request on. *)
Definition triggerSettle (record : JsObject) (outcome : FetchOutcome)
    (st : AppState) : AppState :=
  let id := obj_get record "id" in
  match readResponse engine_message outcome with
  | Ok sid =>
      setCallStatus Date_now id
        {| u_status := success;
           u_message :=
             Some (if truthy sid
                   then "Call queued (SID: " +:+ String_ sid +:+ ")"
                   else "Call queued");
           u_sid := Some sid; u_timestamp := None |} st
  | Throw callError =>
      setCallStatus Date_now id
        {| u_status := error;
           u_message :=
             Some (match callError with
                   | ErrorObj message => message
                   | NonError => "Call failed"
                   end);
           u_sid := None; u_timestamp := None |} st
  end.

(** The loop of [handleDialAll] from some record on, up to the next
    [await]: the records whose status in the snapshot is success are
    passed over; the first other record is handed to the call trigger,
    and the handler waits for the request or, where the trigger refused
    the record, goes on to the pause; after the last record the flag is
    cleared. *)
Fixpoint queueAdvance (snapshot : gmap string CallResult)
    (records : list JsObject) (st : AppState) : AppState * option Task :=
  match records with
  | [] => (setIsAutoDialing false st, None)
  | record :: rest =>
      if isSuccess snapshot (obj_get record "id") then
        queueAdvance snapshot rest st
      else
        match triggerStart record st with
        | (st', Some outcome) => (st', Some (QueueCall snapshot record outcome rest))
        | (st', None) => (delay 1500 st', Some (QueuePause snapshot rest))
        end
  end.

Definition act (live : Live) (a : Action) : Live :=
  match a with
  | ClickCall record =>
      match triggerStart record (page live) with
      | (st', Some outcome) =>
          {| page := st'; waiting := waiting live ++ [CallTask record outcome] |}
      | (st', None) => {| page := st'; waiting := waiting live |}
      end
  | ClickDialAll records =>
      if isAutoDialing (page live) then live
      else
        match queueAdvance (statusMap (page live)) records
                (setIsAutoDialing true (page live)) with
        | (st', next) =>
            {| page := st'; waiting := waiting live ++ option_list next |}
        end
  | Resume n =>
      match waiting live !! n with
      | None => live
      | Some task =>
          let others := delete n (waiting live) in
          match task with
          | CallTask record outcome =>
              {| page := triggerSettle record outcome (page live);
                 waiting := others |}
          | QueueCall snapshot record outcome rest =>
              {| page := delay 1500 (triggerSettle record outcome (page live));
                 waiting := others ++ [QueuePause snapshot rest] |}
          | QueuePause snapshot rest =>
              match queueAdvance snapshot rest (page live) with
              | (st', next) =>
                  {| page := st'; waiting := others ++ option_list next |}
              end
          end
      end
  end.

(** A sequence of clicks and of handlers going on, from a page. *)
Definition run (actions : list Action) (live : Live) : Live :=
  fold_left act actions live.

End Async.

(** The page when it opens: no status and no handler waiting. *)
Definition liveStart (script : string) : Live :=
  {| page := sessionStart script; waiting := [] |}.

(** A handler waits for the outcome of a request for the record of a key. *)
Definition fetching (key : string) (task : Task) : bool :=
  match task with
  | CallTask record _ | QueueCall _ record _ _ => String.eqb (recordKey record) key
  | QueuePause _ _ => false
  end.

(** The number of requests in flight for the record of a key. *)
Definition inflight (key : string) (tasks : list Task) : nat :=
  length (List.filter (fetching key) tasks).

(** A handler of the queue dialer, and a page on which a queue run is in
    progress: a handler of the queue dialer waits. *)
Definition queueing (task : Task) : bool :=
  match task with
  | CallTask _ _ => false
  | QueueCall _ _ _ _ | QueuePause _ _ => true
  end.

Definition queueRunning (live : Live) : bool := existsb queueing (waiting live).

(** The first record of a queue whose status in the snapshot is not
    success. *)
Definition nextRecord (snapshot : gmap string CallResult)
    (records : list JsObject) : option JsObject :=
  List.find (fun record => negb (successful snapshot record)) records.

(** The record that an action hands to the call trigger, if any. *)
Definition handed (live : Live) (a : Action) : option JsObject :=
  match a with
  | ClickCall record => Some record
  | ClickDialAll records =>
      if isAutoDialing (page live) then None
      else nextRecord (statusMap (page live)) records
  | Resume n =>
      match waiting live !! n with
      | Some (QueuePause snapshot rest) => nextRecord snapshot rest
      | _ => None
      end
  end.

Section Apart.

Variable engine_message : TypeErrorKind -> string.
Variable fetch : list Event -> Payload -> FetchOutcome.
Variable Date_now : list Event -> Z.

(** The calls of a record are kept apart in a run: a record is handed to
    the call trigger only when no request for the record of its key is in
    flight. *)
Fixpoint apart (actions : list Action) (live : Live) : bool :=
  match actions with
  | [] => true
  | a :: rest =>
      match handed live a with
      | Some record => (inflight (recordKey record) (waiting live) =? 0)%nat
      | None => true
      end
      && apart rest (act engine_message fetch Date_now live a)
  end.

End Apart.

(** The transitions of the code when calls of one record overlap, on the
    entries written: a call starts (to calling, from any status, calling
    included); a call settles (to success or error, from any status but
    idle); a record without numbers is refused (to error with its
    message, from any status).  No entry is idle. *)
Definition step_overlap (from : Status) (entry : CallResult) : Prop :=
  cr_status entry = calling
  \/ (from <> idle /\ (cr_status entry = success \/ cr_status entry = error))
  \/ (cr_status entry = error
      /\ cr_message entry = Some "Missing phone numbers").

Fixpoint followsOverlap (from : Status) (entries : list CallResult) : Prop :=
  match entries with
  | [] => True
  | entry :: entries' =>
      step_overlap from entry /\ followsOverlap (cr_status entry) entries'
  end.

(** What one action does to the record of a key: nothing; or it writes
    one entry, with which a call starts (one more request in flight), a
    record is refused, or a call settles (one request less in flight).
    [w], [m] and [n] are the entries written under the key, the entry of
    the dictionary and the number of requests in flight, before and
    after the action; [h] is the record handed to the call trigger. *)
Definition moved (key : string) (h : option JsObject)
    (w : list CallResult) (m : option CallResult) (n : nat)
    (w' : list CallResult) (m' : option CallResult) (n' : nat) : Prop :=
  (w' = w /\ m' = m /\ n' = n)
  \/ exists entry,
       w' = w ++ [entry] /\ m' = Some entry
       /\ ((cr_status entry = calling /\ n' = S n
            /\ exists record, h = Some record /\ recordKey record = key)
           \/ (cr_status entry = error
               /\ cr_message entry = Some "Missing phone numbers" /\ n' = n
               /\ exists record, h = Some record /\ recordKey record = key)
           \/ ((cr_status entry = success \/ cr_status entry = error)
               /\ n = S n')).

(** A network behind which the first call is created and every later
    request fails. *)
Definition onceOnline : list Event -> Payload -> FetchOutcome :=
  fun t _ =>
    match fetches t with
    | [] => Response true (Ok (JObj [("sid", JStr "CA123")]))
    | _ => Rejected (ErrorObj "Failed to fetch")
    end.

(** The entries written under a key, oldest first. *)
Definition writes (key : string) (t : list Event) : list CallResult :=
  omap (fun e =>
          match e with
          | EvStatus k entry => if String.eqb k key then Some entry else None
          | _ => None
          end) t.

(** The transitions the specification allows: idle to calling, calling to
    success or error, and the redial from success or error to calling. *)
Inductive transition_spec : Status -> Status -> Prop :=
  | t_dial : transition_spec idle calling
  | t_success : transition_spec calling success
  | t_error : transition_spec calling error
  | t_redial_success : transition_spec success calling
  | t_redial_error : transition_spec error calling.

(** A sequence of statuses follows a transition relation from a start. *)
Fixpoint follows (step : Status -> Status -> Prop) (from : Status)
    (path : list Status) : Prop :=
  match path with
  | [] => True
  | s :: path' => step from s /\ follows step s path'
  end.

(** The transitions of the code, on the entries written: a dial or redial
    (to calling, from a status at rest), the settling of a call (from
    calling to success or error), and the refusal of a record without
    numbers (to error with its message, from a status at rest). *)
Definition step_code (from : Status) (entry : CallResult) : Prop :=
  (from <> calling /\ cr_status entry = calling)
  \/ (from = calling /\ (cr_status entry = success \/ cr_status entry = error))
  \/ (from <> calling /\ cr_status entry = error
      /\ cr_message entry = Some "Missing phone numbers").

Fixpoint followsEntries (from : Status) (entries : list CallResult) : Prop :=
  match entries with
  | [] => True
  | entry :: entries' =>
      step_code from entry /\ followsEntries (cr_status entry) entries'
  end.

(** The status after the last of a list of entries. *)
Definition statusAfter (from : Status) (entries : list CallResult) : Status :=
  from_option cr_status from (last entries).

(** ** Sample surroundings *)

Definition sampleEngine : TypeErrorKind -> string :=
  fun kind =>
    match kind with
    | DestructureNullish => "Cannot destructure property of null"
    | ReadPropertyOfNullish => "Cannot read properties of null"
    | NotAFunction => "trim is not a function"
    end.

(** A network that is down. *)
Definition offline : list Event -> Payload -> FetchOutcome :=
  fun _ _ => Rejected (ErrorObj "Failed to fetch").

(** A network behind which every call is created. *)
Definition online : list Event -> Payload -> FetchOutcome :=
  fun _ _ => Response true (Ok (JObj [("sid", JStr "CA123")])).

Definition clock : list Event -> Z := fun t => Z.of_nat (length t).

(** A sheet with a blank column named [from] next to the selected ones. *)
Definition blankFromWorkbook : ParsedWorkbook :=
  {| columns := ["caller"; "to"; "from"];
     rows := [ [("caller", JStr "5550001111"); ("to", JStr "5552223333"); ("from", JStr "")] ];
     suggestedFromColumn := Some "caller";
     suggestedToColumn := Some "to" |}.

(** ** The endpoint in the words of the specification *)

(** The credentials of the provider are absent. *)
Definition credentialsAbsent (env : Env) : Prop :=
  str_truthy (TWILIO_ACCOUNT_SID env) = false
  \/ str_truthy (TWILIO_AUTH_TOKEN env) = false.

(** A member of a request body that holds text or is missing. *)
Definition textOrMissing (v : JsValue) : bool :=
  match v with
  | JStr _ | JUndefined | JNull => true
  | _ => false
  end.

(** The text of such a member after trimming; a missing member has none. *)
Definition trimmedMember (v : JsValue) : string :=
  match v with
  | JStr s => Js.trim s
  | _ => ""
  end.

(** The escape of one character: the five XML metacharacters. *)
Definition escapeChar (c : ascii) : string :=
  if Ascii.eqb c "&" then "&amp;"
  else if Ascii.eqb c "<" then "&lt;"
  else if Ascii.eqb c ">" then "&gt;"
  else if Ascii.eqb c quote then "&quot;"
  else if Ascii.eqb c "'" then "&apos;"
  else String c "".

Fixpoint escape_spec (s : string) : string :=
  match s with
  | "" => ""
  | String c s' => escapeChar c +:+ escape_spec s'
  end.

(** The minimal document that speaks a text. *)
Definition speak (text : string) : string :=
  "<Response><Say>" +:+ escape_spec text +:+ "</Say></Response>".

(** The script of a request is present when it is text that is not blank;
    it is absent when the member is missing or the empty text. *)
Definition scriptPresent (script : JsValue) : option string :=
  match script with
  | JStr s => if Js.nonempty (Js.trim s) then Some (Js.trim s) else None
  | _ => None
  end.

Definition scriptAbsent (script : JsValue) : bool :=
  match script with
  | JUndefined | JNull | JStr "" => true
  | _ => false
  end.

(** The voice instruction of a call, as the specification words it: one
    of a spoken document, the voice URL, or nothing. *)
Inductive VoiceInstruction : Type :=
  | SayDocument (text : string)
  | VoiceUrl (url : string)
  | NoInstruction.

(** A configured (set and not empty) variable. *)
Definition configured (v : option string) : option string :=
  match v with
  | Some s => if Js.nonempty s then Some s else None
  | None => None
  end.

(** The script when present; otherwise the configured voice URL, or else
    the configured fallback message; otherwise nothing. *)
Definition voiceInstruction_spec (env : Env) (script : JsValue) : VoiceInstruction :=
  match scriptPresent script with
  | Some text => SayDocument text
  | None =>
      match configured (TWILIO_VOICE_URL env) with
      | Some url => VoiceUrl url
      | None =>
          match configured (TWILIO_FALLBACK_MESSAGE env) with
          | Some message => SayDocument message
          | None => NoInstruction
          end
      end
  end.

(** The [url] and [twiml] arguments that carry an instruction. *)
Definition instructionArgs (i : VoiceInstruction) : option string * option string :=
  match i with
  | SayDocument text => (None, Some (speak text))
  | VoiceUrl url => (Some url, None)
  | NoInstruction => (None, None)
  end.

(** Samples: an environment with every variable set, one without
    credentials, and a provider that creates every call. *)
Definition fullEnv : Env :=
  {| TWILIO_ACCOUNT_SID := Some "AC0001";
     TWILIO_AUTH_TOKEN := Some "secret";
     TWILIO_VOICE_URL := Some "https://example.com/voice";
     TWILIO_FALLBACK_MESSAGE := Some "Hello from the dialer";
     TWILIO_STATUS_CALLBACK_URL := None |}.

Definition noCredentials : Env :=
  {| TWILIO_ACCOUNT_SID := None;
     TWILIO_AUTH_TOKEN := None;
     TWILIO_VOICE_URL := None;
     TWILIO_FALLBACK_MESSAGE := None;
     TWILIO_STATUS_CALLBACK_URL := None |}.

Definition sampleTwilio : string -> string -> Exc (CallArgs -> Exc string) :=
  fun _ _ => Ok (fun _ => Ok "CA123").

Definition sampleRequest : JsValue :=
  JObj [("from", JStr "+15550001111"); ("to", JStr "+15552223333")].

(** The [url] and [twiml] of the arguments built for a call, if any. *)
Definition voiceArgs (r : Exc CallArgs) : option (option string * option string) :=
  match r with
  | Ok args => Some (ca_url args, ca_twiml args)
  | Throw _ => None
  end.

(** A queue of three dialable records, the second one already successful. *)
Definition queueRecord (index : nat) (to : string) : JsObject :=
  [ ("id", JStr ("row-" +:+ pretty index));
    ("from", JStr "+15550001111");
    ("to", JStr to);
    ("rowIndex", JNum (Z.of_nat index + 1)) ].

Definition sampleQueue : list JsObject :=
  [ queueRecord 0 "+15552220000";
    queueRecord 1 "+15552220001";
    queueRecord 2 "+15552220002" ].

Definition secondDone : AppState :=
  {| statusMap :=
       {[ "row-1" :=
            {| cr_id := JStr "row-1"; cr_status := success;
               cr_message := Some "Call queued (SID: CA100)";
               cr_sid := JStr "CA100"; cr_timestamp := 0 |} ]};
     scriptOverride := "Goodbye";
     isAutoDialing := false;
     trace := [] |}.

(** A record that lost its caller number to a blank [from] column. *)
Definition blankFromRecord : JsObject :=
  [ ("id", JStr "row-0"); ("from", JStr ""); ("to", JStr "5552223333") ].

(** ** The queue dialer in the words of the specification *)

Section QueueSpec.

Variable engine_message : TypeErrorKind -> string.
Variable fetch : list Event -> Payload -> FetchOutcome.
Variable Date_now : list Event -> Z.

(** One record of the queue: a record whose status is success at the time
    it is reached is passed over; any other record is handed to the call
    trigger and, once that has settled, followed by the pause. *)
Definition dialStep_spec (st : AppState) (record : JsObject) : AppState :=
  if successful (statusMap st) record then st
  else delay 1500 (triggerCall engine_message fetch Date_now record st).

Definition queueRun_spec (records : list JsObject) (st : AppState) : AppState :=
  fold_left dialStep_spec records st.

End QueueSpec.

(** The generic fallback message of the page. *)
Definition genericFallback : string := "Call failed".

(** The specified error message: the error text the server provides when
    there is one, otherwise the generic fallback. *)
Definition errorMessage_spec (outcome : FetchOutcome) : string :=
  match outcome with
  | Response _ json => default genericFallback (serverErrorText json)
  | Rejected _ => genericFallback
  end.

(** ** Markup characters *)

(** The characters that open or close a tag or an attribute value. *)
Definition is_markup (c : ascii) : bool :=
  Ascii.eqb c "<" || Ascii.eqb c ">" || Ascii.eqb c quote || Ascii.eqb c "'".

(** The five characters [escapeForTwiml] replaces. *)
Definition is_metachar (c : ascii) : bool :=
  Ascii.eqb c "&" || is_markup c.

(** The answer of the endpoint to what the provider's client does: the
    identifier of the call, or the message of what it threw. *)
Definition providerAnswer (r : Exc string) : HandlerResult :=
  match r with
  | Ok sid => Respond 200 (JObj [("sid", JStr sid)])
  | Throw e =>
      Respond 500
        (errorBody match e with
                   | ErrorObj message => message
                   | NonError => "Unable to create call"
                   end)
  end.

(** A request body that passes the checks of the endpoint: an object
    whose [from] and [to] are text that is not blank. *)
Definition validNumbers (payload : JsObject) : Prop :=
  textOrMissing (obj_get payload "from") = true
  /\ textOrMissing (obj_get payload "to") = true
  /\ trimmedMember (obj_get payload "from") <> ""
  /\ trimmedMember (obj_get payload "to") <> "".

(** A provider whose client cannot be built, and one that refuses calls. *)
Definition brokenTwilio : string -> string -> Exc (CallArgs -> Exc string) :=
  fun _ _ => Throw (ErrorObj "accountSid must start with AC").

Definition refusingTwilio : string -> string -> Exc (CallArgs -> Exc string) :=
  fun _ _ => Ok (fun _ => Throw (ErrorObj "The number is not verified")).

Definition samplePayload : JsObject :=
  [("from", JStr " +15550001111 "); ("to", JStr "+15552223333")].

(** ** More of the page, in plain words *)

(** The shape of a normalized number: digits only, after at most one
    leading [+]. *)
Definition phoneShape (s : string) : bool :=
  match s with
  | String c rest => if Ascii.eqb c plus then all_chars Js.is_digit rest
                     else all_chars Js.is_digit s
  | "" => true
  end.

(** A row that has no column named like one of the derived fields. *)
Definition plainRow (row : JsObject) : Prop :=
  forall k, k ∈ derivedKeys -> obj_has row k = false.

(** A sheet whose cells are written the way people write numbers. *)
Definition formattedWorkbook : ParsedWorkbook :=
  {| columns := ["caller"; "callee"; "name"];
     rows :=
       [ [("caller", JStr "(555) 000-1111"); ("callee", JStr "+1 555 222 3333");
          ("name", JStr "Jane")];
         [("caller", JStr "n/a"); ("callee", JStr "5552224444"); ("name", JStr "Joe")];
         [("caller", JStr "555.000.1111"); ("callee", JStr "1-555-222-5555");
          ("name", JStr "Ann")] ];
     suggestedFromColumn := Some "caller";
     suggestedToColumn := Some "callee" |}.

(** ** The rest of the [Home] component *)

(** The [FileState] union. *)
Inductive FileState : Type :=
  | FileIdle
  | FileLoading (filename : string)
  | FileReady (filename : string) (workbook : ParsedWorkbook).

(** The state of the component that the upload and the column mapping
    use, around the state of the dialer. *)
Record HomeState := {
  app : AppState;
  fileState : FileState;
  fromColumn : option string;
  toColumn : option string;
  errorText : option string
}.

(** A file the user picked. *)
Record File := {
  file_name : string;
  file_bytes : list Z
}.

(** [fileState.status === 'ready' ? fileState.workbook : null] *)
Definition workbook (h : HomeState) : option ParsedWorkbook :=
  match fileState h with
  | FileReady _ wb => Some wb
  | _ => None
  end.

(** The [dialRecords] memo of the component. *)
Definition currentDialRecords (h : HomeState) : list JsObject :=
  dialRecords (workbook h) (fromColumn h) (toColumn h).

Definition setScriptOverride (text : string) (st : AppState) : AppState :=
  {| statusMap := statusMap st; scriptOverride := text;
     isAutoDialing := isAutoDialing st; trace := trace st |}.

(** [prev ?? suggestion ?? null] *)
Definition keepOrSuggest (prev suggestion : option string) : option string :=
  match prev with
  | Some column => Some column
  | None => suggestion
  end.

(** The effect that runs when the workbook changes. *)
Definition useEffect_workbook (h : HomeState) : HomeState :=
  match workbook h with
  | None => h
  | Some wb =>
      {| app := app h; fileState := fileState h;
         fromColumn := keepOrSuggest (fromColumn h) (suggestedFromColumn wb);
         toColumn := keepOrSuggest (toColumn h) (suggestedToColumn wb);
         errorText := errorText h |}
  end.

Section Upload.

(** [parseWorkbook] of the spreadsheet library module, which is not part
    of the sources at hand: what it resolves to, or what it throws. *)
Variable parseWorkbook : File -> Exc ParsedWorkbook.

(** [files] are the files of the change event, [event.target.files ?? []]. *)
Definition handleFileChange (files : list File) (h : HomeState) : HomeState :=
  match files with
  | [] => h
  | file :: _ =>
      let cleared := setStatusMap (fun _ => ∅) (app h) in
      match parseWorkbook file with
      | Ok workbookData =>
          {| app := cleared;
             fileState := FileReady (file_name file) workbookData;
             fromColumn := fromColumn h; toColumn := toColumn h;
             errorText := None |}
      | Throw parseError =>
          {| app := cleared;
             fileState := FileIdle;
             fromColumn := fromColumn h; toColumn := toColumn h;
             errorText :=
               Some match parseError with
                    | ErrorObj message => message
                    | NonError => "Unable to read workbook"
                    end |}
      end
  end.

(** A change event and the render after it: the effect runs when the
    event gave the component another workbook. *)
Definition upload (files : list File) (h : HomeState) : HomeState :=
  match files with
  | [] => h
  | _ => useEffect_workbook (handleFileChange files h)
  end.

End Upload.

(** The two column selects: [setFromColumn(event.target.value || null)]. *)
Definition selectFrom (value : string) (h : HomeState) : HomeState :=
  {| app := app h; fileState := fileState h;
     fromColumn := if Js.nonempty value then Some value else None;
     toColumn := toColumn h; errorText := errorText h |}.

Definition selectTo (value : string) (h : HomeState) : HomeState :=
  {| app := app h; fileState := fileState h;
     fromColumn := fromColumn h;
     toColumn := if Js.nonempty value then Some value else None;
     errorText := errorText h |}.

(** The Reset button. *)
Definition handleReset (h : HomeState) : HomeState :=
  {| app := setScriptOverride "" (setStatusMap (fun _ => ∅) (app h));
     fileState := FileIdle;
     fromColumn := None; toColumn := None;
     errorText := None |}.

(** The component when the page opens. *)
Definition homeStart : HomeState :=
  {| app := sessionStart ""; fileState := FileIdle;
     fromColumn := None; toColumn := None; errorText := None |}.

(** The keys the details column leaves out. *)
Definition hiddenKeys : list string :=
  ["id"; "from"; "to"; "displayFrom"; "displayTo"; "rowIndex"; "sid"].

Definition shownKey (key : string) : bool :=
  negb (existsb (String.eqb key) hiddenKeys).

(** The number a key stands for when it is an array index: a key written
    in decimal digits, without a leading zero unless it is 0 itself, whose
    number is below 2^32 - 1. *)
Fixpoint digitsValue (s : string) (acc : N) : N :=
  match s with
  | "" => acc
  | String c s' => digitsValue s' (10 * acc + N.of_nat (Js.code c - 48))%N
  end.

Definition arrayIndex (key : string) : option N :=
  match key with
  | "" => None
  | String c rest =>
      if all_chars Js.is_digit key
         && (negb (Ascii.eqb c "0") || negb (Js.nonempty rest))
      then
        let n := digitsValue key 0 in
        if (n <? 4294967295)%N then Some n else None
      else None
  end.

Definition isIndexKey (key : string) : bool :=
  match arrayIndex key with
  | Some _ => true
  | None => false
  end.

(** The properties whose key is an array index, each with its number. *)
Definition indexEntries (o : JsObject) : list (N * (string * JsValue)) :=
  (fun kv => (default 0%N (arrayIndex kv.1), kv))
    <$> List.filter (fun kv => isIndexKey kv.1) o.

Fixpoint insertByIndex (e : N * (string * JsValue))
    (l : list (N * (string * JsValue))) : list (N * (string * JsValue)) :=
  match l with
  | [] => [e]
  | e' :: l' => if (e.1 <=? e'.1)%N then e :: l else e' :: insertByIndex e l'
  end.

(** [Object.entries(o)]: the properties whose key is an array index come
    first, in ascending order of the index, and then the other properties
    in the order of their creation. *)
Definition Object_entries (o : JsObject) : JsObject :=
  (foldr insertByIndex [] (indexEntries o)).*2
  ++ List.filter (fun kv => negb (isIndexKey kv.1)) o.

(** [metadataEntries] of a table row. *)
Definition metadataEntries (record : JsObject) : JsObject :=
  take 4 (List.filter (fun kv => shownKey kv.1) (Object_entries record)).

(** The [disabled] attribute of the Call button of a row. *)
Definition callDisabled (st : AppState) (record : JsObject) : bool :=
  bool_decide (statusOf (statusMap st) (recordKey record) = calling)
  || negb (truthy (obj_get record "from"))
  || negb (truthy (obj_get record "to"))
  || isAutoDialing st.

(** [successfulCalls], the Connected counter of the header. *)
Definition successfulCalls (m : gmap string CallResult) : nat :=
  length (filter (fun entry => cr_status entry = success) (map_to_list m).*2).

(** Samples: a parser that reads every file as the formatted sheet, one
    that fails, and a file. *)
Definition sampleFile : File := {| file_name := "leads.xlsx"; file_bytes := [] |}.

Definition parseFormatted : File -> Exc ParsedWorkbook :=
  fun _ => Ok formattedWorkbook.

Definition parseFailing : File -> Exc ParsedWorkbook :=
  fun _ => Throw (ErrorObj "Workbook has no sheets").

(** A member of a JSON value that is not [null]; only an object has any. *)
Definition member (v : JsValue) (k : string) : JsValue :=
  match v with
  | JObj o => obj_get o k
  | _ => JUndefined
  end.

(** The outcomes of a request that the page takes for a failure: the
    request is rejected, the response is not 2xx, or the body of a 2xx
    response is not JSON or is the JSON [null]. *)
Definition callFails (outcome : FetchOutcome) : bool :=
  match outcome with
  | Rejected _ => true
  | Response false _ => true
  | Response true (Throw _) => true
  | Response true (Ok body) => is_nullish body
  end.

(** A dictionary in which the first record of the sample queue was
    called with success before. *)
Definition firstDone : AppState :=
  {| statusMap :=
       {[ "row-0" :=
            {| cr_id := JStr "row-0"; cr_status := success;
               cr_message := Some "Call queued (SID: CA100)";
               cr_sid := JStr "CA100"; cr_timestamp := 0 |} ]};
     scriptOverride := "";
     isAutoDialing := false;
     trace := [] |}.

(** A network that answers 200 with a body that has no identifier. *)
Definition acknowledging : list Event -> Payload -> FetchOutcome :=
  fun _ _ => Response true (Ok (JObj [("ok", JBool true)])).

(** The [disabled] attribute of the Dial entire queue button. *)
Definition dialAllDisabled (h : HomeState) : bool :=
  (length (currentDialRecords h) =? 0)%nat
  || isAutoDialing (app h)
  || negb (str_truthy (fromColumn h))
  || negb (str_truthy (toColumn h)).

(** Every entry of a status dictionary stands under the text of its own
    record id, where the table looks it up. *)
Definition keyed (m : gmap string CallResult) : Prop :=
  forall key entry, m !! key = Some entry -> String_ (cr_id entry) = key.

(** A sheet with a column named [from] that holds a count, next to the
    selected columns. *)
Definition zeroFromWorkbook : ParsedWorkbook :=
  {| columns := ["caller"; "to"; "from"];
     rows :=
       [ [("caller", JStr "5550001111"); ("to", JStr "5552220000"); ("from", JNum 0)];
         [("caller", JStr "5550001111"); ("to", JStr "5552220001"); ("from", JNum 3)];
         [("caller", JStr "5550001111"); ("to", JStr "5552220002"); ("from", JNum 5)] ];
     suggestedFromColumn := Some "caller";
     suggestedToColumn := Some "to" |}.

(** A sheet whose number columns are themselves named [from] and [to]
    and hold numbers. *)
Definition numericWorkbook : ParsedWorkbook :=
  {| columns := ["from"; "to"];
     rows := [ [("from", JNum 15550001111); ("to", JNum 15552223333)] ];
     suggestedFromColumn := Some "from";
     suggestedToColumn := Some "to" |}.

(** A provider that answers with the number it was asked to call. *)
Definition echoTwilio : string -> string -> Exc (CallArgs -> Exc string) :=
  fun _ _ => Ok (fun args => Ok (ca_to args)).

(** * Properties *)

(** ** Strings *)

Lemma replaceAll_empty_keep cls s :
  Js.replaceAll cls "" s = keep (fun c => negb (cls c)) s.
Proof.
  induction s as [|c s IH]; simpl; [done|].
  rewrite IH. by destruct (cls c).
Qed.

Lemma keep_keep p q s :
  keep p (keep q s) = keep (fun c => q c && p c) s.
Proof.
  induction s as [|c s IH]; simpl; [done|].
  destruct (q c); simpl; [|done].
  destruct (p c); by rewrite IH.
Qed.

Lemma keep_ext p q s :
  (forall c, p c = q c) -> keep p s = keep q s.
Proof.
  intros Hpq. induction s as [|c s IH]; simpl; [done|].
  by rewrite Hpq, IH.
Qed.

Lemma keep_app p s t : keep p (s +:+ t) = keep p s +:+ keep p t.
Proof.
  induction s as [|c s IH]; simpl; [done|].
  destruct (p c); simpl; by rewrite IH.
Qed.

Lemma keep_trimStart p s :
  (forall c, Js.is_space c = true -> p c = false) ->
  keep p (Js.trimStart s) = keep p s.
Proof.
  intros Hp. induction s as [|c s IH]; simpl; [done|].
  destruct (Js.is_space c) eqn:Hc; [|done].
  by rewrite (Hp c Hc).
Qed.

Lemma keep_trimEnd p s :
  (forall c, Js.is_space c = true -> p c = false) ->
  keep p (Js.trimEnd s) = keep p s.
Proof.
  intros Hp. induction s as [|c s IH]; simpl; [done|].
  destruct (Js.trimEnd s) as [|d t] eqn:Ht.
  - rewrite <- IH. simpl.
    destruct (Js.is_space c) eqn:Hc; simpl; [by rewrite (Hp c Hc)|done].
  - simpl in *. by rewrite IH.
Qed.

Lemma keep_trim p s :
  (forall c, Js.is_space c = true -> p c = false) ->
  keep p (Js.trim s) = keep p s.
Proof.
  intros Hp. unfold Js.trim. by rewrite keep_trimEnd, keep_trimStart.
Qed.

Lemma space_not_digit c : Js.is_space c = true -> Js.is_digit c = false.
Proof. destruct c as [[] [] [] [] [] [] [] []]; by vm_compute. Qed.

Lemma digit_not_plus c : Js.is_digit c = true -> Ascii.eqb c plus = false.
Proof. destruct c as [[] [] [] [] [] [] [] []]; by vm_compute. Qed.

(** The two replacements of the source leave exactly the digits. *)
Lemma strip_to_digits raw :
  Js.replaceAll (fun c => Ascii.eqb c plus) ""
    (Js.replaceAll (fun c => negb (Js.is_digit c || Ascii.eqb c plus)) "" raw)
  = digitsOf raw.
Proof.
  rewrite !replaceAll_empty_keep, keep_keep. apply keep_ext. intros c.
  destruct (Js.is_digit c) eqn:Hd; simpl.
  - by rewrite (digit_not_plus c Hd).
  - by destruct (Ascii.eqb c plus).
Qed.

(** ** C2: the phone normalizer *)

Lemma normalizePhone_unfold (value : JsValue) :
  normalizePhone value = normalizePhone_spec value.
Proof.
  unfold normalizePhone_spec.
  assert (Hd : digitsOf (Js.trim (String_ value)) = digitsOf (String_ value))
    by (apply keep_trim, space_not_digit).
  destruct value; simpl is_nullish; cbv beta iota; try reflexivity;
    unfold normalizePhone; rewrite strip_to_digits, Hd; simpl orb;
    destruct (Js.nonempty (Js.trim _)); simpl negb; cbv iota; try reflexivity;
    destruct (Js.startsWith "+" (Js.trim _)); try reflexivity;
    repeat match goal with |- context [if ?b then _ else _] => destruct b end;
    reflexivity.
Qed.

(** C2. For every cell value, [normalizePhone] returns what the
    specification describes: the empty string for a nullish or blank
    input; [+] followed by exactly the digits of the input when the trimmed
    text starts with [+]; otherwise the digits of the input, with [+]
    prepended to eleven digits starting with 1, [+1] prepended to ten
    digits, and nothing prepended in every other case. *)
Theorem normalizePhone_meets_spec (value : JsValue) :
  normalizePhone value = normalizePhone_spec value.
Proof. exact (normalizePhone_unfold value). Qed.

(** The testable properties of the specification on digit strings. *)

Lemma digitsOf_digits s : all_chars Js.is_digit s = true -> digitsOf s = s.
Proof.
  induction s as [|c s IH]; [done|].
  simpl. intros [Hc Hs]%andb_prop. unfold digitsOf in *. simpl.
  by rewrite Hc, IH.
Qed.

Lemma digit_not_space c : Js.is_digit c = true -> Js.is_space c = false.
Proof. destruct c as [[] [] [] [] [] [] [] []]; by vm_compute. Qed.

Lemma trimEnd_digits s : all_chars Js.is_digit s = true -> Js.trimEnd s = s.
Proof.
  induction s as [|c s IH]; [done|].
  simpl. intros [Hc Hs]%andb_prop. rewrite (IH Hs), (digit_not_space c Hc).
  by destruct s.
Qed.

Lemma trim_digits s : all_chars Js.is_digit s = true -> Js.trim s = s.
Proof.
  intros Hs. unfold Js.trim.
  assert (Hstart : Js.trimStart s = s).
  { destruct s as [|c s]; [done|]. simpl in *.
    apply andb_prop in Hs as [Hc _]. by rewrite (digit_not_space c Hc). }
  rewrite Hstart. by apply trimEnd_digits.
Qed.

Lemma digits_no_plus s :
  all_chars Js.is_digit s = true -> Js.startsWith "+" s = false.
Proof.
  destruct s as [|c s]; [done|]. cbn [all_chars]. intros [Hc _]%andb_prop.
  unfold Js.startsWith.
  change (String.prefix "+" (String c s))
    with (if ascii_dec "+" c then String.prefix "" s else false).
  destruct (ascii_dec "+" c) as [<-|]; [by vm_compute in Hc|done].
Qed.

(** Ten digits get [+1] in front. *)
Lemma normalizePhone_ten_digits s :
  all_chars Js.is_digit s = true -> String.length s = 10 ->
  normalizePhone (JStr s) = "+1" +:+ s.
Proof.
  intros Hs Hlen. rewrite normalizePhone_unfold. unfold normalizePhone_spec.
  simpl String_. rewrite (trim_digits s Hs), (digitsOf_digits s Hs), Hlen.
  rewrite (digits_no_plus s Hs).
  destruct s; [done|]. reflexivity.
Qed.

(** Eleven digits that start with 1 get [+] in front. *)
Lemma normalizePhone_eleven_digits s :
  all_chars Js.is_digit s = true -> String.length s = 11 ->
  Js.startsWith "1" s = true ->
  normalizePhone (JStr s) = "+" +:+ s.
Proof.
  intros Hs Hlen Hone. rewrite normalizePhone_unfold. unfold normalizePhone_spec.
  simpl String_. rewrite (trim_digits s Hs), (digitsOf_digits s Hs), Hlen, Hone.
  rewrite (digits_no_plus s Hs).
  destruct s; [done|]. reflexivity.
Qed.

(** A text that starts with [+] keeps one [+] and its digits. *)
Lemma normalizePhone_plus s :
  Js.startsWith "+" (Js.trim s) = true ->
  normalizePhone (JStr s) = "+" +:+ digitsOf s.
Proof.
  intros Hplus. rewrite normalizePhone_unfold. unfold normalizePhone_spec.
  simpl String_. rewrite Hplus.
  destruct (Js.trim s); [done|]. reflexivity.
Qed.

Example normalizePhone_plain10 :
  normalizePhone (JStr "5550004444") = "+15550004444".
Proof. reflexivity. Qed.

Example normalizePhone_num10 :
  normalizePhone (JNum 5550004444) = "+15550004444".
Proof. vm_compute. reflexivity. Qed.

Example normalizePhone_formatted :
  normalizePhone (JStr " +1 (555) 000-1111 ") = "+15550001111".
Proof. reflexivity. Qed.

Example normalizePhone_short :
  normalizePhone (JStr "555-1234") = "5551234".
Proof. reflexivity. Qed.

(** ** C1: dial-record derivation *)

Lemma nonempty_false s : Js.nonempty s = false <-> s = "".
Proof. destruct s; simpl; split; congruence. Qed.

Lemma nonempty_true s : Js.nonempty s = true <-> s <> "".
Proof. destruct s; simpl; split; congruence. Qed.

Lemma dialRecord_None f t i row :
  dialRecord f t i row = None <-> excluded f t row.
Proof.
  unfold dialRecord, excluded.
  destruct (Js.nonempty (normalizePhone (obj_get row f))) eqn:Hf;
    destruct (Js.nonempty (normalizePhone (obj_get row t))) eqn:Ht; simpl;
    rewrite ?nonempty_false, ?nonempty_true in *; split;
    try congruence; try tauto; intros [?|?]; congruence.
Qed.

Lemma dialRecord_Some f t i row :
  ~ excluded f t row -> dialRecord f t i row = Some (makeRecord f t i row).
Proof.
  intros Hex. destruct (dialRecord f t i row) as [r|] eqn:Hr.
  - unfold dialRecord in Hr.
    destruct (_ || _) in Hr; congruence.
  - by apply dialRecord_None in Hr.
Qed.

Lemma filterBoolean_dialRecord f t (l : list JsObject) (n : nat) :
  filterBoolean (imap (fun i => dialRecord f t (n + i)) l)
  = (fun ir => makeRecord f t ir.1 ir.2)
      <$> filter (fun ir => ~ excluded f t ir.2) (imap (fun i => pair (n + i)) l).
Proof.
  revert n. induction l as [|row l IH]; intros n; [done|].
  cbn [imap filterBoolean].
  rewrite (imap_ext (_ ∘ S) (fun i => dialRecord f t (S n + i)))
    by (intros; simpl; f_equal; lia).
  rewrite (imap_ext (_ ∘ S) (fun i => pair (S n + i)))
    by (intros; simpl; f_equal; lia).
  rewrite IH, filter_cons. simpl.
  destruct (decide (~ excluded f t row)) as [Hk|Hk].
  - by rewrite (dialRecord_Some _ _ _ _ Hk).
  - apply dec_stable in Hk. apply (dialRecord_None f t (n + 0)) in Hk.
    by rewrite Hk.
Qed.

Lemma length_filter_split {A} (P : A -> Prop) `{!forall x, Decision (P x)}
    (l : list A) :
  length l = length (filter (fun x => ~ P x) l) + length (filter P l).
Proof.
  induction l as [|x l IH]; [done|].
  rewrite !filter_cons.
  destruct (decide (P x)), (decide (~ P x)); simpl; try tauto; lia.
Qed.

Lemma filter_imap_pair_length {A} (P : A -> Prop) `{!forall x, Decision (P x)}
    (l : list A) (n : nat) :
  length (filter (fun ir : nat * A => P ir.2) (imap (fun i => pair (n + i)) l))
  = length (filter P l).
Proof.
  revert n. induction l as [|x l IH]; intros n; [done|].
  cbn [imap].
  rewrite (imap_ext (_ ∘ S) (fun i => pair (S n + i)))
    by (intros; simpl; f_equal; lia).
  rewrite !filter_cons. cbn [snd].
  destruct (decide (P x)); cbn [length]; by rewrite IH.
Qed.

(** C1. With a workbook and a chosen pair of columns, the dial records are
    exactly the records of the rows that are not excluded, in the original
    row order and each built from its own row and row position; a row is
    excluded (its callback yields no record) if and only if the normalizer
    gives the empty string for its from-cell or its to-cell; and the number
    of rows is the number of dial records plus the number of excluded
    rows. *)
Theorem dialRecords_excludes_exactly (wb : ParsedWorkbook) (f t : string) :
  f <> "" -> t <> "" ->
  let records := dialRecords (Some wb) (Some f) (Some t) in
  (forall i row, dialRecord f t i row = None <-> excluded f t row)
  /\ (forall i row, ~ excluded f t row ->
        dialRecord f t i row = Some (makeRecord f t i row))
  /\ records
     = (fun ir => makeRecord f t ir.1 ir.2)
         <$> filter (fun ir => ~ excluded f t ir.2) (imap pair (rows wb))
  /\ length (rows wb)
     = length records + length (filter (excluded f t) (rows wb)).
Proof.
  intros Hf Ht records.
  assert (Hrec : records
     = (fun ir => makeRecord f t ir.1 ir.2)
         <$> filter (fun ir => ~ excluded f t ir.2) (imap pair (rows wb))).
  { subst records. unfold dialRecords.
    apply nonempty_true in Hf, Ht. rewrite Hf, Ht. simpl.
    apply (filterBoolean_dialRecord f t (rows wb) 0). }
  split; [apply dialRecord_None|].
  split; [apply dialRecord_Some|].
  split; [exact Hrec|].
  rewrite Hrec, length_fmap.
  pose proof (filter_imap_pair_length
                (fun row => ~ excluded f t row) (rows wb) 0) as Hlen.
  change (imap (fun i => pair (0 + i)) (rows wb))
    with (imap pair (rows wb)) in Hlen.
  rewrite Hlen. apply length_filter_split.
Qed.

Lemma dialRecords_excludes_exactly_witness :
  length (rows sampleWorkbook)
  = length (dialRecords (Some sampleWorkbook)
              (Some "agent_number") (Some "customer_number"))
    + length (filter (excluded "agent_number" "customer_number")
                (rows sampleWorkbook)).
Proof.
  apply (dialRecords_excludes_exactly sampleWorkbook
           "agent_number" "customer_number"); discriminate.
Defined.

(** The end-to-end scenario: two of the three rows are dialable, and the
    second record carries the normalized numbers of the second row. *)
Example dialRecords_sample :
  let records :=
    dialRecords (Some sampleWorkbook) (Some "agent_number") (Some "customer_number") in
  (fun r => (obj_get r "id", obj_get r "from", obj_get r "to", obj_get r "rowIndex"))
    <$> records
  = [ (JStr "row-0", JStr "+15550001111", JStr "+15552223333", JNum 1);
      (JStr "row-1", JStr "+15550004444", JStr "+14445556666", JNum 2) ].
Proof. vm_compute. reflexivity. Qed.

(** ** Objects *)

Lemma obj_get_set_eq o k v : obj_get (obj_set o k v) k = v.
Proof.
  induction o as [|[k' v'] o IH]; simpl.
  - by rewrite String.eqb_refl.
  - destruct (String.eqb k' k) eqn:Hk; simpl; by rewrite Hk.
Qed.

Lemma obj_get_set_ne o k v k' :
  k <> k' -> obj_get (obj_set o k v) k' = obj_get o k'.
Proof.
  intros Hne. induction o as [|[k0 v0] o IH]; simpl.
  - destruct (String.eqb_spec k k'); congruence.
  - destruct (String.eqb_spec k0 k) as [->|]; simpl.
    + destruct (String.eqb_spec k k'); congruence.
    + by rewrite IH.
Qed.

Lemma obj_has_false_get o k : obj_has o k = false -> obj_get o k = JUndefined.
Proof.
  induction o as [|[k' v'] o IH]; simpl; [done|].
  destruct (String.eqb k' k); simpl; [done|exact IH].
Qed.

Lemma obj_has_elem o k : obj_has o k = true <-> k ∈ o.*1.
Proof.
  induction o as [|[k' v'] o IH]; simpl.
  - split; [done|]. by intros ?%elem_of_nil.
  - rewrite elem_of_cons, <- IH.
    destruct (String.eqb_spec k' k); simpl; split; auto; intros [?|?]; congruence.
Qed.

Lemma obj_spread_cons base k v src :
  obj_spread base ((k, v) :: src) = obj_spread (obj_set base k v) src.
Proof. reflexivity. Qed.

Lemma obj_get_spread_absent base src k :
  obj_has src k = false -> obj_get (obj_spread base src) k = obj_get base k.
Proof.
  revert base. induction src as [|[k' v'] src IH]; intros base Hk; [done|].
  simpl in Hk. apply orb_false_iff in Hk as [Hk' Hk].
  rewrite obj_spread_cons, IH by done.
  apply obj_get_set_ne. by destruct (String.eqb_spec k' k).
Qed.

(** Spreading an object over another one makes its own properties win. *)
Lemma obj_get_spread_present base src k :
  NoDup src.*1 -> obj_has src k = true ->
  obj_get (obj_spread base src) k = obj_get src k.
Proof.
  revert base. induction src as [|[k' v'] src IH]; intros base Hnd Hk; [done|].
  rewrite obj_spread_cons. simpl in *.
  apply NoDup_cons in Hnd as [Hk' Hnd].
  destruct (String.eqb_spec k' k) as [->|Hne]; simpl in *.
  - rewrite obj_get_spread_absent, obj_get_set_eq; [done|].
    destruct (obj_has src k) eqn:Hh; [|done].
    by apply obj_has_elem in Hh.
  - by apply IH.
Qed.

(** ** C10: the row is spread over the derived fields *)

(** C10. The row is spread into the record after the derived fields: for
    every row (an object, so without repeated keys) and every key the row
    has, in particular [id], [from], [to], [displayFrom], [displayTo] and
    [rowIndex], the record holds the raw cell under that key and not the
    derived value.  In particular when a selected column is itself named
    [from] or [to], a row that passed the filter on its normalized numbers
    yields a record whose field of that name is the raw cell. *)
Theorem makeRecord_row_fields_win (f t : string) (index : nat) (row : JsObject) :
  NoDup row.*1 ->
  (forall k, k ∈ derivedKeys -> obj_has row k = true ->
     obj_get (makeRecord f t index row) k = obj_get row k)
  /\ (forall k record,
        k = "from" \/ k = "to" -> f = k \/ t = k ->
        dialRecord f t index row = Some record ->
        obj_get record k = obj_get row k).
Proof.
  intros Hnd. split.
  - intros k _ Hk. by apply obj_get_spread_present.
  - intros k record Hk Hsel Hrec.
    assert (Hhas : obj_has row k = true).
    { destruct (obj_has row k) eqn:Hh; [done|].
      apply obj_has_false_get in Hh.
      assert (Hex : excluded f t row).
      { destruct Hsel as [->| ->]; [left|right]; by rewrite Hh. }
      apply (dialRecord_None f t index) in Hex. congruence. }
    unfold dialRecord in Hrec.
    destruct (_ || _) in Hrec; [done|].
    injection Hrec as <-. by apply obj_get_spread_present.
Qed.

Lemma makeRecord_row_fields_win_witness :
  obj_get (makeRecord "from" "to" 0 collidingRow) "from" = JStr "(555) 000-4444"
  /\ normalizePhone (obj_get collidingRow "from") = "+15550004444".
Proof.
  split; [|reflexivity].
  assert (Hnd : NoDup collidingRow.*1) by compute_done.
  apply (proj1 (makeRecord_row_fields_win "from" "to" 0 collidingRow Hnd) "from").
  - compute_done.
  - reflexivity.
Defined.

(** ** Trimming and lower-casing do not change what a name mentions *)

Lemma lower_char_space c : Js.is_space (Js.lower_char c) = Js.is_space c.
Proof. destruct c as [[] [] [] [] [] [] [] []]; by vm_compute. Qed.

Lemma toLowerCase_trimStart s :
  Js.toLowerCase (Js.trimStart s) = Js.trimStart (Js.toLowerCase s).
Proof.
  induction s as [|c s IH]; simpl; [done|].
  rewrite lower_char_space. by destruct (Js.is_space c).
Qed.

Lemma toLowerCase_trimEnd s :
  Js.toLowerCase (Js.trimEnd s) = Js.trimEnd (Js.toLowerCase s).
Proof.
  induction s as [|c s IH]; simpl; [done|].
  rewrite <- IH, lower_char_space.
  destruct (Js.trimEnd s); simpl; [|done].
  by destruct (Js.is_space c).
Qed.

Lemma toLowerCase_trim s : Js.toLowerCase (Js.trim s) = Js.trim (Js.toLowerCase s).
Proof. unfold Js.trim. by rewrite toLowerCase_trimEnd, toLowerCase_trimStart. Qed.

Lemma prefix_nil p : p <> "" -> String.prefix p "" = false.
Proof. by destruct p. Qed.

Lemma prefix_empty s : String.prefix "" s = true.
Proof. by destruct s. Qed.

Lemma prefix_space p c s :
  solid p = true -> Js.is_space c = true -> String.prefix p (String c s) = false.
Proof.
  destruct p as [|a p]; [done|]. unfold solid. simpl.
  intros [Ha _]%andb_prop Hc.
  destruct (ascii_dec a c) as [->|]; [|done].
  by rewrite Hc in Ha.
Qed.

Lemma solid_nonempty p : solid p = true -> p <> "".
Proof. by destruct p. Qed.

Lemma solid_tail a p : solid (String a p) = true -> p = "" \/ solid p = true.
Proof.
  unfold solid. simpl. intros [_ Hp]%andb_prop.
  destruct p as [|b p]; [by left|right]. exact Hp.
Qed.

Lemma prefix_trimEnd p s :
  solid p = true -> String.prefix p (Js.trimEnd s) = String.prefix p s.
Proof.
  revert p. induction s as [|c s IH]; intros p Hp; [done|].
  destruct p as [|a p]; [done|].
  assert (Htail : String.prefix p (Js.trimEnd s) = String.prefix p s).
  { destruct (solid_tail _ _ Hp) as [->|Hp']; [by rewrite !prefix_empty|].
    by apply IH. }
  simpl. destruct (Js.trimEnd s) as [|d t] eqn:Ht.
  - destruct (Js.is_space c) eqn:Hc.
    + symmetry. apply (prefix_space (String a p) c s Hp Hc).
    + simpl. destruct (ascii_dec a c); [|done]. exact Htail.
  - simpl. destruct (ascii_dec a c); [|done]. exact Htail.
Qed.

Lemma includes_nil p : p <> "" -> Js.includes p "" = false.
Proof. by destruct p. Qed.

Lemma includes_cons p c s :
  Js.includes p (String c s) = String.prefix p (String c s) || Js.includes p s.
Proof. reflexivity. Qed.

Lemma includes_trimEnd p s :
  solid p = true -> Js.includes p (Js.trimEnd s) = Js.includes p s.
Proof.
  intros Hp. induction s as [|c s IH]; [done|].
  rewrite includes_cons, <- IH, <- (prefix_trimEnd p (String c s) Hp).
  cbn [Js.trimEnd]. destruct (Js.trimEnd s) as [|d t] eqn:Ht; [|done].
  destruct (Js.is_space c); [|done].
  rewrite (includes_nil p (solid_nonempty p Hp)).
  by rewrite (prefix_nil p (solid_nonempty p Hp)).
Qed.

Lemma includes_trimStart p s :
  solid p = true -> Js.includes p (Js.trimStart s) = Js.includes p s.
Proof.
  intros Hp. induction s as [|c s IH]; [done|].
  cbn [Js.trimStart]. destruct (Js.is_space c) eqn:Hc; [|done].
  by rewrite includes_cons, (prefix_space p c s Hp Hc), IH.
Qed.

Lemma includes_trim p s :
  solid p = true -> Js.includes p (Js.trim s) = Js.includes p s.
Proof.
  intros Hp. unfold Js.trim. by rewrite includes_trimEnd, includes_trimStart.
Qed.

(** The [trim] of the source does not change which names match. *)
Lemma is_script_key_mentions key : is_script_key key = mentionsScript key.
Proof.
  unfold is_script_key, mentionsScript, preferredKeys. cbn [existsb].
  rewrite toLowerCase_trim, !includes_trim by reflexivity.
  reflexivity.
Qed.

(** A key that is an array index is written in digits, and names no
    script column: the order in which JavaScript lists such keys does not
    matter to [findRowScript]. *)
Lemma lower_char_digit c : Js.is_digit c = true -> Js.lower_char c = c.
Proof. destruct c as [[] [] [] [] [] [] [] []]; by vm_compute. Qed.

Lemma toLowerCase_digits s :
  all_chars Js.is_digit s = true -> Js.toLowerCase s = s.
Proof.
  induction s as [|c s IH]; [done|].
  simpl. intros [Hc Hs]%andb_prop. by rewrite (lower_char_digit c Hc), IH.
Qed.

Lemma includes_digits a p s :
  Js.is_digit a = false -> all_chars Js.is_digit s = true ->
  Js.includes (String a p) s = false.
Proof.
  intros Ha. induction s as [|c s IH]; [done|].
  cbn [all_chars]. intros [Hc Hs]%andb_prop.
  rewrite includes_cons, (IH Hs), orb_false_r.
  change (String.prefix (String a p) (String c s))
    with (if ascii_dec a c then String.prefix p s else false).
  destruct (ascii_dec a c) as [->|]; [congruence|done].
Qed.

Lemma index_key_no_script key :
  all_chars Js.is_digit key = true -> is_script_key key = false.
Proof.
  intros Hkey. rewrite is_script_key_mentions. unfold mentionsScript.
  rewrite (toLowerCase_digits key Hkey). cbn [existsb].
  by rewrite !includes_digits.
Qed.

Lemma nullish_text value :
  Js.trim (String_ (nullish_or value (JStr ""))) = trimmedText value.
Proof. by destruct value. Qed.

Lemma findRowScript_find record :
  findRowScript record
  = (fun kv => trimmedText kv.2)
      <$> List.find (fun kv => mentionsScript kv.1 && Js.nonempty (trimmedText kv.2)) record.
Proof.
  induction record as [|[key value] record IH]; [done|].
  simpl. rewrite is_script_key_mentions, nullish_text, IH.
  destruct (mentionsScript key); simpl; [|done].
  by destruct (Js.nonempty (trimmedText value)).
Qed.

(** ** Script fields of a record and of its row *)

Lemma findRowScript_scriptFields o : findRowScript (scriptFields o) = findRowScript o.
Proof.
  induction o as [|[k v] o IH]; [done|].
  simpl. destruct (is_script_key k) eqn:Hk; simpl; rewrite ?Hk, IH; done.
Qed.

Lemma scriptFields_set o k v :
  scriptFields (obj_set o k v)
  = if is_script_key k then obj_set (scriptFields o) k v else scriptFields o.
Proof.
  induction o as [|[k' v'] o IH]; simpl.
  - by destruct (is_script_key k).
  - destruct (String.eqb_spec k' k) as [->|Hne]; simpl.
    + destruct (is_script_key k); simpl; [|done]. by rewrite String.eqb_refl.
    + rewrite IH. destruct (is_script_key k'), (is_script_key k); simpl; try done.
      by destruct (String.eqb_spec k' k).
Qed.

Lemma scriptFields_spread base src :
  scriptFields (obj_spread base src)
  = obj_spread (scriptFields base) (scriptFields src).
Proof.
  revert base. induction src as [|[k v] src IH]; intros base; [done|].
  rewrite obj_spread_cons, IH, scriptFields_set. simpl.
  by destruct (is_script_key k).
Qed.

Lemma obj_set_fresh o k v : k ∉ o.*1 -> obj_set o k v = o ++ [(k, v)].
Proof.
  induction o as [|[k' v'] o IH]; simpl; [done|].
  rewrite not_elem_of_cons. intros [Hne Hk].
  destruct (String.eqb_spec k' k); [congruence|]. by rewrite IH.
Qed.

Lemma obj_spread_fresh pre l : NoDup (pre ++ l).*1 -> obj_spread pre l = pre ++ l.
Proof.
  revert pre. induction l as [|[k v] l IH]; intros pre Hnd.
  - by rewrite app_nil_r.
  - rewrite obj_spread_cons.
    rewrite fmap_app, NoDup_app in Hnd. destruct Hnd as (Hpre & Hdis & Hl).
    rewrite obj_set_fresh by (intros Hk; apply (Hdis k Hk); simpl; left).
    rewrite IH, <- app_assoc; [done|].
    rewrite <- app_assoc, fmap_app. simpl.
    apply NoDup_app. by split_and!.
Qed.

Lemma scriptFields_keys o k : k ∈ (scriptFields o).*1 -> k ∈ o.*1.
Proof.
  induction o as [|[k' v'] o IH]; simpl; [done|].
  destruct (is_script_key k'); simpl; rewrite ?elem_of_cons; intuition.
Qed.

Lemma scriptFields_NoDup o : NoDup o.*1 -> NoDup (scriptFields o).*1.
Proof.
  induction o as [|[k v] o IH]; simpl; [done|].
  rewrite NoDup_cons. intros [Hk Hnd].
  destruct (is_script_key k); simpl; [|by apply IH].
  apply NoDup_cons. split; [|by apply IH].
  intros Hin. by apply Hk, scriptFields_keys.
Qed.

(** The derived fields carry no script, and the spread keeps the script
    columns of the row in their order. *)
Lemma findRowScript_makeRecord f t index row :
  NoDup row.*1 -> findRowScript (makeRecord f t index row) = findRowScript row.
Proof.
  intros Hnd. unfold makeRecord.
  rewrite <- findRowScript_scriptFields, scriptFields_spread.
  change (scriptFields (_ :: _)) with (@nil (string * JsValue)).
  rewrite (obj_spread_fresh [] (scriptFields row)) by by apply scriptFields_NoDup.
  simpl. apply findRowScript_scriptFields.
Qed.

(** ** C7: script resolution *)

Lemma resolveScript_meets_spec record globalScript :
  resolveScript record globalScript = resolveScript_spec record globalScript.
Proof.
  unfold resolveScript, resolveScript_spec. rewrite findRowScript_find.
  destruct (List.find _ record) as [kv|] eqn:Hfind; simpl; [|done].
  apply List.find_some in Hfind as [_ [_ Hne]%andb_prop].
  unfold str_or. by rewrite Hne.
Qed.

(** C7. The script sent with a call is resolved in the specified order:
    the trimmed text of the first field of the record whose name mentions
    a script (case-insensitively contains script, message, notes or
    prompt) and whose trimmed text is not empty; otherwise the trimmed
    global script; otherwise the empty script.  The fields that decide are
    the columns of the row the record was built from.  A row with a column
    Notes holding Hello resolves to Hello whatever the global script
    Goodbye; and the endpoint builds the same call for an empty script as
    for a request without one. *)
Theorem resolveScript_order (record : JsObject) (globalScript : string) :
  resolveScript record globalScript = resolveScript_spec record globalScript
  /\ (forall f t index row,
        NoDup row.*1 -> record = makeRecord f t index row ->
        resolveScript record globalScript = resolveScript_spec row globalScript)
  /\ resolveScript (makeRecord "agent_number" "customer_number" 0 notesRow) "Goodbye"
     = "Hello"
  /\ (forall engine_message env from to from' to',
        createArgs engine_message env
          (payloadJson {| p_from := from; p_to := to; p_script := "" |}) from' to'
        = createArgs engine_message env
            (JObj [("from", from); ("to", to)]) from' to').
Proof.
  split; [apply resolveScript_meets_spec|].
  split.
  { intros f t index row Hnd ->.
    rewrite <- resolveScript_meets_spec. unfold resolveScript.
    by rewrite findRowScript_makeRecord. }
  split; [by vm_compute|].
  intros. reflexivity.
Qed.

Lemma resolveScript_order_witness :
  resolveScript (makeRecord "agent_number" "customer_number" 0 notesRow) "Goodbye"
  = resolveScript_spec notesRow "Goodbye".
Proof.
  apply (proj1 (proj2 (resolveScript_order
                         (makeRecord "agent_number" "customer_number" 0 notesRow)
                         "Goodbye"))
           "agent_number" "customer_number" 0%nat notesRow).
  - compute_done.
  - reflexivity.
Defined.

(** ** The call trigger *)

Section PageProperties.

Variable engine_message : TypeErrorKind -> string.
Variable fetch : list Event -> Payload -> FetchOutcome.
Variable Date_now : list Event -> Z.

Abbreviation setCallStatus := (setCallStatus Date_now).
Abbreviation triggerCall := (triggerCall engine_message fetch Date_now).
Abbreviation handleDialAll := (handleDialAll engine_message fetch Date_now).
Abbreviation dialStep := (dialStep engine_message fetch Date_now).

(** What one [setCallStatus] does to the state. *)
Lemma setCallStatus_spec id update st :
  exists entry,
    setCallStatus id update st
    = {| statusMap := <[String_ id := entry]> (statusMap st);
         scriptOverride := scriptOverride st;
         isAutoDialing := isAutoDialing st;
         trace := trace st ++ [EvStatus (String_ id) entry] |}
    /\ cr_status entry = u_status update
    /\ cr_id entry = id
    /\ (forall m, u_message update = Some m -> cr_message entry = Some m)
    /\ (forall v, u_sid update = Some v -> cr_sid entry = v).
Proof.
  eexists. split; [reflexivity|]. simpl.
  split_and!; try done.
  - by intros m ->.
  - by intros v ->.
Qed.

Lemma numbersPresent_false record :
  numbersPresent record = false
  <-> truthy (obj_get record "from") = false \/ truthy (obj_get record "to") = false.
Proof. unfold numbersPresent. apply andb_false_iff. Qed.

Lemma triggerCall_guard record :
  negb (truthy (obj_get record "from")) || negb (truthy (obj_get record "to"))
  = negb (numbersPresent record).
Proof. unfold numbersPresent. by rewrite negb_andb. Qed.

(** The guard of the call trigger: one status write, nothing else. *)
Lemma triggerCall_absent record st :
  numbersPresent record = false ->
  exists entry,
    triggerCall record st
    = {| statusMap := <[recordKey record := entry]> (statusMap st);
         scriptOverride := scriptOverride st;
         isAutoDialing := isAutoDialing st;
         trace := trace st ++ [EvStatus (recordKey record) entry] |}
    /\ cr_status entry = error
    /\ cr_message entry = Some "Missing phone numbers".
Proof.
  intros Hmiss. unfold triggerCall.
  rewrite triggerCall_guard, Hmiss. simpl negb. cbv iota.
  destruct (setCallStatus_spec (obj_get record "id")
              {| u_status := error; u_message := Some "Missing phone numbers";
                 u_sid := None; u_timestamp := None |} st)
    as (entry & -> & Hst & _ & Hmsg & _).
  exists entry. split_and!; [done|done|by apply Hmsg].
Qed.

(** The call itself: status calling, the request, the final status. *)
Lemma triggerCall_present record st :
  numbersPresent record = true ->
  let key := recordKey record in
  let payload := payloadOf (scriptOverride st) record in
  exists dialing settled,
    triggerCall record st
    = {| statusMap := <[key := settled]> (<[key := dialing]> (statusMap st));
         scriptOverride := scriptOverride st;
         isAutoDialing := isAutoDialing st;
         trace := trace st ++ [EvStatus key dialing; EvFetch payload; EvStatus key settled] |}
    /\ cr_status dialing = calling
    /\ match readResponse engine_message
               (fetch (trace st ++ [EvStatus key dialing]) payload) with
       | Ok sid => cr_status settled = success /\ cr_sid settled = sid
       | Throw e =>
           cr_status settled = error /\ cr_message settled = Some (thrownMessage e)
       end.
Proof.
  intros Hnum key payload. unfold triggerCall.
  rewrite triggerCall_guard, Hnum. simpl negb. cbv iota zeta.
  destruct (setCallStatus_spec (obj_get record "id")
              {| u_status := calling; u_message := Some "Dialing...";
                 u_sid := None; u_timestamp := None |} st)
    as (dialing & -> & Hdial & _).
  fold (recordKey record). fold key. fold (payloadOf (scriptOverride st) record).
  fold payload. cbn [trace scriptOverride].
  set (st2 := emit (EvFetch payload) _).
  assert (Hsettle : forall update, exists settled,
    setCallStatus (obj_get record "id") update st2
    = {| statusMap := <[key := settled]> (<[key := dialing]> (statusMap st));
         scriptOverride := scriptOverride st;
         isAutoDialing := isAutoDialing st;
         trace := trace st ++ [EvStatus key dialing; EvFetch payload; EvStatus key settled] |}
    /\ cr_status settled = u_status update
    /\ (forall m, u_message update = Some m -> cr_message settled = Some m)
    /\ (forall v, u_sid update = Some v -> cr_sid settled = v)).
  { intros update.
    destruct (setCallStatus_spec (obj_get record "id") update st2)
      as (settled & -> & Hst & _ & Hmsg & Hsid).
    exists settled. fold (recordKey record). fold key.
    cbn [trace statusMap scriptOverride isAutoDialing st2 emit].
    split_and!; try done.
    by rewrite <- !app_assoc. }
  exists dialing.
  destruct (readResponse engine_message (fetch _ payload)) as [sid|callError];
    match goal with |- context [setCallStatus _ ?u st2] =>
      destruct (Hsettle u) as (settled & -> & Hst & Hmsg & Hsid)
    end;
    exists settled; (split_and!; [done|exact Hdial|exact Hst|]).
  - by apply Hsid.
  - by apply Hmsg.
Qed.

Lemma fetches_app t1 t2 : fetches (t1 ++ t2) = fetches t1 ++ fetches t2.
Proof. apply omap_app. Qed.

(** C5. For a record whose from or to is empty (falsy), the call trigger
    does one thing only: it writes status error with the message Missing
    phone numbers for that record.  No request is sent, and the status of
    every other key of the dictionary is what it was. *)
Theorem triggerCall_missing_numbers (record : JsObject) (st : AppState) :
  truthy (obj_get record "from") = false \/ truthy (obj_get record "to") = false ->
  let st' := triggerCall record st in
  (exists entry,
      trace st' = trace st ++ [EvStatus (recordKey record) entry]
      /\ statusMap st' !! recordKey record = Some entry
      /\ cr_status entry = error
      /\ cr_message entry = Some "Missing phone numbers")
  /\ fetches (trace st') = fetches (trace st)
  /\ (forall key, key <> recordKey record ->
        statusMap st' !! key = statusMap st !! key).
Proof.
  intros Hmiss%numbersPresent_false st'. subst st'.
  destruct (triggerCall_absent record st Hmiss) as (entry & -> & Hst & Hmsg).
  cbn [trace statusMap]. split_and!.
  - exists entry. split_and!; [done| |done|done]. apply lookup_insert_eq.
  - rewrite fetches_app. simpl. by rewrite app_nil_r.
  - intros key Hkey. by apply lookup_insert_ne.
Qed.

(** What the [try] block makes of each kind of outcome. *)
Lemma readResponse_ok_object body :
  readResponse engine_message (Response true (Ok (JObj body)))
  = Ok (obj_get body "sid").
Proof. reflexivity. Qed.

Lemma readResponse_failure json :
  readResponse engine_message (Response false json)
  = Throw (ErrorObj
      (if nullBody json then engine_message DestructureNullish
       else default "Call failed" (serverErrorText json))).
Proof.
  destruct json as [[]|]; try reflexivity.
  simpl. unfold nullish_or. by destruct (is_nullish _).
Qed.

(** C4, as the code has it.  For a record with both numbers present the
    call trigger writes status calling, then sends the request, then
    writes the final status, in that order and to that record.  The final
    status is success when the response is 2xx and its body is JSON other
    than null: with the identifier the body holds under sid when it is an
    object, without identifier otherwise.  It is error when the request
    fails or the response is not 2xx.  The error message is the error text
    of the response body when it has one and the generic Call failed when
    it has none; when an exception was raised instead (the network failed,
    the body of a 2xx response is not JSON, or a body, 2xx or not, is a
    literal null), it is the message of that exception, or Call failed for
    a thrown value that is no Error. *)
Theorem triggerCall_outcome (record : JsObject) (st : AppState) :
  truthy (obj_get record "from") = true ->
  truthy (obj_get record "to") = true ->
  let st' := triggerCall record st in
  let key := recordKey record in
  let payload := payloadOf (scriptOverride st) record in
  exists dialing settled,
    trace st' = trace st ++ [EvStatus key dialing; EvFetch payload; EvStatus key settled]
    /\ cr_status dialing = calling
    /\ statusMap st' !! key = Some settled
    /\ (forall other, other <> key -> statusMap st' !! other = statusMap st !! other)
    /\ let outcome := fetch (trace st ++ [EvStatus key dialing]) payload in
       (forall body, outcome = Response true (Ok (JObj body)) ->
          cr_status settled = success /\ cr_sid settled = obj_get body "sid")
       /\ (forall e, outcome = Rejected e \/ outcome = Response true (Throw e) ->
             cr_status settled = error
             /\ cr_message settled = Some (thrownMessage e))
       /\ (forall json, outcome = Response false json ->
             cr_status settled = error
             /\ cr_message settled
                = Some (if nullBody json then engine_message DestructureNullish
                        else default "Call failed" (serverErrorText json)))
       /\ (forall body, outcome = Response true (Ok body) ->
             is_nullish body = true ->
             cr_status settled = error
             /\ cr_message settled = Some (engine_message DestructureNullish))
       /\ (forall body, outcome = Response true (Ok body) ->
             is_nullish body = false ->
             cr_status settled = success /\ cr_sid settled = member body "sid").
Proof.
  intros Hfrom Hto st' key payload. subst st'.
  assert (Hnum : numbersPresent record = true)
    by (unfold numbersPresent; by rewrite Hfrom, Hto).
  destruct (triggerCall_present record st Hnum)
    as (dialing & settled & -> & Hdial & Hread).
  fold key payload in Hread |- *. cbn [trace statusMap].
  exists dialing, settled.
  split; [done|]. split; [done|]. split; [apply lookup_insert_eq|].
  split; [intros other Hother; by rewrite !lookup_insert_ne|].
  cbv zeta. split_and!.
  - intros body Hout. by rewrite Hout, readResponse_ok_object in Hread.
  - intros e [Hout|Hout]; by rewrite Hout in Hread.
  - intros json Hout. by rewrite Hout, readResponse_failure in Hread.
  - intros body Hout Hnull. rewrite Hout in Hread. by destruct body.
  - intros body Hout Hnull. rewrite Hout in Hread. by destruct body.
Qed.

End PageProperties.

(** ** The queue dialer *)

(** The test of the loop, [statusMap[record.id]?.status === 'success'],
    holds exactly of the records whose status is success. *)
Lemma isSuccess_successful m record :
  isSuccess m (obj_get record "id") = successful m record.
Proof.
  unfold isSuccess, successful, statusOf. fold (recordKey record).
  destruct (m !! recordKey record) as [entry|]; [|done].
  apply bool_decide_ext. split; congruence.
Qed.

Lemma successful_true m record :
  successful m record = true <-> statusOf m (recordKey record) = success.
Proof. apply bool_decide_eq_true. Qed.

Lemma successful_false m record :
  successful m record = false <-> statusOf m (recordKey record) <> success.
Proof. apply bool_decide_eq_false. Qed.

Section QueueProperties.

Variable engine_message : TypeErrorKind -> string.
Variable fetch : list Event -> Payload -> FetchOutcome.
Variable Date_now : list Event -> Z.

Abbreviation triggerCall := (triggerCall engine_message fetch Date_now).
Abbreviation handleDialAll := (handleDialAll engine_message fetch Date_now).
Abbreviation dialStep := (dialStep engine_message fetch Date_now).

(** Every invocation of the call trigger appends its events to the trace,
    writes at most the key of its record, and leaves the rest of the
    state alone. *)
Lemma triggerCall_events record st :
  exists block,
    trace (triggerCall record st) = trace st ++ block
    /\ triggerEvents (scriptOverride st) record block
    /\ scriptOverride (triggerCall record st) = scriptOverride st
    /\ isAutoDialing (triggerCall record st) = isAutoDialing st
    /\ (forall key, key <> recordKey record ->
          statusMap (triggerCall record st) !! key = statusMap st !! key).
Proof.
  unfold triggerEvents.
  destruct (numbersPresent record) eqn:Hnum.
  - destruct (triggerCall_present engine_message fetch Date_now record st Hnum)
      as (dialing & settled & -> & Hdial & Hread).
    eexists. cbn [trace scriptOverride isAutoDialing statusMap].
    split; [reflexivity|]. split.
    { exists dialing, settled. split_and!; [done|done|].
      destruct (readResponse _ _); [left|right]; apply Hread. }
    split_and!; try done.
    intros key Hkey. by rewrite !lookup_insert_ne.
  - destruct (triggerCall_absent engine_message fetch Date_now record st Hnum)
      as (entry & -> & Hst & Hmsg).
    eexists. cbn [trace scriptOverride isAutoDialing statusMap].
    split; [reflexivity|]. split; [by exists entry|].
    split_and!; try done.
    intros key Hkey. by rewrite lookup_insert_ne.
Qed.

(** The loop of the queue dialer, from any state. *)
Lemma dialLoop_events snapshot records st :
  let st' := fold_left (dialStep snapshot) records st in
  exists events,
    trace st' = trace st ++ events
    /\ queueEvents snapshot (scriptOverride st) records events
    /\ scriptOverride st' = scriptOverride st
    /\ isAutoDialing st' = isAutoDialing st
    /\ (forall key, statusOf snapshot key = success ->
          statusMap st' !! key = statusMap st !! key).
Proof.
  revert st. induction records as [|record records IH]; intros st; simpl.
  { exists []. rewrite app_nil_r. split_and!; try done. constructor. }
  change (dialStep snapshot st record)
    with (if isSuccess snapshot (obj_get record "id") then st
          else delay 1500 (triggerCall record st)).
  rewrite isSuccess_successful.
  destruct (successful snapshot record) eqn:Hskip.
  - destruct (IH st) as (events & Htr & Hq & Hso & Hauto & Hkeep).
    exists events. split_and!; try done.
    constructor; [by apply successful_true|done].
  - destruct (triggerCall_events record st)
      as (block & Htr1 & Hblock & Hso1 & Hauto1 & Hother1).
    destruct (IH (delay 1500 (triggerCall record st)))
      as (events & Htr & Hq & Hso & Hauto & Hkeep).
    cbn [delay emit trace scriptOverride isAutoDialing statusMap] in *.
    exists (block ++ EvDelay 1500 :: events). split_and!.
    + rewrite Htr, Htr1, <- !app_assoc. done.
    + constructor; [by apply successful_false|done|]. by rewrite <- Hso1.
    + by rewrite Hso.
    + by rewrite Hauto.
    + intros key Hs. rewrite Hkeep by done. apply Hother1.
      intros ->. by apply successful_false in Hskip.
Qed.

(** The requests of one pass over the queue. *)
Lemma queueEvents_fetches snapshot scriptOverride records events :
  queueEvents snapshot scriptOverride records events ->
  fetches events
  = payloadOf scriptOverride <$> List.filter (requested snapshot) records.
Proof.
  induction 1 as [|record records events Hskip _ IH
                  |record records block events Hskip Hblock _ IH].
  - done.
  - apply successful_true in Hskip. simpl. unfold requested at 1.
    by rewrite Hskip.
  - apply successful_false in Hskip.
    rewrite fetches_app. simpl. unfold requested at 1. rewrite Hskip. simpl.
    unfold triggerEvents in Hblock.
    destruct (numbersPresent record).
    + destruct Hblock as (dialing & settled & -> & _). simpl. by rewrite IH.
    + destruct Hblock as (entry & -> & _). simpl. by rewrite IH.
Qed.

(** The requests are those of the records with numbers among the
    records that are not successful. *)
Lemma filter_requested snapshot records :
  List.filter (requested snapshot) records
  = List.filter numbersPresent
      (List.filter (fun record => negb (successful snapshot record)) records).
Proof.
  induction records as [|record records IH]; [done|].
  simpl. unfold requested at 1.
  destruct (successful snapshot record); simpl; [done|].
  destruct (numbersPresent record); by rewrite IH.
Qed.

Lemma filter_split {A} (p : A -> bool) (l : list A) :
  length (List.filter p l) + length (List.filter (fun x => negb (p x)) l)
  = length l.
Proof.
  induction l as [|x l IH]; [done|]. simpl. destruct (p x); simpl; lia.
Qed.

Lemma filter_full {A} (p : A -> bool) (l : list A) :
  Forall (fun x => p x = true) l <-> length (List.filter p l) = length l.
Proof.
  induction l as [|x l IH]; simpl; [by split|].
  rewrite Forall_cons. pose proof (List.filter_length_le p l).
  destruct (p x); simpl; [rewrite IH; split; [intros [_ ->]; done|intros [= ->]; done]|].
  split; [intros [? _]; done|lia].
Qed.

(** With one key per record, the status the handler closed over is the
    status of each record at the time the loop reaches it. *)
Lemma dialLoop_live snapshot records st :
  NoDup (recordKey <$> records) ->
  (forall record, record ∈ records ->
     statusMap st !! recordKey record = snapshot !! recordKey record) ->
  fold_left (dialStep snapshot) records st
  = queueRun_spec engine_message fetch Date_now records st.
Proof.
  revert st. induction records as [|record records IH]; intros st Hnd Hsame; [done|].
  rewrite fmap_cons in Hnd. apply NoDup_cons in Hnd as [Hfresh Hnd].
  assert (Hstep : dialStep snapshot st record
                  = dialStep_spec engine_message fetch Date_now st record).
  { unfold dialStep, dialStep_spec. rewrite !isSuccess_successful.
    unfold successful, statusOf. by rewrite (Hsame record) by left. }
  simpl. rewrite Hstep. apply IH; [done|].
  intros record' Hin. rewrite <- (Hsame record') by by right.
  assert (Hne : recordKey record' <> recordKey record).
  { intros Heq. apply Hfresh. rewrite <- Heq. by apply list_elem_of_fmap_2. }
  unfold dialStep_spec. destruct (successful _ _); [done|].
  destruct (triggerCall_events record st) as (_ & _ & _ & _ & _ & Hother).
  cbn [delay emit statusMap]. by apply Hother.
Qed.

End QueueProperties.

(** ** C6: status transitions *)

Lemma writes_app key t1 t2 : writes key (t1 ++ t2) = writes key t1 ++ writes key t2.
Proof. apply omap_app. Qed.

Lemma followsEntries_app from l1 l2 :
  followsEntries from (l1 ++ l2)
  <-> followsEntries from l1 /\ followsEntries (statusAfter from l1) l2.
Proof.
  revert from. induction l1 as [|entry l1 IH]; intros from; simpl.
  - unfold statusAfter. simpl. tauto.
  - rewrite IH. unfold statusAfter. rewrite last_cons.
    destruct (last l1); simpl; tauto.
Qed.

Lemma statusAfter_app from l1 l2 :
  statusAfter from (l1 ++ l2) = statusAfter (statusAfter from l1) l2.
Proof.
  unfold statusAfter. rewrite last_app. by destruct (last l2).
Qed.

Lemma writes_cons_status key k entry t :
  writes key (EvStatus k entry :: t)
  = if String.eqb k key then entry :: writes key t else writes key t.
Proof. unfold writes. simpl. by destruct (String.eqb k key). Qed.

Lemma followsOverlap_app from l1 l2 :
  followsOverlap from (l1 ++ l2)
  <-> followsOverlap from l1 /\ followsOverlap (statusAfter from l1) l2.
Proof.
  revert from. induction l1 as [|entry l1 IH]; intros from; simpl.
  - unfold statusAfter. simpl. tauto.
  - rewrite IH. unfold statusAfter. rewrite last_cons.
    destruct (last l1); simpl; tauto.
Qed.

(** No entry is idle. *)
Lemma followsOverlap_live from entries :
  followsOverlap from entries -> entries <> [] ->
  statusAfter from entries <> idle.
Proof.
  revert from. induction entries as [|entry entries IH]; intros from; [done|].
  intros [Hstep Hrest] _. unfold statusAfter. rewrite last_cons.
  destruct entries as [|entry' entries].
  - simpl. destruct Hstep as [H|[[_ [H|H]]|[H _]]]; by rewrite H.
  - specialize (IH _ Hrest ltac:(done)). unfold statusAfter in IH.
    by destruct (last (entry' :: entries)).
Qed.

Lemma inflight_app key l1 l2 :
  inflight key (l1 ++ l2) = inflight key l1 + inflight key l2.
Proof. unfold inflight. by rewrite List.filter_app, length_app. Qed.

Lemma inflight_one key task :
  inflight key [task] = if fetching key task then 1 else 0.
Proof. unfold inflight. simpl. by destruct (fetching key task). Qed.

Lemma inflight_delete key (tasks : list Task) n task :
  tasks !! n = Some task ->
  inflight key tasks
  = inflight key (delete n tasks) + (if fetching key task then 1 else 0).
Proof.
  intros Hn. rewrite <- (take_drop_middle tasks n task Hn) at 1.
  rewrite delete_take_drop, !inflight_app.
  change (task :: drop (S n) tasks) with ([task] ++ drop (S n) tasks).
  rewrite inflight_app, inflight_one.
  destruct (fetching key task); simpl; lia.
Qed.

Lemma nextRecord_skip snapshot record rest :
  successful snapshot record = true ->
  nextRecord snapshot (record :: rest) = nextRecord snapshot rest.
Proof. intros H. unfold nextRecord. simpl. by rewrite H. Qed.

Lemma nextRecord_here snapshot record rest :
  successful snapshot record = false ->
  nextRecord snapshot (record :: rest) = Some record.
Proof. intros H. unfold nextRecord. simpl. by rewrite H. Qed.

Section OverlapProperties.

Variable engine_message : TypeErrorKind -> string.
Variable fetch : list Event -> Payload -> FetchOutcome.
Variable Date_now : list Event -> Z.

Abbreviation triggerCall := (triggerCall engine_message fetch Date_now).
Abbreviation triggerStart := (triggerStart fetch Date_now).
Abbreviation triggerSettle := (triggerSettle engine_message Date_now).
Abbreviation queueAdvance := (queueAdvance fetch Date_now).
Abbreviation act := (act engine_message fetch Date_now).
Abbreviation run := (run engine_message fetch Date_now).
Abbreviation apart := (apart engine_message fetch Date_now).

(** The call trigger is its first part followed, where there is a
    request, by its second part on the outcome of the request. *)
Lemma triggerCall_split record st :
  triggerCall record st
  = match triggerStart record st with
    | (st', Some outcome) => triggerSettle record outcome st'
    | (st', None) => st'
    end.
Proof.
  unfold triggerCall, triggerStart, triggerSettle.
  by destruct (_ || _).
Qed.

(** What the parts of the handlers write. *)
Lemma triggerStart_present record st :
  numbersPresent record = true ->
  exists dialing outcome st',
    triggerStart record st = (st', Some outcome)
    /\ cr_status dialing = calling
    /\ trace st'
       = trace st ++ [EvStatus (recordKey record) dialing;
                      EvFetch (payloadOf (scriptOverride st) record)]
    /\ statusMap st' = <[recordKey record := dialing]> (statusMap st)
    /\ isAutoDialing st' = isAutoDialing st.
Proof.
  intros Hnum. unfold triggerStart.
  rewrite triggerCall_guard, Hnum. simpl negb. cbv iota zeta.
  destruct (setCallStatus_spec Date_now (obj_get record "id")
              {| u_status := calling; u_message := Some "Dialing...";
                 u_sid := None; u_timestamp := None |} st)
    as (dialing & -> & Hdial & _).
  eexists dialing, _, _. split; [reflexivity|]. split; [exact Hdial|].
  unfold emit. cbn [trace statusMap isAutoDialing scriptOverride].
  by rewrite <- app_assoc.
Qed.

Lemma triggerStart_absent record st :
  numbersPresent record = false ->
  exists entry st',
    triggerStart record st = (st', None)
    /\ cr_status entry = error
    /\ cr_message entry = Some "Missing phone numbers"
    /\ trace st' = trace st ++ [EvStatus (recordKey record) entry]
    /\ statusMap st' = <[recordKey record := entry]> (statusMap st)
    /\ isAutoDialing st' = isAutoDialing st.
Proof.
  intros Hnum. unfold triggerStart.
  rewrite triggerCall_guard, Hnum. simpl negb. cbv iota zeta.
  destruct (setCallStatus_spec Date_now (obj_get record "id")
              {| u_status := error; u_message := Some "Missing phone numbers";
                 u_sid := None; u_timestamp := None |} st)
    as (entry & -> & Hst & _ & Hmsg & _).
  eexists entry, _. split; [reflexivity|]. split; [exact Hst|].
  split; [by apply Hmsg|]. done.
Qed.

Lemma triggerSettle_spec record outcome st :
  exists settled,
    (cr_status settled = success \/ cr_status settled = error)
    /\ trace (triggerSettle record outcome st)
       = trace st ++ [EvStatus (recordKey record) settled]
    /\ statusMap (triggerSettle record outcome st)
       = <[recordKey record := settled]> (statusMap st)
    /\ isAutoDialing (triggerSettle record outcome st) = isAutoDialing st.
Proof.
  unfold triggerSettle. cbv zeta.
  destruct (readResponse engine_message outcome) as [sid|callError];
    match goal with |- context [setCallStatus _ _ ?u st] =>
      destruct (setCallStatus_spec Date_now (obj_get record "id") u st)
        as (settled & -> & Hst & _)
    end;
    exists settled; (split; [by rewrite Hst; auto|done]).
Qed.

(** One status write, seen from a key. *)
Lemma write_seen key k entry (st st' : AppState) (after : list Event) :
  trace st' = trace st ++ EvStatus k entry :: after ->
  writes key after = [] ->
  statusMap st' = <[k := entry]> (statusMap st) ->
  (k = key ->
     writes key (trace st') = writes key (trace st) ++ [entry]
     /\ statusMap st' !! key = Some entry)
  /\ (k <> key ->
      writes key (trace st') = writes key (trace st)
      /\ statusMap st' !! key = statusMap st !! key).
Proof.
  intros -> Hafter ->. rewrite writes_app, writes_cons_status, Hafter. split.
  - intros ->. by rewrite String.eqb_refl, lookup_insert_eq.
  - intros Hne. destruct (String.eqb_spec k key); [done|].
    by rewrite app_nil_r, lookup_insert_ne.
Qed.

(** The first part of the call trigger, seen from a key; [mk] makes the
    handler that waits for the request. *)
Lemma triggerStart_moved key record st tasks (mk : FetchOutcome -> Task)
    (pause : list Task) :
  (forall outcome, fetching key (mk outcome) = String.eqb (recordKey record) key) ->
  inflight key pause = 0 ->
  moved key (Some record)
    (writes key (trace st)) (statusMap st !! key) (inflight key tasks)
    (writes key (trace (triggerStart record st).1))
    (statusMap (triggerStart record st).1 !! key)
    (inflight key
       (tasks ++ match (triggerStart record st).2 with
                 | Some outcome => [mk outcome]
                 | None => pause
                 end)).
Proof.
  intros Hmk Hpause. destruct (numbersPresent record) eqn:Hnum.
  - destruct (triggerStart_present record st Hnum)
      as (dialing & outcome & st' & -> & Hdial & Htr & Hmap & _).
    cbn [fst snd].
    destruct (write_seen key (recordKey record) dialing st st' _ Htr eq_refl Hmap)
      as [Hsame Hother].
    rewrite inflight_app, inflight_one, Hmk.
    destruct (decide (recordKey record = key)) as [Hk|Hk].
    + destruct (Hsame Hk) as [-> ->]. right. exists dialing.
      split; [done|]. split; [done|]. left.
      apply String.eqb_eq in Hk. rewrite Hk. simpl.
      split_and!; [done|lia|]. exists record. split; [done|].
      by apply String.eqb_eq.
    + destruct (Hother Hk) as [-> ->]. left.
      apply String.eqb_neq in Hk. rewrite Hk. simpl. split_and!; [done|done|lia].
  - destruct (triggerStart_absent record st Hnum)
      as (entry & st' & -> & Hst & Hmsg & Htr & Hmap & _).
    cbn [fst snd].
    destruct (write_seen key (recordKey record) entry st st' _ Htr eq_refl Hmap)
      as [Hsame Hother].
    rewrite inflight_app, Hpause.
    destruct (decide (recordKey record = key)) as [Hk|Hk].
    + destruct (Hsame Hk) as [-> ->]. right. exists entry.
      split; [done|]. split; [done|]. right; left.
      split_and!; [done|done|lia|]. by exists record.
    + destruct (Hother Hk) as [-> ->]. left. split_and!; [done|done|lia].
Qed.

(** The second part of the call trigger, seen from a key: [n] requests
    were in flight with the one that settles, [n'] are without it. *)
Lemma triggerSettle_moved key h record outcome st n n' :
  n = n' + (if String.eqb (recordKey record) key then 1 else 0) ->
  moved key h
    (writes key (trace st)) (statusMap st !! key) n
    (writes key (trace (triggerSettle record outcome st)))
    (statusMap (triggerSettle record outcome st) !! key) n'.
Proof.
  intros Hn.
  destruct (triggerSettle_spec record outcome st) as (settled & Hst & Htr & Hmap & _).
  destruct (write_seen key (recordKey record) settled st _ _ Htr eq_refl Hmap)
    as [Hsame Hother].
  destruct (decide (recordKey record = key)) as [Hk|Hk].
  - destruct (Hsame Hk) as [-> ->]. right. exists settled.
    split; [done|]. split; [done|]. right; right. split; [done|].
    apply String.eqb_eq in Hk. rewrite Hk in Hn. lia.
  - destruct (Hother Hk) as [-> ->]. left.
    apply String.eqb_neq in Hk. rewrite Hk in Hn. split_and!; [done|done|lia].
Qed.

(** The loop of the queue dialer up to its next wait, seen from a key. *)
Lemma queueAdvance_moved key snapshot records st tasks :
  moved key (nextRecord snapshot records)
    (writes key (trace st)) (statusMap st !! key) (inflight key tasks)
    (writes key (trace (queueAdvance snapshot records st).1))
    (statusMap (queueAdvance snapshot records st).1 !! key)
    (inflight key (tasks ++ option_list (queueAdvance snapshot records st).2)).
Proof.
  induction records as [|record rest IH].
  - left. simpl. rewrite writes_app, !app_nil_r. by split_and!.
  - cbn [queueAdvance]. rewrite isSuccess_successful.
    destruct (successful snapshot record) eqn:Hskip.
    + by rewrite (nextRecord_skip _ _ _ Hskip).
    + rewrite (nextRecord_here _ _ _ Hskip).
      pose proof (triggerStart_moved key record st tasks
                    (fun outcome => QueueCall snapshot record outcome rest)
                    [QueuePause snapshot rest]
                    (fun _ => eq_refl) eq_refl) as Hmoved.
      destruct (triggerStart record st) as [st' [outcome|]]; cbn [fst snd] in *.
      * exact Hmoved.
      * unfold delay, emit. cbn [trace statusMap option_list].
        by rewrite writes_app, app_nil_r.
Qed.

(** Every action, seen from a key. *)
Lemma act_moved key live a :
  moved key (handed live a)
    (writes key (trace (page live))) (statusMap (page live) !! key)
    (inflight key (waiting live))
    (writes key (trace (page (act live a))))
    (statusMap (page (act live a)) !! key)
    (inflight key (waiting (act live a))).
Proof.
  destruct a as [record|records|n]; cbn [handed act].
  - pose proof (triggerStart_moved key record (page live) (waiting live)
                  (fun outcome => CallTask record outcome) []
                  (fun _ => eq_refl) eq_refl) as Hmoved.
    destruct (triggerStart record (page live)) as [st' [outcome|]];
      cbn [fst snd page waiting] in *; [done|]. by rewrite app_nil_r in Hmoved.
  - destruct (isAutoDialing (page live)); [by left|].
    pose proof (queueAdvance_moved key (statusMap (page live)) records
                  (setIsAutoDialing true (page live)) (waiting live)) as Hmoved.
    destruct (queueAdvance _ records _) as [st' next].
    cbn [fst snd page waiting setIsAutoDialing trace statusMap] in *.
    by rewrite writes_app, app_nil_r in Hmoved.
  - destruct (waiting live !! n) as [task|] eqn:Hn; [|by left].
    pose proof (inflight_delete key _ _ _ Hn) as Hcount.
    destruct task as [record outcome|snapshot record outcome rest|snapshot rest];
      cbn [fetching] in Hcount; cbn [page waiting].
    + by apply triggerSettle_moved.
    + unfold delay, emit. cbn [trace statusMap].
      rewrite writes_app, app_nil_r, inflight_app, inflight_one. cbn [fetching].
      apply triggerSettle_moved. lia.
    + pose proof (queueAdvance_moved key snapshot rest (page live)
                    (delete n (waiting live))) as Hmoved.
      destruct (queueAdvance snapshot rest (page live)) as [st' next].
      cbn [fst snd page waiting] in *. rewrite Hcount, Nat.add_0_r. exact Hmoved.
Qed.

(** What holds of a key whatever the handlers do. *)
Lemma overlap_kept key h w m n w' m' n' :
  moved key h w m n w' m' n' ->
  followsOverlap idle w /\ m = last w /\ (0 < n -> w <> []) ->
  followsOverlap idle w' /\ m' = last w' /\ (0 < n' -> w' <> []).
Proof.
  intros [(-> & -> & ->)|(entry & -> & -> & Hkind)] (Hpath & Hmap & Hfly); [done|].
  split_and!.
  - apply followsOverlap_app. split; [done|]. simpl. split; [|done].
    destruct Hkind as [(Hst & _)|[(Hst & Hmsg & _)|(Hst & Hn)]].
    + by left.
    + right; right. by split.
    + right; left. split; [|done].
      apply followsOverlap_live; [done|]. apply Hfly. lia.
  - by rewrite last_snoc.
  - intros _. by destruct w.
Qed.

(** What holds of a key while the calls of its record are kept apart. *)
Lemma apart_kept key h w m n w' m' n' :
  moved key h w m n w' m' n' ->
  (forall record, h = Some record -> recordKey record = key -> n = 0) ->
  followsEntries idle w /\ n <= 1 /\ (statusAfter idle w = calling <-> n = 1) ->
  followsEntries idle w' /\ n' <= 1 /\ (statusAfter idle w' = calling <-> n' = 1).
Proof.
  intros [(-> & -> & ->)|(entry & -> & -> & Hkind)] Hapart (Hpath & Hle & Hfly);
    [done|].
  rewrite followsEntries_app, statusAfter_app.
  change (statusAfter (statusAfter idle w) [entry]) with (cr_status entry).
  simpl.
  destruct Hkind as [(Hst & -> & record & Hh & Hk)
                    |[(Hst & Hmsg & -> & record & Hh & Hk)|(Hst & ->)]].
  - pose proof (Hapart record Hh Hk) as ->.
    assert (Hrest : statusAfter idle w <> calling) by (rewrite Hfly; lia).
    split_and!; [done|left; by split|done|lia|by rewrite Hst].
  - pose proof (Hapart record Hh Hk) as ->.
    assert (Hrest : statusAfter idle w <> calling) by (rewrite Hfly; lia).
    split_and!; [done|right; right; by split_and!|done|lia|].
    rewrite Hst. split; [done|lia].
  - assert (Hone : statusAfter idle w = calling) by (apply Hfly; lia).
    split_and!; [done|right; left; by split|done|lia|].
    destruct Hst as [-> | ->]; (split; [done|lia]).
Qed.

Lemma run_overlap key actions live :
  let w := writes key (trace (page live)) in
  followsOverlap idle w /\ statusMap (page live) !! key = last w
  /\ (0 < inflight key (waiting live) -> w <> []) ->
  let w' := writes key (trace (page (run actions live))) in
  followsOverlap idle w' /\ statusMap (page (run actions live)) !! key = last w'
  /\ (0 < inflight key (waiting (run actions live)) -> w' <> []).
Proof.
  revert live. induction actions as [|a actions IH]; intros live; [done|].
  cbv zeta. intros Hinv. apply IH. cbv zeta.
  by apply (overlap_kept key _ _ _ _ _ _ _ (act_moved key live a)).
Qed.

Lemma run_apart key actions live :
  apart actions live = true ->
  let w := writes key (trace (page live)) in
  followsEntries idle w /\ inflight key (waiting live) <= 1
  /\ (statusAfter idle w = calling <-> inflight key (waiting live) = 1) ->
  let w' := writes key (trace (page (run actions live))) in
  followsEntries idle w' /\ inflight key (waiting (run actions live)) <= 1
  /\ (statusAfter idle w' = calling
      <-> inflight key (waiting (run actions live)) = 1).
Proof.
  revert live. induction actions as [|a actions IH]; intros live; [done|].
  cbn [apart]. intros [Hhere Hrest]%andb_prop. cbv zeta. intros Hinv.
  apply (IH _ Hrest). cbv zeta.
  apply (apart_kept key _ _ _ _ _ _ _ (act_moved key live a)); [|done].
  intros record Hh Hk. rewrite Hh, Hk in Hhere. by apply Nat.eqb_eq.
Qed.

(** *** Handlers run one after the other

    The handlers as functions that run to completion, [triggerCall] and
    [handleDialAll], are the runs in which every handler that waits goes
    on before anything else happens; such runs keep the calls apart. *)

Lemma run_app actions1 actions2 live :
  run (actions1 ++ actions2) live = run actions2 (run actions1 live).
Proof. apply fold_left_app. Qed.

Lemma apart_app actions1 actions2 live :
  apart (actions1 ++ actions2) live
  = apart actions1 live && apart actions2 (run actions1 live).
Proof.
  revert live. induction actions1 as [|a actions1 IH]; intros live; [done|].
  simpl. by rewrite IH, andb_assoc.
Qed.

Lemma triggerCall_run record st :
  exists actions,
    run actions {| page := st; waiting := [] |}
    = {| page := triggerCall record st; waiting := [] |}
    /\ apart actions {| page := st; waiting := [] |} = true.
Proof.
  exists [ClickCall record; Resume 0]. rewrite triggerCall_split.
  simpl. destruct (triggerStart record st) as [st' [outcome|]]; by simpl.
Qed.

Lemma resume_call snapshot record outcome rest st :
  act {| page := st; waiting := [QueueCall snapshot record outcome rest] |} (Resume 0)
  = {| page := delay 1500 (triggerSettle record outcome st);
       waiting := [QueuePause snapshot rest] |}.
Proof. reflexivity. Qed.

Lemma resume_pause snapshot rest st :
  act {| page := st; waiting := [QueuePause snapshot rest] |} (Resume 0)
  = {| page := (queueAdvance snapshot rest st).1;
       waiting := option_list (queueAdvance snapshot rest st).2 |}.
Proof. unfold act. simpl. by destruct (queueAdvance snapshot rest st). Qed.

Lemma apart_pause snapshot rest st actions :
  apart (Resume 0 :: actions)
    {| page := st; waiting := [QueuePause snapshot rest] |}
  = apart actions
      (act {| page := st; waiting := [QueuePause snapshot rest] |} (Resume 0)).
Proof. cbn [apart handed waiting]. simpl. by destruct (nextRecord snapshot rest). Qed.

Lemma dialLoop_run snapshot records st :
  exists actions,
    run actions
      {| page := (queueAdvance snapshot records st).1;
         waiting := option_list (queueAdvance snapshot records st).2 |}
    = {| page := setIsAutoDialing false
                   (fold_left (dialStep engine_message fetch Date_now snapshot)
                      records st);
         waiting := [] |}
    /\ apart actions
         {| page := (queueAdvance snapshot records st).1;
            waiting := option_list (queueAdvance snapshot records st).2 |}
       = true.
Proof.
  revert st. induction records as [|record rest IH]; intros st.
  { by exists []. }
  cbn [queueAdvance fold_left]. unfold dialStep at 2.
  destruct (isSuccess snapshot (obj_get record "id")); [apply IH|].
  rewrite triggerCall_split.
  destruct (triggerStart record st) as [st' [outcome|]]; cbn [fst snd];
    change (option_list (Some ?task)) with [task].
  - destruct (IH (delay 1500 (triggerSettle record outcome st')))
      as (actions & Hrun & Hapart).
    exists (Resume 0 :: Resume 0 :: actions). split.
    + change (run (Resume 0 :: Resume 0 :: actions) ?live)
        with (run actions (act (act live (Resume 0)) (Resume 0))).
      by rewrite resume_call, resume_pause.
    + change (apart (Resume 0 :: ?l) ?live)
        with (true && apart l (act live (Resume 0))).
      by rewrite resume_call, apart_pause, resume_pause.
  - destruct (IH (delay 1500 st')) as (actions & Hrun & Hapart).
    exists (Resume 0 :: actions). split.
    + change (run (Resume 0 :: actions) ?live)
        with (run actions (act live (Resume 0))).
      by rewrite resume_pause.
    + by rewrite apart_pause, resume_pause.
Qed.

Lemma click_dialAll records st :
  isAutoDialing st = false ->
  act {| page := st; waiting := [] |} (ClickDialAll records)
  = {| page := (queueAdvance (statusMap st) records (setIsAutoDialing true st)).1;
       waiting :=
         option_list
           (queueAdvance (statusMap st) records (setIsAutoDialing true st)).2 |}.
Proof.
  intros Hauto. unfold act. cbn [page waiting]. rewrite Hauto.
  by destruct (queueAdvance _ records _).
Qed.

Lemma handleDialAll_run records st :
  exists actions,
    run actions {| page := st; waiting := [] |}
    = {| page := handleDialAll engine_message fetch Date_now records st;
         waiting := [] |}
    /\ apart actions {| page := st; waiting := [] |} = true.
Proof.
  unfold handleDialAll. destruct (isAutoDialing st) eqn:Hauto.
  { by exists []. }
  destruct (dialLoop_run (statusMap st) records (setIsAutoDialing true st))
    as (actions & Hrun & Hapart).
  exists (ClickDialAll records :: actions). split.
  - change (run (ClickDialAll records :: actions) ?live)
      with (run actions (act live (ClickDialAll records))).
    by rewrite click_dialAll.
  - cbn [apart]. rewrite click_dialAll, Hapart by done.
    cbn [handed page waiting]. rewrite Hauto.
    by destruct (nextRecord _ _).
Qed.

(** Every session of handlers run one after the other is a run that keeps
    the calls apart. *)
Lemma runOps_run ops st :
  exists actions,
    run actions {| page := st; waiting := [] |}
    = {| page := runOps engine_message fetch Date_now ops st; waiting := [] |}
    /\ apart actions {| page := st; waiting := [] |} = true.
Proof.
  revert st. induction ops as [|op ops IH]; intros st.
  { by exists []. }
  assert (Hop : exists actions,
             run actions {| page := st; waiting := [] |}
             = {| page := runOp engine_message fetch Date_now st op; waiting := [] |}
             /\ apart actions {| page := st; waiting := [] |} = true).
  { destruct op as [record|records]; [apply triggerCall_run|apply handleDialAll_run]. }
  destruct Hop as (actions1 & Hrun1 & Hapart1).
  destruct (IH (runOp engine_message fetch Date_now st op))
    as (actions2 & Hrun2 & Hapart2).
  exists (actions1 ++ actions2).
  by rewrite run_app, apart_app, Hrun1, Hrun2, Hapart1, Hapart2.
Qed.

(** Run one after the other from a fresh session, each to completion,
    calls of single rows and queue runs write entries that follow the
    specified transitions and the refusal; between two handlers no status
    is calling. *)
Lemma sequential_transitions (script : string) (ops : list Op) (key : string) :
  let final := runOps engine_message fetch Date_now ops (sessionStart script) in
  followsEntries idle (writes key (trace final))
  /\ statusOf (statusMap final) key = statusAfter idle (writes key (trace final))
  /\ statusOf (statusMap final) key <> calling.
Proof.
  cbv zeta.
  destruct (runOps_run ops (sessionStart script)) as (actions & Hrun & Hapart).
  fold (liveStart script) in Hrun, Hapart.
  destruct (run_overlap key actions (liveStart script)) as (_ & Hmap & _).
  { cbv zeta. simpl. split_and!; [done|done|]. unfold inflight. simpl. lia. }
  destruct (run_apart key actions (liveStart script) Hapart) as (Hstrict & _ & Hfly).
  { cbv zeta. unfold inflight, statusAfter. simpl.
    split_and!; [done|lia|]. split; [done|lia]. }
  rewrite Hrun in Hmap, Hstrict, Hfly. cbn [page waiting] in *.
  assert (Heq : statusOf (statusMap (runOps engine_message fetch Date_now ops
                                       (sessionStart script))) key
                = statusAfter idle
                    (writes key (trace (runOps engine_message fetch Date_now ops
                                          (sessionStart script))))).
  { unfold statusOf, statusAfter. rewrite Hmap. by destruct (last _). }
  split_and!; [done|done|]. rewrite Heq, Hfly. unfold inflight. simpl. lia.
Qed.

(** C6, as the code has it.  From a fresh page and through every sequence
    of clicks on Call and on Dial entire queue, with the handlers
    overlapping in any way, the entries written under the key of a record
    follow these transitions, starting from idle: the status becomes
    calling when a call of the record starts, whatever it was before; it
    becomes success or error when a call settles, whatever it was before
    but never from idle; and it becomes error with the message Missing
    phone numbers when the record is refused for a missing number.  No
    status goes back to idle, and the dictionary holds the last entry
    written.  In a run in which no record is handed to the call trigger
    while a request for the record of its key is in flight, the
    transitions are the specified ones and the refusal: a status other
    than calling goes to calling; calling goes to success or to error;
    and a record without numbers goes from idle, success or error
    straight to error; the status is calling exactly while a request is
    in flight. *)
Theorem status_transitions (script : string) (actions : list Action) (key : string) :
  let final := run actions (liveStart script) in
  let entries := writes key (trace (page final)) in
  followsOverlap idle entries
  /\ statusMap (page final) !! key = last entries
  /\ (apart actions (liveStart script) = true ->
      followsEntries idle entries
      /\ (statusAfter idle entries = calling
          <-> inflight key (waiting final) = 1)).
Proof.
  cbv zeta.
  destruct (run_overlap key actions (liveStart script)) as (Hpath & Hmap & _).
  { cbv zeta. simpl. split_and!; [done|done|]. unfold inflight. simpl. lia. }
  split; [exact Hpath|]. split; [exact Hmap|]. intros Hapart.
  destruct (run_apart key actions (liveStart script) Hapart) as (Hstrict & _ & Hfly).
  { cbv zeta. unfold inflight, statusAfter. simpl.
    split_and!; [done|lia|]. split; [done|lia]. }
  by split.
Qed.

(** *** The flag of the queue dialer

    The flag is set exactly while a handler of the queue dialer waits,
    and no two of them wait at a time. *)

Lemma queueAdvance_flag snapshot records st :
  ((queueAdvance snapshot records st).2 = None
   /\ isAutoDialing (queueAdvance snapshot records st).1 = false)
  \/ (exists task,
        (queueAdvance snapshot records st).2 = Some task
        /\ queueing task = true
        /\ isAutoDialing (queueAdvance snapshot records st).1 = isAutoDialing st).
Proof.
  induction records as [|record rest IH]; [by left|].
  cbn [queueAdvance]. destruct (isSuccess snapshot _); [done|].
  right. destruct (numbersPresent record) eqn:Hnum.
  - destruct (triggerStart_present record st Hnum)
      as (dialing & outcome & st' & -> & _ & _ & _ & Hflag).
    eexists. by split_and!.
  - destruct (triggerStart_absent record st Hnum)
      as (entry & st' & -> & _ & _ & _ & _ & Hflag).
    eexists. by split_and!.
Qed.

Lemma count_app {A} (p : A -> bool) (l1 l2 : list A) :
  length (List.filter p (l1 ++ l2))
  = length (List.filter p l1) + length (List.filter p l2).
Proof. by rewrite List.filter_app, length_app. Qed.

Lemma count_delete {A} (p : A -> bool) (l : list A) n x :
  l !! n = Some x ->
  length (List.filter p l)
  = length (List.filter p (delete n l)) + (if p x then 1 else 0).
Proof.
  intros Hn. rewrite <- (take_drop_middle l n x Hn) at 1.
  rewrite delete_take_drop, !count_app. simpl.
  destruct (p x); simpl; lia.
Qed.

Lemma act_flag live a :
  length (List.filter queueing (waiting live))
  = (if isAutoDialing (page live) then 1 else 0) ->
  length (List.filter queueing (waiting (act live a)))
  = (if isAutoDialing (page (act live a)) then 1 else 0).
Proof.
  intros Hinv. destruct a as [record|records|n]; cbn [act].
  - destruct (numbersPresent record) eqn:Hnum.
    + destruct (triggerStart_present record (page live) Hnum)
        as (dialing & outcome & st' & -> & _ & _ & _ & Hflag).
      cbn [page waiting]. rewrite count_app, Hflag. simpl. lia.
    + destruct (triggerStart_absent record (page live) Hnum)
        as (entry & st' & -> & _ & _ & _ & _ & Hflag).
      cbn [page waiting]. by rewrite Hflag.
  - destruct (isAutoDialing (page live)) eqn:Hauto; [by rewrite Hauto|].
    destruct (queueAdvance_flag (statusMap (page live)) records
                (setIsAutoDialing true (page live)))
      as [[Hnext Hflag]|(task & Hnext & Htask & Hflag)];
      destruct (queueAdvance _ records _) as [st' next];
      cbn [fst snd page waiting] in *; subst next;
      rewrite count_app, Hflag, Hinv; simpl; [lia|]. rewrite Htask. simpl. lia.
  - destruct (waiting live !! n) as [task|] eqn:Hn; [|done].
    pose proof (count_delete queueing _ _ _ Hn) as Hcount.
    destruct task as [record outcome|snapshot record outcome rest|snapshot rest];
      cbn [queueing] in Hcount; cbn [page waiting].
    + destruct (triggerSettle_spec record outcome (page live))
        as (settled & _ & _ & _ & Hflag).
      rewrite Hflag. lia.
    + destruct (triggerSettle_spec record outcome (page live))
        as (settled & _ & _ & _ & Hflag).
      unfold delay, emit. cbn [isAutoDialing]. rewrite Hflag, count_app. simpl. lia.
    + destruct (queueAdvance_flag snapshot rest (page live))
        as [[Hnext Hflag]|(task & Hnext & Htask & Hflag)];
        destruct (queueAdvance snapshot rest (page live)) as [st' next];
        cbn [fst snd page waiting] in *; subst next;
        rewrite count_app, Hflag; simpl.
      * destruct (isAutoDialing (page live)); lia.
      * rewrite Htask. simpl. destruct (isAutoDialing (page live)); lia.
Qed.

Lemma run_flag actions live :
  length (List.filter queueing (waiting live))
  = (if isAutoDialing (page live) then 1 else 0) ->
  length (List.filter queueing (waiting (run actions live)))
  = (if isAutoDialing (page (run actions live)) then 1 else 0).
Proof.
  revert live. induction actions as [|a actions IH]; intros live Hinv; [done|].
  apply IH. by apply act_flag.
Qed.

(** While a queue run is in progress, the flag is set. *)
Lemma queue_flag script actions :
  queueRunning (run actions (liveStart script)) = true ->
  isAutoDialing (page (run actions (liveStart script))) = true.
Proof.
  intros Hrunning. pose proof (run_flag actions (liveStart script) eq_refl) as Hinv.
  destruct (isAutoDialing _); [done|].
  unfold queueRunning in Hrunning. apply existsb_exists in Hrunning as (task & Hin & Htask).
  assert (Hcount : forall tasks : list Task,
             List.In task tasks -> 0 < length (List.filter queueing tasks)).
  { induction tasks as [|t tasks IHt]; [done|]. intros [->|Hin'].
    - simpl. rewrite Htask. simpl. lia.
    - simpl. specialize (IHt Hin'). destruct (queueing t); simpl; lia. }
  specialize (Hcount _ Hin). lia.
Qed.

End OverlapProperties.

(** ** C3: one run of the queue dialer *)

Section QueueClaim.

Variable engine_message : TypeErrorKind -> string.
Variable fetch : list Event -> Payload -> FetchOutcome.
Variable Date_now : list Event -> Z.

Abbreviation triggerCall := (triggerCall engine_message fetch Date_now).
Abbreviation handleDialAll := (handleDialAll engine_message fetch Date_now).
Abbreviation dialStep := (dialStep engine_message fetch Date_now).
Abbreviation act := (act engine_message fetch Date_now).
Abbreviation run := (run engine_message fetch Date_now).

(** C3, as the code has it.  While a queue run is in progress (the flag
    is set) starting the queue dialer does nothing.  Otherwise one run
    sets the flag, goes through the records once and in order, and clears
    the flag: a record whose status is success when the run starts gets
    no event at all and keeps its dictionary entry; every other record is
    handed to the call trigger and gets its events, up to its final
    status, and then the pause of 1500 ms.  The call trigger sends a
    request only for a record with both numbers: the requests sent are
    those of the records that are not successful and have both numbers,
    in the original order.  So a queue of three records, one of them
    successful, has two records handed to the call trigger, and sends the
    requests of those of the two that have their numbers: two requests
    exactly when both have them.  When every record has its own key, the
    status the run consults for a record is the status the record has
    when the loop reaches it.  The run of the handler to completion is
    the run of the page in which the handler goes on, at each of its
    waits, before anything else happens; and on a page reached by clicks
    and handlers in any order, a click on Dial entire queue changes
    nothing as long as a handler of the queue dialer waits. *)
Theorem handleDialAll_queue (records : list JsObject) (st : AppState) :
  (isAutoDialing st = true -> handleDialAll records st = st)
  /\ (forall script actions,
        let live := run actions (liveStart script) in
        queueRunning live = true -> act live (ClickDialAll records) = live)
  /\ (exists actions,
        run actions {| page := st; waiting := [] |}
        = {| page := handleDialAll records st; waiting := [] |})
  /\ (isAutoDialing st = false ->
      let st' := handleDialAll records st in
      (exists events,
          trace st' = trace st ++ EvAutoDialing true :: events ++ [EvAutoDialing false]
          /\ queueEvents (statusMap st) (scriptOverride st) records events
          /\ fetches (trace st')
             = fetches (trace st)
               ++ (payloadOf (scriptOverride st)
                     <$> List.filter (requested (statusMap st)) records))
      /\ isAutoDialing st' = false
      /\ (forall record, record ∈ records ->
            statusOf (statusMap st) (recordKey record) = success ->
            statusMap st' !! recordKey record = statusMap st !! recordKey record)
      /\ (length records = 3 ->
          length (List.filter (successful (statusMap st)) records) = 1 ->
          let others :=
            List.filter (fun record => negb (successful (statusMap st) record))
              records in
          length others = 2
          /\ fetches (trace st')
             = fetches (trace st)
               ++ (payloadOf (scriptOverride st) <$> List.filter numbersPresent others)
          /\ length (fetches (trace st')) <= length (fetches (trace st)) + 2
          /\ (Forall (fun record => numbersPresent record = true) others
              <-> length (fetches (trace st')) = length (fetches (trace st)) + 2))
      /\ (NoDup (recordKey <$> records) ->
          st' = setIsAutoDialing false
                  (queueRun_spec engine_message fetch Date_now records
                     (setIsAutoDialing true st)))).
Proof.
  split.
  { intros Hauto. unfold handleDialAll. by rewrite Hauto. }
  split.
  { intros script actions live Hrunning.
    pose proof (queue_flag engine_message fetch Date_now script actions Hrunning)
      as Hflag.
    fold live in Hflag. unfold act. by rewrite Hflag. }
  split.
  { destruct (handleDialAll_run engine_message fetch Date_now records st)
      as (actions & Hrun & _).
    by exists actions. }
  intros Hauto st'. subst st'. unfold handleDialAll. rewrite Hauto.
  cbv zeta.
  assert (Hlive : NoDup (recordKey <$> records) ->
    setIsAutoDialing false
      (fold_left (dialStep (statusMap st)) records (setIsAutoDialing true st))
    = setIsAutoDialing false
        (queueRun_spec engine_message fetch Date_now records
           (setIsAutoDialing true st))).
  { intros Hnd. by rewrite (dialLoop_live engine_message fetch Date_now (statusMap st) records _ Hnd). }
  destruct (dialLoop_events engine_message fetch Date_now (statusMap st) records
              (setIsAutoDialing true st))
    as (events & Htr & Hq & Hso & _ & Hkeep).
  cbn [setIsAutoDialing trace scriptOverride isAutoDialing statusMap] in *.
  assert (Hfetch :
    fetches (trace st ++ EvAutoDialing true :: events ++ [EvAutoDialing false])
    = fetches (trace st)
      ++ (payloadOf (scriptOverride st)
            <$> List.filter (requested (statusMap st)) records)).
  { rewrite fetches_app. f_equal.
    change (EvAutoDialing true :: events ++ [EvAutoDialing false])
      with ([EvAutoDialing true] ++ events ++ [EvAutoDialing false]).
    rewrite !fetches_app, (queueEvents_fetches _ _ _ _ Hq). simpl.
    by rewrite app_nil_r. }
  rewrite Htr, <- !app_assoc.
  change ([EvAutoDialing true] ++ events ++ [EvAutoDialing false])
    with (EvAutoDialing true :: events ++ [EvAutoDialing false]).
  split_and!.
  - exists events. by split_and!.
  - done.
  - intros record _ Hs. by apply Hkeep.
  - intros Hlen Hone.
    pose proof (filter_split (successful (statusMap st)) records) as Hsplit.
    rewrite Hfetch, filter_requested.
    set (others :=
           List.filter (fun record => negb (successful (statusMap st) record))
             records) in *.
    assert (Hothers : length others = 2) by lia.
    pose proof (List.filter_length_le numbersPresent others) as Hle.
    rewrite length_app, length_fmap.
    split_and!; [done|done|lia|].
    rewrite (filter_full numbersPresent others). lia.
  - exact Hlive.
Qed.

End QueueClaim.


Lemma status_transitions_witness :
  followsEntries idle
    (writes "row-0"
       (trace (page (run sampleEngine onceOnline clock
                       [ClickCall (queueRecord 0 "+15552220000"); Resume 0;
                        ClickDialAll sampleQueue; Resume 0; Resume 0]
                       (liveStart ""))))).
Proof.
  destruct (status_transitions sampleEngine onceOnline clock ""
              [ClickCall (queueRecord 0 "+15552220000"); Resume 0;
               ClickDialAll sampleQueue; Resume 0; Resume 0]
              "row-0") as (_ & _ & Hapart).
  apply Hapart. vm_compute. reflexivity.
Defined.

(** The specified transitions do not hold, in two ways.  The queue dialer
    hands every record to the call trigger, and a record whose from is
    blank goes from idle straight to error.  And the Dial entire queue
    button is enabled while the call of a row waits for its response: the
    queue dialer then calls the same record again, calling is written
    onto calling, and when the first call has settled with success the
    second one, which fails, writes error onto success. *)
Lemma status_transitions_counterexample :
  (let records := dialRecords (Some blankFromWorkbook) (Some "caller") (Some "to") in
   let final :=
     run sampleEngine offline clock [ClickDialAll records; Resume 0] (liveStart "") in
   recordKey <$> records = ["row-0"]
   /\ cr_status <$> writes "row-0" (trace (page final)) = [error]
   /\ waiting final = []
   /\ ~ follows transition_spec idle [error])
  /\ (let home := fun st =>
        {| app := st;
           fileState := FileReady "leads.xlsx" formattedWorkbook;
           fromColumn := Some "caller"; toColumn := Some "callee";
           errorText := None |} in
      let records := currentDialRecords (home (sessionStart "")) in
      let record :=
        makeRecord "caller" "callee" 0
          [("caller", JStr "(555) 000-1111"); ("callee", JStr "+1 555 222 3333");
           ("name", JStr "Jane")] in
      let clicked :=
        run sampleEngine onceOnline clock [ClickCall record] (liveStart "") in
      let final :=
        run sampleEngine onceOnline clock
          [ClickCall record; ClickDialAll records; Resume 0; Resume 0]
          (liveStart "") in
      records !! 0 = Some record
      /\ callDisabled (sessionStart "") record = false
      /\ statusOf (statusMap (page clicked)) "row-0" = calling
      /\ currentDialRecords (home (page clicked)) = records
      /\ dialAllDisabled (home (page clicked)) = false
      /\ apart sampleEngine onceOnline clock
           [ClickCall record; ClickDialAll records; Resume 0; Resume 0]
           (liveStart "") = false
      /\ cr_status <$> writes "row-0" (trace (page final))
         = [calling; calling; success; error]
      /\ ~ transition_spec calling calling
      /\ ~ transition_spec success error
      /\ ~ follows transition_spec idle [calling; calling; success; error]).
Proof.
  split.
  - cbv zeta. split_and!; [by vm_compute|by vm_compute|by vm_compute|].
    simpl. intros [Hstep _]. inversion Hstep.
  - cbv zeta.
    split_and!;
      [by vm_compute|by vm_compute|by vm_compute|by vm_compute|by vm_compute
      |by vm_compute|by vm_compute| | |].
    + intros Hstep. inversion Hstep.
    + intros Hstep. inversion Hstep.
    + simpl. intros (_ & Hstep & _). inversion Hstep.
Qed.

(** ** Escaping *)

Lemma append_assoc (s t u : string) : (s +:+ t) +:+ u = s +:+ t +:+ u.
Proof.
  induction s as [|c s IH]; [done|].
  change (String c ((s +:+ t) +:+ u) = String c (s +:+ t +:+ u)).
  by rewrite IH.
Qed.

Lemma replaceAll_app cls rep s t :
  Js.replaceAll cls rep (s +:+ t)
  = Js.replaceAll cls rep s +:+ Js.replaceAll cls rep t.
Proof.
  induction s as [|c s IH]; simpl; [done|].
  by rewrite IH, append_assoc.
Qed.

(** The five passes of the source, on the text one character gives. *)
Lemma escapeForTwiml_char c : escapeForTwiml (String c "") = escapeChar c.
Proof. destruct c as [[] [] [] [] [] [] [] []]; by vm_compute. Qed.

Lemma escapeForTwiml_app s t :
  escapeForTwiml (s +:+ t) = escapeForTwiml s +:+ escapeForTwiml t.
Proof. unfold escapeForTwiml. by rewrite !replaceAll_app. Qed.

(** The five passes escape every character once: a later pass does not
    touch what an earlier one wrote. *)
Lemma escapeForTwiml_spec s : escapeForTwiml s = escape_spec s.
Proof.
  induction s as [|c s IH]; [done|].
  change (String c s) with (String c "" +:+ s).
  rewrite escapeForTwiml_app, escapeForTwiml_char, IH. done.
Qed.

Lemma say_speak text : say text = speak text.
Proof. unfold say, speak. by rewrite escapeForTwiml_spec. Qed.

(** ** C9: the voice instruction *)

Lemma configured_truthy v : str_truthy v = true -> configured v = v.
Proof. destruct v as [s|]; simpl; [|done]. by intros ->. Qed.

Lemma configured_falsy v : str_truthy v = false -> configured v = None.
Proof. destruct v as [s|]; simpl; [|done]. by intros ->. Qed.

Lemma buildTwiml_absent engine_message env script :
  scriptAbsent script = true ->
  buildTwiml engine_message env script
  = Ok (speak <$> configured (TWILIO_FALLBACK_MESSAGE env)).
Proof.
  intros Habs.
  assert (Htrim : exists trimmed,
             opt_trim engine_message script = Ok trimmed /\ str_truthy trimmed = false).
  { destruct script as [| | | |[|]| |]; try done; eexists; by split. }
  destruct Htrim as (trimmed & Htrim & Hempty).
  unfold buildTwiml. rewrite Htrim. simpl. rewrite Hempty. simpl.
  destruct (TWILIO_FALLBACK_MESSAGE env) as [[|c s]|]; simpl; try done.
  by rewrite say_speak.
Qed.

Lemma buildTwiml_present engine_message env script text :
  scriptPresent script = Some text ->
  buildTwiml engine_message env script = Ok (Some (speak text)).
Proof.
  destruct script; try done. simpl.
  destruct (Js.nonempty (Js.trim s)) eqn:Hne; [|done].
  intros [= <-]. unfold buildTwiml. simpl. rewrite Hne. simpl.
  by rewrite say_speak.
Qed.

Lemma scriptPresent_truthy script text :
  scriptPresent script = Some text -> truthy script = true.
Proof.
  destruct script; try done. simpl.
  destruct s; [done|]. done.
Qed.

Lemma scriptAbsent_falsy script : scriptAbsent script = true -> truthy script = false.
Proof. by destruct script as [| | | |[|]| |]. Qed.

(** C9, as the code has it.  For a request whose script is present (text
    that is not blank) the call carries the document that speaks the
    trimmed script, with the five metacharacters escaped one by one, and
    no voice URL.  For a request whose script is absent (missing or empty)
    the call carries the voice URL when one is configured and, whether or
    not a URL is configured, the document that speaks the fallback message
    when one is configured; with neither configured it carries no voice
    instruction.  The script [<Tom & Jerry>] is rendered as
    [&lt;Tom &amp; Jerry&gt;]. *)
Theorem createArgs_voice (engine_message : TypeErrorKind -> string)
    (env : Env) (payload : JsObject) (from to : string) :
  let script := obj_get payload "script" in
  let built := createArgs engine_message env (JObj payload) from to in
  (forall text, scriptPresent script = Some text ->
     voiceArgs built = Some (None, Some (speak text)))
  /\ (scriptAbsent script = true ->
      voiceArgs built
      = Some (configured (TWILIO_VOICE_URL env),
              speak <$> configured (TWILIO_FALLBACK_MESSAGE env)))
  /\ (scriptAbsent script = true ->
      configured (TWILIO_VOICE_URL env) = None ->
      configured (TWILIO_FALLBACK_MESSAGE env) = None ->
      voiceArgs built = Some (None, None))
  /\ (forall text, escapeForTwiml text = escape_spec text)
  /\ speak "<Tom & Jerry>" = "<Response><Say>&lt;Tom &amp; Jerry&gt;</Say></Response>".
Proof.
  intros script built.
  assert (Habsent : scriptAbsent script = true ->
      voiceArgs built
      = Some (configured (TWILIO_VOICE_URL env),
              speak <$> configured (TWILIO_FALLBACK_MESSAGE env))).
  { intros Habs. subst built. unfold createArgs. simpl. fold script.
    rewrite (buildTwiml_absent _ _ _ Habs), (scriptAbsent_falsy _ Habs). simpl.
    rewrite andb_true_r.
    destruct (str_truthy (TWILIO_VOICE_URL env)) eqn:Hurl.
    - by rewrite (configured_truthy _ Hurl).
    - by rewrite (configured_falsy _ Hurl). }
  split_and!.
  - intros text Hpres. subst built. unfold createArgs. simpl. fold script.
    rewrite (buildTwiml_present _ _ _ _ Hpres), (scriptPresent_truthy _ _ Hpres).
    simpl. by rewrite andb_false_r.
  - exact Habsent.
  - intros Habs Hurl Hfallback. by rewrite (Habsent Habs), Hurl, Hfallback.
  - apply escapeForTwiml_spec.
  - reflexivity.
Qed.

(** A script of white space only is neither: the voice URL is dropped
    because the member is not empty, and the document speaks the fallback
    message because the trimmed text is. *)
Lemma createArgs_blank_script engine_message env payload from to s :
  obj_get payload "script" = JStr s ->
  Js.nonempty s = true -> Js.nonempty (Js.trim s) = false ->
  voiceArgs (createArgs engine_message env (JObj payload) from to)
  = Some (None, speak <$> configured (TWILIO_FALLBACK_MESSAGE env)).
Proof.
  intros Hscript Hs Htrim. unfold createArgs. simpl. rewrite Hscript. simpl.
  rewrite Hs. simpl. rewrite andb_false_r.
  unfold buildTwiml. simpl. rewrite Htrim. simpl.
  destruct (TWILIO_FALLBACK_MESSAGE env) as [[|c m]|]; simpl; try done.
  by rewrite say_speak.
Qed.

Lemma createArgs_voice_witness :
  voiceArgs (createArgs sampleEngine fullEnv sampleRequest "+15550001111" "+15552223333")
  = Some (Some "https://example.com/voice",
          Some "<Response><Say>Hello from the dialer</Say></Response>").
Proof.
  apply (proj1 (proj2 (createArgs_voice sampleEngine fullEnv
                         [("from", JStr "+15550001111"); ("to", JStr "+15552223333")]
                         "+15550001111" "+15552223333"))).
  reflexivity.
Defined.

(** The specified instruction is a single one; the code sends the voice
    URL and the fallback document together when both are configured. *)
Lemma voice_instruction_counterexample :
  voiceArgs (createArgs sampleEngine fullEnv sampleRequest "+15550001111" "+15552223333")
  = Some (Some "https://example.com/voice",
          Some "<Response><Say>Hello from the dialer</Say></Response>")
  /\ instructionArgs (voiceInstruction_spec fullEnv JUndefined)
     = (Some "https://example.com/voice", None)
  /\ voiceArgs (createArgs sampleEngine fullEnv sampleRequest "+15550001111" "+15552223333")
     <> Some (instructionArgs (voiceInstruction_spec fullEnv JUndefined)).
Proof. split_and!; by vm_compute. Qed.

(** ** C8: the responses of the endpoint *)

Section RouteProperties.

Variable engine_message : TypeErrorKind -> string.
Variable twilio : string -> string -> Exc (CallArgs -> Exc string).

Abbreviation POST := (POST engine_message twilio).

Lemma credentials_absent env :
  credentialsAbsent env
  <-> negb (str_truthy (TWILIO_ACCOUNT_SID env))
      || negb (str_truthy (TWILIO_AUTH_TOKEN env)) = true.
Proof.
  unfold credentialsAbsent.
  destruct (str_truthy (TWILIO_ACCOUNT_SID env)),
    (str_truthy (TWILIO_AUTH_TOKEN env)); simpl; intuition congruence.
Qed.

Lemma credentials_present env :
  ~ credentialsAbsent env ->
  negb (str_truthy (TWILIO_ACCOUNT_SID env))
  || negb (str_truthy (TWILIO_AUTH_TOKEN env)) = false.
Proof.
  rewrite credentials_absent. by destruct (_ || _).
Qed.

Lemma opt_trim_text v :
  textOrMissing v = true ->
  exists trimmed,
    opt_trim engine_message v = Ok trimmed
    /\ default "" trimmed = trimmedMember v
    /\ str_truthy trimmed = Js.nonempty (trimmedMember v).
Proof. destruct v; try done; intros _; eexists; by split_and!. Qed.

(** Every response the handler returns is one of the three shapes. *)
Lemma POST_shape env body status content :
  POST env body = Respond status content ->
  (status = 200%Z /\ exists sid, content = JObj [("sid", JStr sid)])
  \/ ((status = 400%Z \/ status = 500%Z) /\ exists message, content = errorBody message).
Proof.
  unfold POST.
  destruct (_ || _); [intros [= <- <-]; right; split; [by right|by eexists]|].
  destruct body as [payload|];
    [|intros [= <- <-]; right; split; [by left|by eexists]].
  destruct (_ ≫= _) as [[from to]|]; [|done].
  destruct (_ || _); [intros [= <- <-]; right; split; [by left|by eexists]|].
  destruct (twilio _ _) as [calls_create|]; [|done].
  destruct (_ ≫= _) as [sid|e]; intros [= <- <-].
  - left. split; [done|by eexists].
  - right. split; [by right|by eexists].
Qed.

Lemma get_prop_member payload k :
  is_nullish payload = false ->
  get_prop engine_message payload k = Ok (member payload k).
Proof. by destruct payload. Qed.

Lemma opt_trim_other v :
  textOrMissing v = false ->
  opt_trim engine_message v = Throw (ErrorObj (engine_message NotAFunction)).
Proof. by destruct v. Qed.


End RouteProperties.



(** ** The claims on sample runs *)

Lemma triggerCall_missing_numbers_witness :
  fetches (trace (triggerCall sampleEngine online clock blankFromRecord (sessionStart "")))
  = fetches (trace (sessionStart "")).
Proof.
  apply (triggerCall_missing_numbers sampleEngine online clock
           blankFromRecord (sessionStart "")).
  left. reflexivity.
Defined.

Lemma triggerCall_outcome_witness :
  exists dialing settled,
    trace (triggerCall sampleEngine online clock (queueRecord 0 "+15552220000")
             (sessionStart "Goodbye"))
    = [ EvStatus "row-0" dialing;
        EvFetch {| p_from := JStr "+15550001111"; p_to := JStr "+15552220000";
                   p_script := "Goodbye" |};
        EvStatus "row-0" settled ]
    /\ cr_status dialing = calling
    /\ cr_status settled = success
    /\ cr_sid settled = JStr "CA123".
Proof.
  destruct (triggerCall_outcome sampleEngine online clock
              (queueRecord 0 "+15552220000") (sessionStart "Goodbye")
              eq_refl eq_refl)
    as (dialing & settled & Htrace & Hdialing & _ & _ & Hok & _).
  exists dialing, settled.
  split; [exact Htrace|]. split; [exact Hdialing|].
  apply (Hok [("sid", JStr "CA123")]). reflexivity.
Defined.

Lemma handleDialAll_queue_witness :
  length (fetches (trace (handleDialAll sampleEngine online clock sampleQueue secondDone)))
  = length (fetches (trace secondDone)) + 2.
Proof.
  destruct (handleDialAll_queue sampleEngine online clock sampleQueue secondDone)
    as (_ & _ & _ & Hrun).
  destruct (Hrun eq_refl) as (_ & _ & _ & Hthree & _).
  destruct (Hthree eq_refl eq_refl) as (_ & _ & _ & Hboth).
  apply Hboth. repeat constructor.
Defined.

(** A queue of three records with one of them successful does not always
    send two requests: the dial list of a sheet with a column named from
    that holds 0 in its first row has three records, the first of which
    has lost its caller number to that column; with the second record
    successful, the run hands the first and the third record to the call
    trigger and sends one request, the one of the third record. *)
Lemma handleDialAll_queue_counterexample :
  let records := dialRecords (Some zeroFromWorkbook) (Some "caller") (Some "to") in
  let final := handleDialAll sampleEngine online clock records secondDone in
  recordKey <$> records = ["row-0"; "row-1"; "row-2"]
  /\ (fun record => statusOf (statusMap secondDone) (recordKey record)) <$> records
     = [idle; success; idle]
  /\ numbersPresent <$> records = [false; true; true]
  /\ isAutoDialing secondDone = false
  /\ fetches (trace secondDone) = []
  /\ p_to <$> fetches (trace final) = [JStr "5552220002"]
  /\ length (fetches (trace final)) <> 2.
Proof. cbv zeta. split_and!; by vm_compute. Qed.

(** The run of the sample queue: the second record is passed over, the
    other two are called in order, each call followed by the pause. *)
Example handleDialAll_sample :
  let final := handleDialAll sampleEngine online clock sampleQueue secondDone in
  (fun e =>
     match e with
     | EvStatus key entry => (key, Some (cr_status entry), None)
     | EvFetch payload => (String_ (p_to payload), None, None)
     | EvDelay ms => ("delay", None, Some ms)
     | EvAutoDialing flag => (if flag then "queue on" else "queue off", None, None)
     end) <$> trace final
  = [ ("queue on", None, None);
      ("row-0", Some calling, None);
      ("+15552220000", None, None);
      ("row-0", Some success, None);
      ("delay", None, Some 1500%Z);
      ("row-2", Some calling, None);
      ("+15552220002", None, None);
      ("row-2", Some success, None);
      ("delay", None, Some 1500%Z);
      ("queue off", None, None) ]
  /\ statusMap final !! "row-1" = statusMap secondDone !! "row-1".
Proof. split; vm_compute; reflexivity. Qed.

(** The specified message is not the one shown when the network fails:
    there is no server text, and the page shows the message of the
    exception, not the generic fallback. *)
Lemma triggerCall_message_counterexample :
  let record := queueRecord 0 "+15552220000" in
  let final := triggerCall sampleEngine offline clock record (sessionStart "") in
  cr_status <$> statusMap final !! "row-0" = Some error
  /\ statusMap final !! "row-0" ≫= cr_message = Some "Failed to fetch"
  /\ errorMessage_spec (offline [] (payloadOf "" record)) = "Call failed"
  /\ statusMap final !! "row-0" ≫= cr_message
     <> Some (errorMessage_spec (offline [] (payloadOf "" record))).
Proof. split_and!; by vm_compute. Qed.

(** * Further properties of the endpoint *)

(** ** What [escapeForTwiml] writes *)

Lemma all_chars_app p s t :
  all_chars p (s +:+ t) = all_chars p s && all_chars p t.
Proof.
  induction s as [|c s IH]; [done|].
  change (String c s +:+ t) with (String c (s +:+ t)).
  cbn [all_chars]. by rewrite IH, andb_assoc.
Qed.

Lemma escapeChar_markup_free c :
  all_chars (fun x => negb (is_markup x)) (escapeChar c) = true.
Proof. destruct c as [[] [] [] [] [] [] [] []]; by vm_compute. Qed.

Lemma escape_spec_markup_free s :
  all_chars (fun x => negb (is_markup x)) (escape_spec s) = true.
Proof.
  induction s as [|c s IH]; [done|].
  cbn [escape_spec]. by rewrite all_chars_app, escapeChar_markup_free, IH.
Qed.

Lemma escapeChar_nonempty c : escapeChar c <> "".
Proof. destruct c as [[] [] [] [] [] [] [] []]; by vm_compute. Qed.

Lemma escape_spec_nonempty s : s <> "" -> escape_spec s <> "".
Proof.
  destruct s as [|c s]; [done|]. intros _. cbn [escape_spec].
  pose proof (escapeChar_nonempty c). by destruct (escapeChar c).
Qed.

(** X1. Whatever the script and the fallback message are, the document the
    endpoint builds is the [Say] element around the escape of a text that
    is not empty, and what stands inside the element holds none of the
    characters [<], [>], the double quote and the apostrophe: no script
    can close the element or open another one. *)
Theorem buildTwiml_markup_safe (engine_message : TypeErrorKind -> string)
    (env : Env) (script : JsValue) (doc : string) :
  buildTwiml engine_message env script = Ok (Some doc) ->
  exists text,
    doc = "<Response><Say>" +:+ escapeForTwiml text +:+ "</Say></Response>"
    /\ text <> ""
    /\ escapeForTwiml text <> ""
    /\ all_chars (fun c => negb (is_markup c)) (escapeForTwiml text) = true.
Proof.
  intros Hbuilt.
  assert (Htext : exists text, doc = say text /\ Js.nonempty text = true).
  { unfold buildTwiml in Hbuilt.
    destruct (opt_trim engine_message script) as [trimmed|e]; [|done].
    simpl in Hbuilt.
    destruct (str_truthy trimmed) eqn:Htrim; simpl in Hbuilt.
    - destruct trimmed as [t|]; [|done]. injection Hbuilt as <-. by exists t.
    - destruct (Js.nonempty (default "" (TWILIO_FALLBACK_MESSAGE env))) eqn:Hfb;
        simpl in Hbuilt; [|done].
      injection Hbuilt as <-. by eexists. }
  destruct Htext as (text & -> & Hne%nonempty_true).
  exists text. split; [done|]. split; [done|].
  rewrite escapeForTwiml_spec.
  split; [by apply escape_spec_nonempty|apply escape_spec_markup_free].
Qed.

Lemma buildTwiml_markup_safe_witness :
  exists text,
    "<Response><Say>&lt;Tom &amp; Jerry&gt;</Say></Response>"
    = "<Response><Say>" +:+ escapeForTwiml text +:+ "</Say></Response>"
    /\ text <> ""
    /\ escapeForTwiml text <> ""
    /\ all_chars (fun c => negb (is_markup c)) (escapeForTwiml text) = true.
Proof.
  apply (buildTwiml_markup_safe sampleEngine fullEnv (JStr " <Tom & Jerry> ")).
  reflexivity.
Defined.

(** The escape of one character, by cases. *)
Lemma escapeChar_cases c :
  (c = "&"%char /\ escapeChar c = "&amp;")
  \/ (c = "<"%char /\ escapeChar c = "&lt;")
  \/ (c = ">"%char /\ escapeChar c = "&gt;")
  \/ (c = quote /\ escapeChar c = "&quot;")
  \/ (c = "'"%char /\ escapeChar c = "&apos;")
  \/ (is_metachar c = false /\ escapeChar c = String c "").
Proof.
  unfold escapeChar, is_metachar, is_markup.
  destruct (Ascii.eqb_spec c "&"); [by left|right].
  destruct (Ascii.eqb_spec c "<"); [by left|right].
  destruct (Ascii.eqb_spec c ">"); [by left|right].
  destruct (Ascii.eqb_spec c quote); [by left|right].
  destruct (Ascii.eqb_spec c "'"); [by left|right].
  done.
Qed.

Lemma escapeChar_inj c1 c2 r1 r2 :
  escapeChar c1 +:+ r1 = escapeChar c2 +:+ r2 -> c1 = c2 /\ r1 = r2.
Proof.
  destruct (escapeChar_cases c1) as [[-> E1]|[[-> E1]|[[-> E1]|[[-> E1]|[[-> E1]|[P1 E1]]]]]];
  destruct (escapeChar_cases c2) as [[-> E2]|[[-> E2]|[[-> E2]|[[-> E2]|[[-> E2]|[P2 E2]]]]]];
  rewrite ?E1, ?E2; cbv [String.append]; intros H;
  try (injection H as ?; subst; try done; try (by vm_compute in P1); try (by vm_compute in P2)).
Qed.

(** X2. Two scripts are rendered alike only if they are the same script. *)
Theorem escapeForTwiml_inj (s t : string) :
  escapeForTwiml s = escapeForTwiml t -> s = t.
Proof.
  rewrite !escapeForTwiml_spec. revert t.
  induction s as [|c s IH]; intros [|d t] H; [done| | |].
  - cbn [escape_spec] in H. pose proof (escapeChar_nonempty d).
    destruct (escapeChar d); [done|]. done.
  - cbn [escape_spec] in H. pose proof (escapeChar_nonempty c).
    destruct (escapeChar c); [done|]. done.
  - cbn [escape_spec] in H. apply escapeChar_inj in H as [-> H].
    by rewrite (IH t H).
Qed.

Lemma escapeForTwiml_inj_witness : "Tom & Jerry" = "Tom & Jerry".
Proof. apply (escapeForTwiml_inj "Tom & Jerry" "Tom & Jerry"). reflexivity. Defined.

(** X3. A text without any of the five characters is spoken as it is, and the
    escape of a text is the escape of its parts put together. *)
Theorem escapeForTwiml_plain (s t : string) :
  (all_chars (fun c => negb (is_metachar c)) s = true -> escapeForTwiml s = s)
  /\ escapeForTwiml (s +:+ t) = escapeForTwiml s +:+ escapeForTwiml t.
Proof.
  split; [|apply escapeForTwiml_app].
  rewrite escapeForTwiml_spec.
  induction s as [|c s IH]; [done|].
  cbn [all_chars escape_spec]. intros [Hc Hs]%andb_prop.
  destruct (escapeChar_cases c) as [[-> _]|[[-> _]|[[-> _]|[[-> _]|[[-> _]|[_ ->]]]]]];
    try (by vm_compute in Hc).
  by rewrite (IH Hs).
Qed.

Lemma escapeForTwiml_plain_witness :
  escapeForTwiml "Hello from the dialer" = "Hello from the dialer".
Proof.
  apply (proj1 (escapeForTwiml_plain "Hello from the dialer" "")). reflexivity.
Defined.

(** ** More of the [POST] handler *)

Section RouteMore.

Variable engine_message : TypeErrorKind -> string.

Abbreviation POST := (POST engine_message).
Abbreviation createArgs := (createArgs engine_message).

(** The handler up to the provider, for a request that passes the checks. *)
Lemma POST_reaches_provider twilio env payload calls_create :
  ~ credentialsAbsent env -> validNumbers payload ->
  twilio (default "" (TWILIO_ACCOUNT_SID env))
         (default "" (TWILIO_AUTH_TOKEN env)) = Ok calls_create ->
  POST twilio env (Some (JObj payload))
  = providerAnswer
      (createArgs env (JObj payload)
         (trimmedMember (obj_get payload "from"))
         (trimmedMember (obj_get payload "to")) ≫= calls_create).
Proof.
  intros Hcred%credentials_present (Hfrom & Hto & Hfne & Htne) Htw.
  destruct (opt_trim_text engine_message _ Hfrom) as (from & Hf & Hfd & Hft).
  destruct (opt_trim_text engine_message _ Hto) as (to & Ht & Htd & Htt).
  apply nonempty_true in Hfne, Htne.
  unfold POST. rewrite Hcred. simpl. rewrite Hf. simpl. rewrite Ht. simpl.
  rewrite Hft, Htt, Hfne, Htne. simpl.
  rewrite Htw, Hfd, Htd.
  by destruct (createArgs _ _ _ _ ≫= calls_create).
Qed.

Lemma createArgs_text env payload from to :
  textOrMissing (obj_get payload "script") = true ->
  exists url twiml,
    createArgs env (JObj payload) from to
    = Ok {| ca_to := to; ca_from := from; ca_url := url; ca_twiml := twiml;
            ca_statusCallback := TWILIO_STATUS_CALLBACK_URL env;
            ca_statusCallbackEvent := ["initiated"; "ringing"; "answered"; "completed"];
            ca_statusCallbackMethod := "POST" |}.
Proof.
  intros Hscript. unfold createArgs. simpl.
  assert (Htw : exists twiml,
             buildTwiml engine_message env (obj_get payload "script") = Ok twiml).
  { unfold buildTwiml.
    destruct (opt_trim_text engine_message _ Hscript) as (trimmed & -> & _).
    simpl. destruct (str_truthy trimmed); simpl; [by eexists|].
    destruct (Js.nonempty _); simpl; by eexists. }
  destruct Htw as (twiml & ->). simpl. by eexists _, _.
Qed.

(** X4. For a request that passes the checks the provider is asked exactly
    once, with the trimmed numbers (to as to, from as from), the status
    callback URL of the environment, the four call events and the method
    POST; and the answer of the endpoint is the provider's: 200 with the
    identifier of the call, or 500 with the message of its error (or
    Unable to create call when what it threw is no Error). *)
Theorem POST_forwards twilio (env : Env) (payload : JsObject)
    (calls_create : CallArgs -> Exc string) :
  ~ credentialsAbsent env -> validNumbers payload ->
  textOrMissing (obj_get payload "script") = true ->
  twilio (default "" (TWILIO_ACCOUNT_SID env))
         (default "" (TWILIO_AUTH_TOKEN env)) = Ok calls_create ->
  exists args,
    POST twilio env (Some (JObj payload)) = providerAnswer (calls_create args)
    /\ ca_to args = Js.trim (String_ (obj_get payload "to"))
    /\ ca_from args = Js.trim (String_ (obj_get payload "from"))
    /\ ca_statusCallback args = TWILIO_STATUS_CALLBACK_URL env
    /\ ca_statusCallbackEvent args = ["initiated"; "ringing"; "answered"; "completed"]
    /\ ca_statusCallbackMethod args = "POST".
Proof.
  intros Hcred Hvalid Hscript Htw.
  rewrite (POST_reaches_provider twilio env payload calls_create Hcred Hvalid Htw).
  destruct (createArgs_text env payload
              (trimmedMember (obj_get payload "from"))
              (trimmedMember (obj_get payload "to")) Hscript)
    as (url & twiml & ->).
  eexists. split; [reflexivity|]. simpl.
  destruct Hvalid as (Hfrom & Hto & Hfne & Htne).
  split_and!; try done.
  - by destruct (obj_get payload "to").
  - by destruct (obj_get payload "from").
Qed.

(** X5. A script that is neither text nor missing stops the request before
    the provider is asked: the endpoint answers 500 with the engine's
    message, whatever the provider would have done. *)
Theorem POST_bad_script twilio (env : Env) (payload : JsObject)
    (calls_create : CallArgs -> Exc string) :
  ~ credentialsAbsent env -> validNumbers payload ->
  textOrMissing (obj_get payload "script") = false ->
  twilio (default "" (TWILIO_ACCOUNT_SID env))
         (default "" (TWILIO_AUTH_TOKEN env)) = Ok calls_create ->
  POST twilio env (Some (JObj payload))
  = Respond 500 (errorBody (engine_message NotAFunction)).
Proof.
  intros Hcred Hvalid Hscript Htw.
  rewrite (POST_reaches_provider twilio env payload calls_create Hcred Hvalid Htw).
  unfold createArgs. simpl. unfold buildTwiml.
  by destruct (obj_get payload "script").
Qed.

(** X6. Where the handler throws instead of answering: a body that is the
    JSON [null]; a [from] or a [to] that is neither text nor missing; and
    a provider client that cannot be built. *)
Theorem POST_throws twilio (env : Env) :
  ~ credentialsAbsent env ->
  POST twilio env (Some JNull)
  = Uncaught (ErrorObj (engine_message ReadPropertyOfNullish))
  /\ (forall payload,
        textOrMissing (obj_get payload "from") = false
        \/ (textOrMissing (obj_get payload "from") = true
            /\ textOrMissing (obj_get payload "to") = false) ->
        POST twilio env (Some (JObj payload))
        = Uncaught (ErrorObj (engine_message NotAFunction)))
  /\ (forall payload e,
        validNumbers payload ->
        twilio (default "" (TWILIO_ACCOUNT_SID env))
               (default "" (TWILIO_AUTH_TOKEN env)) = Throw e ->
        POST twilio env (Some (JObj payload)) = Uncaught e).
Proof.
  intros Hcred%credentials_present. split_and!.
  - unfold POST. by rewrite Hcred.
  - intros payload [Hfrom|[Hfrom Hto]]; unfold POST; rewrite Hcred; simpl.
    + by destruct (obj_get payload "from").
    + destruct (opt_trim_text engine_message _ Hfrom) as (from & -> & _). simpl.
      by destruct (obj_get payload "to").
  - intros payload e (Hfrom & Hto & Hfne & Htne) Htw.
    destruct (opt_trim_text engine_message _ Hfrom) as (from & Hf & Hfd & Hft).
    destruct (opt_trim_text engine_message _ Hto) as (to & Ht & Htd & Htt).
    apply nonempty_true in Hfne, Htne.
    unfold POST. rewrite Hcred. simpl. rewrite Hf. simpl. rewrite Ht. simpl.
    rewrite Hft, Htt, Hfne, Htne. simpl. by rewrite Htw.
Qed.

(** X7. A request the endpoint turns down (no credentials, or a 400) never
    reaches the provider: the answer is the same with any provider. *)
Theorem POST_rejects_before_provider twilio twilio' (env : Env)
    (body : option JsValue) (status : Z) (content : JsValue) :
  credentialsAbsent env \/ status = 400%Z ->
  POST twilio env body = Respond status content ->
  POST twilio' env body = Respond status content.
Proof.
  intros Hwhy. unfold POST.
  destruct (negb _ || negb _) eqn:Hcred; [done|].
  destruct Hwhy as [Habs%credentials_absent| ->]; [congruence|].
  destruct body as [payload|]; [|done].
  destruct (_ ≫= _) as [[from to]|]; [|done].
  destruct (negb (str_truthy from) || negb (str_truthy to)); [done|].
  destruct (twilio _ _) as [calls_create|]; [|done].
  by destruct (_ ≫= _).
Qed.

End RouteMore.

Lemma POST_forwards_witness :
  exists args,
    POST sampleEngine refusingTwilio fullEnv (Some (JObj samplePayload))
    = providerAnswer (Throw (ErrorObj "The number is not verified"))
    /\ ca_to args = "+15552223333"
    /\ ca_from args = "+15550001111".
Proof.
  destruct (POST_forwards sampleEngine refusingTwilio fullEnv samplePayload
              (fun _ => Throw (ErrorObj "The number is not verified")))
    as (args & Hpost & Hto & Hfrom & _).
  - intros [H|H]; discriminate H.
  - repeat split; discriminate.
  - reflexivity.
  - reflexivity.
  - exists args. split; [exact Hpost|]. split; [exact Hto|exact Hfrom].
Defined.

Lemma POST_bad_script_witness :
  POST sampleEngine sampleTwilio fullEnv
    (Some (JObj (samplePayload ++ [("script", JNum 7)])))
  = Respond 500 (errorBody "trim is not a function").
Proof.
  apply (POST_bad_script sampleEngine sampleTwilio fullEnv
           (samplePayload ++ [("script", JNum 7)]) (fun _ => Ok "CA123")).
  - intros [H|H]; discriminate H.
  - repeat split; discriminate.
  - reflexivity.
  - reflexivity.
Defined.

Lemma POST_throws_witness :
  POST sampleEngine brokenTwilio fullEnv (Some (JObj samplePayload))
  = Uncaught (ErrorObj "accountSid must start with AC").
Proof.
  apply (POST_throws sampleEngine brokenTwilio fullEnv).
  - intros [H|H]; discriminate H.
  - repeat split; discriminate.
  - reflexivity.
Defined.

Lemma POST_rejects_before_provider_witness :
  POST sampleEngine brokenTwilio fullEnv (Some (JObj [("from", JStr " ")]))
  = Respond 400 (errorBody "Both `from` and `to` numbers are required").
Proof.
  apply (POST_rejects_before_provider sampleEngine sampleTwilio brokenTwilio).
  - right. reflexivity.
  - reflexivity.
Defined.

(** * Further properties of the page *)

(** ** The shape of normalized numbers *)

Lemma all_chars_keep p s : all_chars p (keep p s) = true.
Proof.
  induction s as [|c s IH]; [done|].
  simpl. destruct (p c) eqn:Hc; [|done]. simpl. by rewrite Hc, IH.
Qed.

Lemma digitsOf_all_digits s : all_chars Js.is_digit (digitsOf s) = true.
Proof. apply all_chars_keep. Qed.

Lemma all_chars_impl (p q : ascii -> bool) s :
  (forall c, p c = true -> q c = true) ->
  all_chars p s = true -> all_chars q s = true.
Proof.
  intros Hpq. induction s as [|c s IH]; [done|].
  simpl. intros [Hc Hs]%andb_prop. by rewrite (Hpq c Hc), IH.
Qed.

Lemma trimEnd_no_space s :
  all_chars (fun c => negb (Js.is_space c)) s = true -> Js.trimEnd s = s.
Proof.
  induction s as [|c s IH]; [done|].
  simpl. intros [Hc Hs]%andb_prop. rewrite (IH Hs).
  apply negb_true_iff in Hc. rewrite Hc. by destruct s.
Qed.

Lemma trim_no_space s :
  all_chars (fun c => negb (Js.is_space c)) s = true -> Js.trim s = s.
Proof.
  intros Hs. unfold Js.trim.
  assert (Hstart : Js.trimStart s = s).
  { destruct s as [|c s]; [done|]. simpl in *.
    apply andb_prop in Hs as [Hc _]. apply negb_true_iff in Hc. by rewrite Hc. }
  rewrite Hstart. by apply trimEnd_no_space.
Qed.

Lemma plus_not_space : Js.is_space plus = false.
Proof. reflexivity. Qed.

Lemma phoneShape_no_space s :
  phoneShape s = true -> all_chars (fun c => negb (Js.is_space c)) s = true.
Proof.
  assert (Hd : forall r, all_chars Js.is_digit r = true ->
                         all_chars (fun c => negb (Js.is_space c)) r = true).
  { intros r. apply all_chars_impl. intros c Hc. by rewrite (digit_not_space c Hc). }
  destruct s as [|c s]; [done|]. unfold phoneShape.
  destruct (Ascii.eqb_spec c plus) as [->|_]; [|apply Hd].
  intros Hs. cbn [all_chars]. by rewrite plus_not_space, (Hd s Hs).
Qed.

Lemma phoneShape_digits d : all_chars Js.is_digit d = true -> phoneShape d = true.
Proof.
  destruct d as [|c d]; [done|]. intros Hd. unfold phoneShape.
  destruct (Ascii.eqb_spec c plus) as [->|_]; [|done].
  by vm_compute in Hd.
Qed.

Lemma normalizePhone_shape_aux (value : JsValue) :
  phoneShape (normalizePhone value) = true.
Proof.
  rewrite normalizePhone_unfold. unfold normalizePhone_spec. cbv zeta.
  pose proof (digitsOf_all_digits (String_ value)) as Hd.
  set (d := digitsOf (String_ value)) in *.
  destruct (is_nullish value || _); [done|].
  destruct (Js.startsWith "+" _); [exact Hd|].
  destruct ((String.length d =? 11)%nat && Js.startsWith "1" d); [exact Hd|].
  destruct (String.length d =? 10)%nat; [exact Hd|].
  by apply phoneShape_digits.
Qed.

(** X8. Whatever the cell holds, the normalized number is empty or made of
    digits after at most one leading [+]: it holds no white space, no
    letter and no punctuation, and trimming leaves it as it is. *)
Theorem normalizePhone_shape (value : JsValue) :
  phoneShape (normalizePhone value) = true
  /\ Js.trim (normalizePhone value) = normalizePhone value.
Proof.
  split; [apply normalizePhone_shape_aux|].
  apply trim_no_space, phoneShape_no_space, normalizePhone_shape_aux.
Qed.

Lemma startsWith_plus d : Js.startsWith "+" (String plus d) = true.
Proof.
  unfold Js.startsWith.
  change (String.prefix "+" (String plus d))
    with (if ascii_dec "+" plus then String.prefix "" d else false).
  destruct (ascii_dec "+" plus); [apply prefix_empty|done].
Qed.

Lemma normalizePhone_plus_digits d :
  all_chars Js.is_digit d = true ->
  normalizePhone (JStr ("+" +:+ d)) = "+" +:+ d.
Proof.
  intros Hd. rewrite normalizePhone_unfold. unfold normalizePhone_spec.
  cbn [String_ is_nullish orb].
  assert (Htrim : Js.trim ("+" +:+ d) = "+" +:+ d).
  { apply trim_no_space, phoneShape_no_space. exact Hd. }
  rewrite Htrim.
  change ("+" +:+ d) with (String plus d).
  cbn [Js.nonempty negb].
  rewrite (startsWith_plus d).
  unfold digitsOf. cbn [keep]. change (Js.is_digit plus) with false. cbv iota.
  fold (digitsOf d). by rewrite (digitsOf_digits d Hd).
Qed.

Lemma normalizePhone_bare_digits d :
  all_chars Js.is_digit d = true ->
  (String.length d =? 11)%nat && Js.startsWith "1" d = false ->
  (String.length d =? 10)%nat = false ->
  normalizePhone (JStr d) = d.
Proof.
  intros Hd H11 H10. rewrite normalizePhone_unfold. unfold normalizePhone_spec.
  cbn [String_ is_nullish orb].
  rewrite (trim_digits d Hd), (digitsOf_digits d Hd), (digits_no_plus d Hd), H11, H10.
  by destruct d.
Qed.

(** X9. Normalizing a normalized number changes nothing. *)
Theorem normalizePhone_idempotent (value : JsValue) :
  normalizePhone (JStr (normalizePhone value)) = normalizePhone value.
Proof.
  pose proof (digitsOf_all_digits (String_ value)) as Hd.
  rewrite (normalizePhone_unfold value). unfold normalizePhone_spec. cbv zeta.
  set (d := digitsOf (String_ value)) in *.
  destruct (is_nullish value || _); [done|].
  destruct (Js.startsWith "+" _); [by apply normalizePhone_plus_digits|].
  destruct ((String.length d =? 11)%nat && Js.startsWith "1" d) eqn:H11;
    [by apply normalizePhone_plus_digits|].
  destruct (String.length d =? 10)%nat eqn:H10.
  - change ("+1" +:+ d) with ("+" +:+ String "1" d).
    apply normalizePhone_plus_digits. cbn [all_chars]. by rewrite Hd.
  - by apply normalizePhone_bare_digits.
Qed.

(** X10. A cell without any digit gives the empty number, unless its trimmed
    text starts with [+]: then it gives the number [+], which is not
    empty. *)
Theorem normalizePhone_digitless (s : string) :
  digitsOf s = "" ->
  normalizePhone (JStr s) = if Js.startsWith "+" (Js.trim s) then "+" else "".
Proof.
  intros Hd. rewrite normalizePhone_unfold. unfold normalizePhone_spec.
  cbn [String_ is_nullish orb]. rewrite Hd.
  destruct (Js.trim s) as [|c r]; [done|].
  cbn [Js.nonempty negb]. by destruct (Js.startsWith _ _).
Qed.

Lemma normalizePhone_digitless_witness :
  normalizePhone (JStr " +n/a ") = "+" /\ normalizePhone (JStr "n/a") = "".
Proof.
  split.
  - apply (normalizePhone_digitless " +n/a "). reflexivity.
  - apply (normalizePhone_digitless "n/a"). reflexivity.
Defined.

(** ** The dial list *)

Lemma dialRecords_filtered wb f t :
  f <> "" -> t <> "" ->
  dialRecords (Some wb) (Some f) (Some t)
  = (fun ir => makeRecord f t ir.1 ir.2)
      <$> filter (fun ir => ~ excluded f t ir.2) (imap pair (rows wb)).
Proof.
  intros Hf%nonempty_true Ht%nonempty_true.
  unfold dialRecords. rewrite Hf, Ht. simpl.
  apply (filterBoolean_dialRecord f t (rows wb) 0).
Qed.

Lemma dialRecords_no_column wb f t :
  f = "" \/ t = "" -> dialRecords (Some wb) (Some f) (Some t) = [].
Proof.
  unfold dialRecords. intros [-> | ->]; simpl; [done|].
  by rewrite orb_true_r.
Qed.

Lemma elem_of_dialRecords wb f t record :
  record ∈ dialRecords (Some wb) (Some f) (Some t) ->
  exists i row,
    rows wb !! i = Some row /\ ~ excluded f t row
    /\ record = makeRecord f t i row.
Proof.
  destruct (decide (f = "")) as [->|Hf];
    [rewrite dialRecords_no_column by (by left); by intros ?%elem_of_nil|].
  destruct (decide (t = "")) as [->|Ht];
    [rewrite dialRecords_no_column by (by right); by intros ?%elem_of_nil|].
  rewrite (dialRecords_filtered wb f t Hf Ht).
  intros ([i row] & -> & [Hkeep Hin]%list_elem_of_filter)%list_elem_of_fmap.
  apply elem_of_lookup_imap in Hin as (j & row' & [= -> ->] & Hrow).
  by exists j, row'.
Qed.

Lemma makeRecord_derived f t index row k :
  obj_has row k = false ->
  obj_get (makeRecord f t index row) k
  = obj_get
      [ ("id", JStr ("row-" +:+ pretty index));
        ("from", JStr (normalizePhone (obj_get row f)));
        ("to", JStr (normalizePhone (obj_get row t)));
        ("displayFrom",
          JStr (str_or (Js.trim (String_ (nullish_or (obj_get row f) (JStr ""))))
                  (normalizePhone (obj_get row f))));
        ("displayTo",
          JStr (str_or (Js.trim (String_ (nullish_or (obj_get row t) (JStr ""))))
                  (normalizePhone (obj_get row t))));
        ("rowIndex", JNum (Z.of_nat index + 1)) ] k.
Proof. intros Hk. unfold makeRecord. by apply obj_get_spread_absent. Qed.

Lemma NoDup_imap_pair {A} (l : list A) : NoDup (imap pair l).
Proof.
  apply (NoDup_fmap_1 fst). rewrite fmap_imap.
  rewrite (imap_ext _ (fun i _ => i)) by done.
  rewrite (imap_seq_0 l (fun i => i)).
  apply (NoDup_fmap_2 (fun i => i)), NoDup_seq.
Qed.

Lemma row_key_inj (i j : nat) :
  "row-" +:+ pretty i = "row-" +:+ pretty j -> i = j.
Proof. intros Heq. by apply (inj (String.app "row-")), (inj pretty) in Heq. Qed.

(** X11. In a sheet without a column named [id] every dial record has a key
    of its own, [row-] followed by the position of its row among all the
    rows of the sheet (the rows left out included): the statuses of two
    rows never meet in the dictionary. *)
Theorem dialRecords_keys (wb : ParsedWorkbook) (f t : string) :
  (forall row, row ∈ rows wb -> obj_has row "id" = false) ->
  let records := dialRecords (Some wb) (Some f) (Some t) in
  NoDup (recordKey <$> records)
  /\ (forall record, record ∈ records ->
        exists i row,
          rows wb !! i = Some row /\ record = makeRecord f t i row
          /\ recordKey record = "row-" +:+ pretty i).
Proof.
  intros Hnoid records.
  assert (Hkey : forall i row, rows wb !! i = Some row ->
            recordKey (makeRecord f t i row) = "row-" +:+ pretty i).
  { intros i row Hrow. unfold recordKey.
    rewrite makeRecord_derived; [done|].
    apply Hnoid. by eapply list_elem_of_lookup_2. }
  split.
  - subst records.
    destruct (decide (f = "")) as [->|Hf];
      [rewrite dialRecords_no_column by (by left); constructor|].
    destruct (decide (t = "")) as [->|Ht];
      [rewrite dialRecords_no_column by (by right); constructor|].
    rewrite (dialRecords_filtered wb f t Hf Ht), <- list_fmap_compose.
    apply NoDup_fmap_2_strong; [|apply NoDup_filter, NoDup_imap_pair].
    intros [i row] [j row'] [_ Hi]%list_elem_of_filter [_ Hj]%list_elem_of_filter.
    apply elem_of_lookup_imap in Hi as (i' & r1 & [= -> ->] & Hr1).
    apply elem_of_lookup_imap in Hj as (j' & r2 & [= -> ->] & Hr2).
    simpl. rewrite (Hkey _ _ Hr1), (Hkey _ _ Hr2).
    intros ->%row_key_inj. congruence.
  - intros record (i & row & Hrow & _ & ->)%elem_of_dialRecords.
    exists i, row. split_and!; [done|done|by apply Hkey].
Qed.

Lemma dialRecords_keys_witness :
  NoDup (recordKey <$> dialRecords (Some formattedWorkbook) (Some "caller") (Some "callee")).
Proof.
  apply (dialRecords_keys formattedWorkbook "caller" "callee").
  intros row Hrow.
  repeat (apply elem_of_cons in Hrow as [->|Hrow]; [reflexivity|]).
  by apply elem_of_nil in Hrow.
Defined.

(** X12. The derived fields stand when no column of the row has their name:
    the record of such a row has the key of its position, the normalized
    numbers under [from] and [to], the position counted from one under
    [rowIndex], and both numbers present, so the call trigger does not
    turn it down. *)
Theorem dialRecord_plain (f t : string) (index : nat) (row record : JsObject) :
  plainRow row ->
  dialRecord f t index row = Some record ->
  obj_get record "id" = JStr ("row-" +:+ pretty index)
  /\ obj_get record "from" = JStr (normalizePhone (obj_get row f))
  /\ obj_get record "to" = JStr (normalizePhone (obj_get row t))
  /\ obj_get record "rowIndex" = JNum (Z.of_nat index + 1)
  /\ numbersPresent record = true.
Proof.
  intros Hplain Hrec.
  assert (Hkeep : ~ excluded f t row).
  { intros Hex. apply (dialRecord_None f t index) in Hex. congruence. }
  rewrite (dialRecord_Some f t index row Hkeep) in Hrec. injection Hrec as <-.
  assert (Hfrom : obj_get (makeRecord f t index row) "from"
                  = JStr (normalizePhone (obj_get row f))).
  { rewrite makeRecord_derived; [done|]. apply Hplain. compute_done. }
  assert (Hto : obj_get (makeRecord f t index row) "to"
                = JStr (normalizePhone (obj_get row t))).
  { rewrite makeRecord_derived; [done|]. apply Hplain. compute_done. }
  split_and!; try done.
  - rewrite makeRecord_derived; [done|]. apply Hplain. compute_done.
  - rewrite makeRecord_derived; [done|]. apply Hplain. compute_done.
  - unfold numbersPresent. rewrite Hfrom, Hto. simpl.
    unfold excluded in Hkeep.
    destruct (normalizePhone (obj_get row f)); [tauto|].
    destruct (normalizePhone (obj_get row t)); [tauto|]. done.
Qed.

Lemma dialRecord_plain_witness :
  exists record,
    dialRecord "caller" "callee" 0
      [("caller", JStr "(555) 000-1111"); ("callee", JStr "+1 555 222 3333")]
    = Some record
    /\ obj_get record "from" = JStr "+15550001111"
    /\ obj_get record "to" = JStr "+15552223333"
    /\ numbersPresent record = true.
Proof.
  eexists. split; [reflexivity|].
  destruct (dialRecord_plain "caller" "callee" 0
              [("caller", JStr "(555) 000-1111"); ("callee", JStr "+1 555 222 3333")]
              _
              ltac:(intros k Hk; unfold derivedKeys in Hk;
                    repeat (apply elem_of_cons in Hk as [->|Hk]; [reflexivity|]);
                    by apply elem_of_nil in Hk)
              eq_refl)
    as (_ & Hfrom & Hto & _ & Hnum).
  split; [exact Hfrom|]. split; [exact Hto|exact Hnum].
Defined.

(** X13. A selected column that no row of the sheet has leaves the dial list
    empty: every row is left out, none is reported. *)
Theorem dialRecords_missing_column (wb : ParsedWorkbook) (f t : string) :
  (forall row, row ∈ rows wb -> obj_has row f = false)
  \/ (forall row, row ∈ rows wb -> obj_has row t = false) ->
  dialRecords (Some wb) (Some f) (Some t) = [].
Proof.
  intros Hmissing.
  destruct (dialRecords (Some wb) (Some f) (Some t)) as [|record records] eqn:Hrecords;
    [done|].
  assert (Hin : record ∈ dialRecords (Some wb) (Some f) (Some t))
    by (rewrite Hrecords; left).
  apply elem_of_dialRecords in Hin as (i & row & Hrow & Hkeep & _).
  apply list_elem_of_lookup_2 in Hrow.
  destruct Hkeep. destruct Hmissing as [Hm|Hm]; [left|right];
    by rewrite (obj_has_false_get _ _ (Hm row Hrow)).
Qed.

Lemma dialRecords_missing_column_witness :
  dialRecords (Some formattedWorkbook) (Some "agent_number") (Some "callee") = [].
Proof.
  apply (dialRecords_missing_column formattedWorkbook "agent_number" "callee").
  left. intros row Hrow.
  repeat (apply elem_of_cons in Hrow as [->|Hrow]; [reflexivity|]).
  by apply elem_of_nil in Hrow.
Defined.

Lemma obj_get_spread_same base base' src k :
  obj_get base k = obj_get base' k ->
  obj_get (obj_spread base src) k = obj_get (obj_spread base' src) k.
Proof.
  revert base base'. induction src as [|[k' v] src IH]; intros base base' Hsame;
    [done|].
  rewrite !obj_spread_cons. apply IH.
  destruct (decide (k' = k)) as [->|Hne].
  - by rewrite !obj_get_set_eq.
  - by rewrite !obj_get_set_ne.
Qed.

(** X14. The key of a row's record depends on the row and on its position
    only, not on the columns selected: a row keeps its status in the
    dictionary when the column mapping changes. *)
Theorem recordKey_mapping (f t f' t' : string) (index : nat) (row : JsObject)
    (m : gmap string CallResult) :
  recordKey (makeRecord f t index row) = recordKey (makeRecord f' t' index row)
  /\ statusOf m (recordKey (makeRecord f t index row))
     = statusOf m (recordKey (makeRecord f' t' index row)).
Proof.
  assert (Hkey : recordKey (makeRecord f t index row)
                 = recordKey (makeRecord f' t' index row)).
  { unfold recordKey, makeRecord. f_equal. by apply obj_get_spread_same. }
  split; [exact Hkey|by rewrite Hkey].
Qed.

(** ** Upload, column mapping and reset *)

Lemma dialRecords_missing wb f t :
  (forall row, row ∈ rows wb -> obj_has row f = false)
  \/ (forall row, row ∈ rows wb -> obj_has row t = false) ->
  dialRecords (Some wb) (Some f) (Some t) = [].
Proof.
  intros Hmissing.
  destruct (dialRecords (Some wb) (Some f) (Some t)) as [|record records] eqn:Hrecords;
    [done|].
  assert (Hin : record ∈ dialRecords (Some wb) (Some f) (Some t))
    by (rewrite Hrecords; left).
  apply elem_of_dialRecords in Hin as (i & row & Hrow & Hkeep & _).
  apply list_elem_of_lookup_2 in Hrow.
  destruct Hkeep. destruct Hmissing as [Hm|Hm]; [left|right];
    by rewrite (obj_has_false_get _ _ (Hm row Hrow)).
Qed.

Section UploadProperties.

Variable parseWorkbook : File -> Exc ParsedWorkbook.

Abbreviation handleFileChange := (handleFileChange parseWorkbook).
Abbreviation upload := (upload parseWorkbook).




End UploadProperties.




(** ** The details column *)

Lemma filter_key_set (p : string -> bool) (o : JsObject) k v :
  List.filter (fun kv => p kv.1) (obj_set o k v)
  = if p k then obj_set (List.filter (fun kv => p kv.1) o) k v
    else List.filter (fun kv => p kv.1) o.
Proof.
  induction o as [|[k' v'] o IH]; simpl.
  - by destruct (p k).
  - destruct (String.eqb_spec k' k) as [->|Hne]; simpl.
    + destruct (p k); simpl; [|done]. by rewrite String.eqb_refl.
    + rewrite IH. destruct (p k'), (p k); simpl; try done.
      by destruct (String.eqb_spec k' k).
Qed.

Lemma filter_key_spread (p : string -> bool) (base src : JsObject) :
  List.filter (fun kv => p kv.1) (obj_spread base src)
  = obj_spread (List.filter (fun kv => p kv.1) base)
      (List.filter (fun kv => p kv.1) src).
Proof.
  revert base. induction src as [|[k v] src IH]; intros base; [done|].
  rewrite obj_spread_cons, IH, filter_key_set. simpl.
  by destruct (p k).
Qed.

Lemma filter_key_keys (p : string -> bool) (o : JsObject) k :
  k ∈ (List.filter (fun kv => p kv.1) o).*1 -> k ∈ o.*1.
Proof.
  induction o as [|[k' v'] o IH]; simpl; [done|].
  destruct (p k'); simpl; rewrite ?elem_of_cons; intuition.
Qed.

Lemma filter_key_NoDup (p : string -> bool) (o : JsObject) :
  NoDup o.*1 -> NoDup (List.filter (fun kv => p kv.1) o).*1.
Proof.
  induction o as [|[k v] o IH]; simpl; [done|].
  rewrite NoDup_cons. intros [Hk Hnd].
  destruct (p k); simpl; [|by apply IH].
  apply NoDup_cons. split; [|by apply IH].
  intros Hin. by apply Hk, (filter_key_keys p).
Qed.

(** The properties of a dial record whose key passes a test that none of
    the derived keys passes are those of the row. *)
Lemma filter_key_makeRecord (p : string -> bool) f t index (row : JsObject) :
  NoDup row.*1 ->
  (forall k, k ∈ derivedKeys -> p k = false) ->
  List.filter (fun kv => p kv.1) (makeRecord f t index row)
  = List.filter (fun kv => p kv.1) row.
Proof.
  intros Hnd Hp. unfold makeRecord. rewrite filter_key_spread. cbn [List.filter fst].
  rewrite !Hp by compute_done.
  by rewrite (obj_spread_fresh [] _ (filter_key_NoDup p row Hnd)).
Qed.

Lemma filter_all (p : string -> bool) (o : JsObject) :
  Forall (fun kv => p kv.1 = true) o -> List.filter (fun kv => p kv.1) o = o.
Proof.
  induction 1 as [|kv o Hkv _ IH]; [done|]. simpl. by rewrite Hkv, IH.
Qed.

Lemma filter_none (p : string -> bool) (o : JsObject) :
  Forall (fun kv => p kv.1 = false) o -> List.filter (fun kv => p kv.1) o = [].
Proof.
  induction 1 as [|kv o Hkv _ IH]; [done|]. simpl. by rewrite Hkv, IH.
Qed.

(** The derived keys are no array indices, and are not shown. *)
Lemma hidden_no_index k : k ∈ derivedKeys -> isIndexKey k = false.
Proof.
  unfold derivedKeys. intros Hk.
  repeat (apply elem_of_cons in Hk as [->|Hk]; [reflexivity|]).
  by apply elem_of_nil in Hk.
Qed.

Lemma hidden_not_shown k : k ∈ derivedKeys -> shownKey k = false.
Proof.
  unfold derivedKeys. intros Hk.
  repeat (apply elem_of_cons in Hk as [->|Hk]; [reflexivity|]).
  by apply elem_of_nil in Hk.
Qed.

(** [Object.entries] of a dial record, the hidden keys left out, is
    [Object.entries] of its row with the hidden keys left out. *)
Lemma shown_entries_makeRecord f t index (row : JsObject) :
  NoDup row.*1 ->
  List.filter (fun kv => shownKey kv.1) (Object_entries (makeRecord f t index row))
  = List.filter (fun kv => shownKey kv.1) (Object_entries row).
Proof.
  intros Hnd. unfold Object_entries, indexEntries.
  rewrite (filter_key_makeRecord isIndexKey f t index row Hnd hidden_no_index).
  rewrite !List.filter_app. f_equal.
  set (rest := List.filter (fun kv => negb (isIndexKey kv.1)) row).
  assert (Hrest : NoDup rest.*1)
    by apply (filter_key_NoDup (fun k => negb (isIndexKey k)) row Hnd).
  unfold makeRecord.
  rewrite (filter_key_spread (fun k => negb (isIndexKey k))). fold rest.
  rewrite filter_key_spread. cbn [List.filter fst negb].
  rewrite !hidden_no_index by compute_done. cbn [negb List.filter fst].
  rewrite !hidden_not_shown by compute_done.
  by rewrite (obj_spread_fresh [] _ (filter_key_NoDup shownKey rest Hrest)).
Qed.

(** X18. The details column of a row shows the first four columns of the
    sheet row that are not named like a derived field or [sid], with their
    raw cells and in the order [Object.entries] lists the columns of the
    row: columns whose name is an array index first, by ascending index,
    then the other columns in the order of the sheet.  For a sheet without
    such a column name this is the order of the sheet.  Never more than
    four are shown. *)
Theorem metadataEntries_row (f t : string) (index : nat) (row : JsObject) :
  NoDup row.*1 ->
  metadataEntries (makeRecord f t index row)
  = take 4 (List.filter (fun kv => shownKey kv.1) (Object_entries row))
  /\ (Forall (fun kv => isIndexKey kv.1 = false) row ->
      metadataEntries (makeRecord f t index row)
      = take 4 (List.filter (fun kv => shownKey kv.1) row))
  /\ length (metadataEntries (makeRecord f t index row)) <= 4.
Proof.
  intros Hnd.
  assert (Heq : metadataEntries (makeRecord f t index row)
                = take 4 (List.filter (fun kv => shownKey kv.1) (Object_entries row))).
  { unfold metadataEntries. by rewrite shown_entries_makeRecord. }
  split; [exact Heq|]. split.
  - intros Hplain. rewrite Heq. unfold Object_entries, indexEntries.
    rewrite (filter_none isIndexKey row Hplain). simpl.
    rewrite (filter_all (fun k => negb (isIndexKey k)) row); [done|].
    eapply Forall_impl; [exact Hplain|]. by intros kv ->.
  - rewrite Heq, length_take. lia.
Qed.

Lemma metadataEntries_row_witness :
  metadataEntries
    (makeRecord "caller" "callee" 0
       [("caller", JStr "5550001111"); ("callee", JStr "5552223333");
        ("2024", JNum 12); ("name", JStr "Jane"); ("id", JNum 7);
        ("2023", JNum 9)])
  = [("2023", JNum 9); ("2024", JNum 12); ("caller", JStr "5550001111");
     ("callee", JStr "5552223333")].
Proof.
  destruct (metadataEntries_row "caller" "callee" 0
              [("caller", JStr "5550001111"); ("callee", JStr "5552223333");
               ("2024", JNum 12); ("name", JStr "Jane"); ("id", JNum 7);
               ("2023", JNum 9)]) as [Heq _].
  - compute_done.
  - etransitivity; [exact Heq|reflexivity].
Defined.

(** ** More of the call trigger *)

Section TriggerMore.

Variable engine_message : TypeErrorKind -> string.
Variable fetch : list Event -> Payload -> FetchOutcome.
Variable Date_now : list Event -> Z.

Abbreviation triggerCall := (triggerCall engine_message fetch Date_now).
Abbreviation readResponse := (readResponse engine_message).

(** The two entries the trigger writes for a record with numbers. *)
Lemma triggerCall_exact record st :
  numbersPresent record = true ->
  let key := recordKey record in
  let id := obj_get record "id" in
  let payload := payloadOf (scriptOverride st) record in
  let dialing :=
    nextEntry (statusMap st !! key) id (Date_now (trace st))
      {| u_status := calling; u_message := Some "Dialing...";
         u_sid := None; u_timestamp := None |} in
  let sent := trace st ++ [EvStatus key dialing] in
  let settled :=
    nextEntry (Some dialing) id (Date_now (sent ++ [EvFetch payload]))
      match readResponse (fetch sent payload) with
      | Ok sid =>
          {| u_status := success;
             u_message :=
               Some (if truthy sid
                     then "Call queued (SID: " +:+ String_ sid +:+ ")"
                     else "Call queued");
             u_sid := Some sid; u_timestamp := None |}
      | Throw callError =>
          {| u_status := error; u_message := Some (thrownMessage callError);
             u_sid := None; u_timestamp := None |}
      end in
  triggerCall record st
  = {| statusMap := <[key := settled]> (<[key := dialing]> (statusMap st));
       scriptOverride := scriptOverride st;
       isAutoDialing := isAutoDialing st;
       trace := (sent ++ [EvFetch payload]) ++ [EvStatus key settled] |}.
Proof.
  intros Hnum. cbv zeta. unfold triggerCall.
  rewrite triggerCall_guard, Hnum. simpl negb. cbv iota zeta.
  fold (recordKey record). fold (payloadOf (scriptOverride st) record).
  unfold setCallStatus, emit, setStatusMap.
  cbn [statusMap scriptOverride isAutoDialing trace u_timestamp].
  destruct (readResponse _) as [sid|callError];
    cbn [statusMap scriptOverride isAutoDialing trace u_timestamp];
    fold (recordKey record); by rewrite lookup_insert_eq.
Qed.

Lemma readResponse_fails outcome :
  callFails outcome = true -> exists e, readResponse outcome = Throw e.
Proof.
  destruct outcome as [e|[] [body|e]]; simpl; try (by eexists).
  - by destruct body; try done; eexists.
  - intros _. destruct body; simpl; by eexists.
Qed.

Lemma readResponse_created body :
  is_nullish body = false ->
  readResponse (Response true (Ok body)) = Ok (member body "sid").
Proof. by destruct body. Qed.

(** X19. A call that fails leaves the identifier of an earlier call in the
    entry: a row called with success before and with failure now has
    status error and still the old identifier (which the table goes on
    showing).  A call that is created replaces it. *)
Theorem triggerCall_keeps_sid (record : JsObject) (st : AppState)
    (previous : CallResult) :
  numbersPresent record = true ->
  statusMap st !! recordKey record = Some previous ->
  let key := recordKey record in
  let payload := payloadOf (scriptOverride st) record in
  exists dialing settled,
    trace (triggerCall record st)
    = trace st ++ [EvStatus key dialing; EvFetch payload; EvStatus key settled]
    /\ statusMap (triggerCall record st) !! key = Some settled
    /\ let outcome := fetch (trace st ++ [EvStatus key dialing]) payload in
       (callFails outcome = true ->
          cr_status settled = error /\ cr_sid settled = cr_sid previous)
       /\ (forall body, outcome = Response true (Ok body) ->
             is_nullish body = false ->
             cr_status settled = success /\ cr_sid settled = member body "sid").
Proof.
  intros Hnum Hprev key payload.
  rewrite (triggerCall_exact record st Hnum). cbv zeta. fold key payload.
  match goal with
  | |- context [<[_ := ?s]> (<[_ := ?d]> _)] => exists d, s
  end.
  cbn [statusMap trace]. split; [by rewrite <- !app_assoc|].
  split; [apply lookup_insert_eq|].
  fold key in Hprev. rewrite Hprev. split.
  - intros (e & ->)%readResponse_fails. done.
  - intros body -> Hbody. by rewrite (readResponse_created body Hbody).
Qed.

(** X20. Every 2xx response with a JSON body other than [null] counts as a
    created call, with or without an identifier: the status is success,
    the identifier is the [sid] member of the body (undefined when the
    body has none or is no object), and the message names the identifier
    when it is truthy and is plainly Call queued when it is not. *)
Theorem triggerCall_created (record : JsObject) (st : AppState) :
  numbersPresent record = true ->
  let key := recordKey record in
  let payload := payloadOf (scriptOverride st) record in
  exists dialing settled,
    statusMap (triggerCall record st) !! key = Some settled
    /\ cr_status dialing = calling
    /\ cr_message dialing = Some "Dialing..."
    /\ forall body,
         fetch (trace st ++ [EvStatus key dialing]) payload = Response true (Ok body) ->
         is_nullish body = false ->
         cr_status settled = success
         /\ cr_sid settled = member body "sid"
         /\ cr_id settled = obj_get record "id"
         /\ cr_message settled
            = Some (if truthy (member body "sid")
                    then "Call queued (SID: " +:+ String_ (member body "sid") +:+ ")"
                    else "Call queued").
Proof.
  intros Hnum key payload.
  rewrite (triggerCall_exact record st Hnum). cbv zeta. fold key payload.
  match goal with
  | |- context [<[_ := ?s]> (<[_ := ?d]> _)] => exists d, s
  end.
  cbn [statusMap]. split; [apply lookup_insert_eq|].
  split; [done|]. split; [done|].
  intros body -> Hbody. by rewrite (readResponse_created body Hbody).
Qed.

(** X21. The Call button of a row is disabled for a record without numbers,
    so a call started from the button always sends its one request. *)
Theorem callButton_sends (record : JsObject) (st : AppState) :
  (numbersPresent record = false -> callDisabled st record = true)
  /\ (callDisabled st record = false ->
      fetches (trace (triggerCall record st))
      = fetches (trace st) ++ [payloadOf (scriptOverride st) record]).
Proof.
  unfold callDisabled, numbersPresent. split.
  - intros H. destruct (bool_decide _); [done|]. simpl.
    destruct (truthy (obj_get record "from")); [|done].
    destruct (truthy (obj_get record "to")); done.
  - intros H.
    assert (Hnum : numbersPresent record = true).
    { unfold numbersPresent.
      destruct (truthy (obj_get record "from")), (truthy (obj_get record "to"));
        try done; by destruct (bool_decide _); rewrite ?orb_true_r in H. }
    rewrite (triggerCall_exact record st Hnum). cbv zeta. cbn [trace].
    rewrite !fetches_app. simpl. by rewrite !app_nil_r.
Qed.

End TriggerMore.

Lemma triggerCall_keeps_sid_witness :
  exists settled,
    statusMap (triggerCall sampleEngine offline clock
                 (queueRecord 0 "+15552220000") firstDone) !! "row-0"
    = Some settled
    /\ cr_status settled = error
    /\ cr_sid settled = JStr "CA100".
Proof.
  destruct (triggerCall_keeps_sid sampleEngine offline clock
              (queueRecord 0 "+15552220000") firstDone
              {| cr_id := JStr "row-0"; cr_status := success;
                 cr_message := Some "Call queued (SID: CA100)";
                 cr_sid := JStr "CA100"; cr_timestamp := 0 |}
              eq_refl eq_refl)
    as (dialing & settled & _ & Hmap & Hfail & _).
  exists settled. split; [exact Hmap|]. apply Hfail. reflexivity.
Defined.

Lemma triggerCall_created_witness :
  exists settled,
    statusMap (triggerCall sampleEngine acknowledging clock
                 (queueRecord 0 "+15552220000") (sessionStart "")) !! "row-0"
    = Some settled
    /\ cr_status settled = success
    /\ cr_sid settled = JUndefined
    /\ cr_message settled = Some "Call queued".
Proof.
  destruct (triggerCall_created sampleEngine acknowledging clock
              (queueRecord 0 "+15552220000") (sessionStart "") eq_refl)
    as (dialing & settled & Hmap & _ & _ & Hcreated).
  exists settled. split; [exact Hmap|].
  destruct (Hcreated (JObj [("ok", JBool true)]) eq_refl eq_refl)
    as (Hstatus & Hsid & _ & Hmessage).
  split; [exact Hstatus|]. split; [exact Hsid|exact Hmessage].
Defined.

Lemma callButton_sends_witness :
  fetches (trace (triggerCall sampleEngine online clock
                    (queueRecord 0 "+15552220000") (sessionStart "Hello")))
  = [ {| p_from := JStr "+15550001111"; p_to := JStr "+15552220000";
         p_script := "Hello" |} ].
Proof.
  apply (callButton_sends sampleEngine online clock
           (queueRecord 0 "+15552220000") (sessionStart "Hello")).
  reflexivity.
Defined.

(** ** More of the queue *)

Section QueueMore.

Variable engine_message : TypeErrorKind -> string.
Variable fetch : list Event -> Payload -> FetchOutcome.
Variable Date_now : list Event -> Z.

Abbreviation triggerCall := (triggerCall engine_message fetch Date_now).
Abbreviation dialStep := (dialStep engine_message fetch Date_now).
Abbreviation handleDialAll := (handleDialAll engine_message fetch Date_now).
Abbreviation readResponse := (readResponse engine_message).

Lemma readResponse_succeeds outcome :
  callFails outcome = false -> exists sid, readResponse outcome = Ok sid.
Proof.
  destruct outcome as [e|[] [body|e]]; simpl; try done.
  destruct body; try done; by eexists.
Qed.

Lemma isSuccess_statusOf m id :
  isSuccess m id = true <-> statusOf m (String_ id) = success.
Proof.
  unfold isSuccess, statusOf. destruct (m !! String_ id) as [r|]; [|done].
  by rewrite bool_decide_eq_true.
Qed.

(** A pass over records that are all done already changes nothing. *)
Lemma dialLoop_skip snapshot records st :
  (forall record, record ∈ records ->
     isSuccess snapshot (obj_get record "id") = true) ->
  fold_left (dialStep snapshot) records st = st.
Proof.
  revert st. induction records as [|record records IH]; intros st Hdone; [done|].
  simpl. unfold dialStep at 2. rewrite (Hdone record) by left.
  apply IH. intros record' Hin. apply Hdone. by right.
Qed.

(** X22. Dialing the queue when every record of it has status success sends
    nothing and writes no status: the handler only raises and lowers its
    busy flag. *)
Theorem handleDialAll_nothing_left (records : list JsObject) (st : AppState) :
  isAutoDialing st = false ->
  (forall record, record ∈ records ->
     statusOf (statusMap st) (recordKey record) = success) ->
  handleDialAll records st
  = {| statusMap := statusMap st;
       scriptOverride := scriptOverride st;
       isAutoDialing := false;
       trace := trace st ++ [EvAutoDialing true; EvAutoDialing false] |}.
Proof.
  intros Hidle Hdone. unfold handleDialAll. rewrite Hidle. cbv zeta.
  rewrite dialLoop_skip.
  - unfold setIsAutoDialing. cbn [statusMap scriptOverride trace].
    by rewrite <- app_assoc.
  - intros record Hin. apply isSuccess_statusOf. by apply Hdone.
Qed.

(** One turn of the loop on a network behind which no call fails. *)
Lemma dialStep_success snapshot st record :
  (forall t p, callFails (fetch t p) = false) ->
  numbersPresent record = true ->
  (forall key, statusOf snapshot key = success ->
               statusOf (statusMap st) key = success) ->
  let st' := dialStep snapshot st record in
  statusOf (statusMap st') (recordKey record) = success
  /\ (forall key, statusOf (statusMap st) key = success ->
                  statusOf (statusMap st') key = success)
  /\ isAutoDialing st' = isAutoDialing st.
Proof.
  intros Hnet Hnum Hsnap. cbv zeta. unfold dialStep.
  destruct (isSuccess snapshot (obj_get record "id")) eqn:Hskip.
  - split_and!; [|done|done]. apply Hsnap. by apply isSuccess_statusOf.
  - rewrite (triggerCall_exact engine_message fetch Date_now record st Hnum).
    cbv zeta. unfold delay, emit. cbn [statusMap isAutoDialing].
    destruct (readResponse_succeeds _ (Hnet
                (trace st ++
                 [EvStatus (recordKey record)
                    (nextEntry (statusMap st !! recordKey record)
                       (obj_get record "id") (Date_now (trace st))
                       {| u_status := calling; u_message := Some "Dialing...";
                          u_sid := None; u_timestamp := None |})])
                (payloadOf (scriptOverride st) record))) as (sid & ->).
    split_and!; [|intros key Hkey|done].
    + unfold statusOf. by rewrite lookup_insert_eq.
    + unfold statusOf in *.
      destruct (decide (key = recordKey record)) as [->|Hne].
      * by rewrite lookup_insert_eq.
      * by rewrite !lookup_insert_ne.
Qed.

Lemma dialLoop_success snapshot records st :
  (forall t p, callFails (fetch t p) = false) ->
  (forall record, record ∈ records -> numbersPresent record = true) ->
  (forall key, statusOf snapshot key = success ->
               statusOf (statusMap st) key = success) ->
  let st' := fold_left (dialStep snapshot) records st in
  (forall record, record ∈ records ->
     statusOf (statusMap st') (recordKey record) = success)
  /\ (forall key, statusOf (statusMap st) key = success ->
                  statusOf (statusMap st') key = success)
  /\ isAutoDialing st' = isAutoDialing st.
Proof.
  intros Hnet. revert st.
  induction records as [|record records IH]; intros st Hnum Hsnap; cbv zeta.
  - split_and!; [|done|done]. intros record Hin. by apply elem_of_nil in Hin.
  - simpl.
    destruct (dialStep_success snapshot st record Hnet) as (Hrec & Hmono & Hflag);
      [apply Hnum; by left|done|].
    destruct (IH (dialStep snapshot st record)) as (Hrecs & Hmono' & Hflag').
    { intros record' Hin. apply Hnum. by right. }
    { intros key Hkey. by apply Hmono, Hsnap. }
    split_and!.
    + intros record' [->|Hin]%elem_of_cons; [by apply Hmono'|by apply Hrecs].
    + intros key Hkey. by apply Hmono', Hmono.
    + by rewrite Hflag'.
Qed.

(** X23. On a network behind which no call fails, one pass over a queue whose
    records all have their numbers leaves every record of it with status
    success, whatever the dictionary held before and also when records
    share an id; a second pass then sends no request. *)
Theorem handleDialAll_completes (records : list JsObject) (st : AppState) :
  isAutoDialing st = false ->
  (forall t p, callFails (fetch t p) = false) ->
  (forall record, record ∈ records -> numbersPresent record = true) ->
  let st' := handleDialAll records st in
  (forall record, record ∈ records ->
     statusOf (statusMap st') (recordKey record) = success)
  /\ isAutoDialing st' = false
  /\ fetches (trace (handleDialAll records st')) = fetches (trace st').
Proof.
  intros Hidle Hnet Hnum. cbv zeta.
  assert (Hrun : handleDialAll records st
                 = setIsAutoDialing false
                     (fold_left (dialStep (statusMap st)) records
                        (setIsAutoDialing true st))).
  { unfold handleDialAll. by rewrite Hidle. }
  destruct (dialLoop_success (statusMap st) records (setIsAutoDialing true st)
              Hnet Hnum) as (Hrecs & _ & _); [done|].
  assert (Hdone : forall record, record ∈ records ->
            statusOf (statusMap (handleDialAll records st)) (recordKey record) = success).
  { intros record Hin. rewrite Hrun. by apply Hrecs. }
  assert (Hflag : isAutoDialing (handleDialAll records st) = false).
  { by rewrite Hrun. }
  split_and!; [done|done|].
  unfold handleDialAll at 1. rewrite Hflag. cbv zeta.
  rewrite dialLoop_skip.
  - unfold setIsAutoDialing. cbn [trace]. by rewrite !fetches_app, !app_nil_r.
  - intros record Hin. apply isSuccess_statusOf. by apply Hdone.
Qed.

End QueueMore.

Lemma handleDialAll_nothing_left_witness :
  fetches (trace (handleDialAll sampleEngine offline clock
                    [queueRecord 0 "+15552220000"] firstDone)) = [].
Proof.
  rewrite (handleDialAll_nothing_left sampleEngine offline clock
             [queueRecord 0 "+15552220000"] firstDone eq_refl).
  - reflexivity.
  - intros record ->%list_elem_of_singleton. reflexivity.
Defined.

Lemma handleDialAll_completes_witness :
  statusOf (statusMap (handleDialAll sampleEngine online clock
                         sampleQueue (sessionStart "")))
    "row-1" = success.
Proof.
  destruct (handleDialAll_completes sampleEngine online clock
              sampleQueue (sessionStart "") eq_refl (fun _ _ => eq_refl))
    as (Hdone & _ & _).
  - intros record Hin. unfold sampleQueue in Hin.
    repeat (apply elem_of_cons in Hin as [->|Hin]; [reflexivity|]).
    by apply elem_of_nil in Hin.
  - apply (Hdone (queueRecord 1 "+15552220001")). unfold sampleQueue.
    apply elem_of_cons. right. apply elem_of_cons. by left.
Defined.

(** ** The header counter, the status dictionary and the queue button *)

Lemma successfulCalls_insert (m : gmap string CallResult) key entry :
  successfulCalls (<[key := entry]> m)
  = (successfulCalls (delete key m)
     + if bool_decide (cr_status entry = success) then 1 else 0)%nat.
Proof.
  unfold successfulCalls. rewrite <- (insert_delete_eq m key entry).
  pose proof (map_to_list_insert (delete key m) key entry
                (lookup_delete_eq m key)) as Hperm.
  rewrite Hperm. rewrite fmap_cons. cbn [snd].
  rewrite filter_cons. case_bool_decide; destruct (decide _); try done;
    simpl; lia.
Qed.

Section CounterProperties.

Variable Date_now : list Event -> Z.

(** X24. Every status write moves the Connected counter of the header to the
    number of successful entries of the other records, plus one exactly
    when the status written is success: a record counts once however
    often it was called, and stops counting as soon as it is dialed
    again. *)
Theorem successfulCalls_setCallStatus (id : JsValue) (update : StatusUpdate)
    (st : AppState) :
  successfulCalls (statusMap (setCallStatus Date_now id update st))
  = (successfulCalls (delete (String_ id) (statusMap st))
     + if bool_decide (u_status update = success) then 1 else 0)%nat.
Proof.
  unfold setCallStatus, emit, setStatusMap. cbn [statusMap].
  by rewrite successfulCalls_insert.
Qed.

Lemma keyed_setCallStatus id update st :
  keyed (statusMap st) -> keyed (statusMap (setCallStatus Date_now id update st)).
Proof.
  intros Hkeyed key entry. unfold setCallStatus, emit, setStatusMap.
  cbn [statusMap].
  destruct (decide (key = String_ id)) as [->|Hne].
  - rewrite lookup_insert_eq. by intros [= <-].
  - rewrite lookup_insert_ne by done. apply Hkeyed.
Qed.

End CounterProperties.

Section KeyedProperties.

Variable engine_message : TypeErrorKind -> string.
Variable fetch : list Event -> Payload -> FetchOutcome.
Variable Date_now : list Event -> Z.

Lemma keyed_triggerCall record st :
  keyed (statusMap st) ->
  keyed (statusMap (triggerCall engine_message fetch Date_now record st)).
Proof.
  intros Hkeyed. unfold triggerCall.
  destruct (_ || _); [by apply keyed_setCallStatus|].
  cbv zeta.
  destruct (readResponse _ _);
    by apply keyed_setCallStatus, (keyed_setCallStatus Date_now _ _ st).
Qed.

Lemma keyed_dialLoop snapshot records st :
  keyed (statusMap st) ->
  keyed (statusMap (fold_left (dialStep engine_message fetch Date_now snapshot)
                      records st)).
Proof.
  revert st. induction records as [|record records IH]; intros st Hkeyed; [done|].
  simpl. apply IH. unfold dialStep.
  destruct (isSuccess _ _); [done|]. by apply keyed_triggerCall.
Qed.

Lemma keyed_runOp op st :
  keyed (statusMap st) ->
  keyed (statusMap (runOp engine_message fetch Date_now st op)).
Proof.
  intros Hkeyed. destruct op as [record|records]; simpl.
  - by apply keyed_triggerCall.
  - unfold handleDialAll. destruct (isAutoDialing st); [done|].
    cbv zeta. by apply keyed_dialLoop.
Qed.

(** X25. Through any sequence of calls and queue runs every entry of the
    status dictionary stays under the text of its own record id, which is
    the key the table and the queue look it up with. *)
Theorem statusMap_keyed (ops : list Op) (st : AppState) :
  keyed (statusMap st) ->
  keyed (statusMap (runOps engine_message fetch Date_now ops st)).
Proof.
  revert st. induction ops as [|op ops IH]; intros st Hkeyed; [done|].
  simpl. by apply IH, keyed_runOp.
Qed.

End KeyedProperties.

Lemma statusMap_keyed_witness :
  keyed (statusMap (runOps sampleEngine online clock
                      [DialAll sampleQueue; Dial (queueRecord 1 "+15552220001")]
                      (sessionStart ""))).
Proof.
  apply (statusMap_keyed sampleEngine online clock
           [DialAll sampleQueue; Dial (queueRecord 1 "+15552220001")]
           (sessionStart "")).
  intros key entry. simpl. by rewrite lookup_empty.
Defined.

(** X26. The Dial entire queue button tests the two column selections beside
    the list of dial records, but the list is empty whenever a selection
    is missing: the button is disabled exactly when there is no dial
    record or the queue is running. *)
Theorem dialAllDisabled_records (h : HomeState) :
  dialAllDisabled h
  = (length (currentDialRecords h) =? 0)%nat || isAutoDialing (app h).
Proof.
  unfold dialAllDisabled, currentDialRecords, dialRecords.
  destruct (workbook h) as [wb|], (fromColumn h) as [[|a f]|],
    (toColumn h) as [[|b t]|]; simpl; by rewrite ?orb_true_r, ?orb_false_r.
Qed.

(** ** From the sheet to the provider *)

Lemma trimEnd_idem s : Js.trimEnd (Js.trimEnd s) = Js.trimEnd s.
Proof.
  induction s as [|c s IH]; [done|].
  cbn [Js.trimEnd]. destruct (Js.trimEnd s) as [|d t] eqn:Ht.
  - destruct (Js.is_space c) eqn:Hc; [done|]. cbn [Js.trimEnd]. by rewrite Hc.
  - cbn [Js.trimEnd] in *. by rewrite IH.
Qed.

Lemma trimStart_head s :
  Js.trimStart s = ""
  \/ exists c r, Js.trimStart s = String c r /\ Js.is_space c = false.
Proof.
  induction s as [|c s IH]; [by left|].
  simpl. destruct (Js.is_space c) eqn:Hc; [done|]. right. by exists c, s.
Qed.

Lemma trim_idem s : Js.trim (Js.trim s) = Js.trim s.
Proof.
  unfold Js.trim.
  assert (Hstart : Js.trimStart (Js.trimEnd (Js.trimStart s))
                   = Js.trimEnd (Js.trimStart s)).
  { destruct (trimStart_head s) as [->|(c & r & -> & Hc)]; [done|].
    cbn [Js.trimEnd]. rewrite Hc.
    destruct (Js.trimEnd r); simpl; by rewrite Hc. }
  rewrite Hstart. apply trimEnd_idem.
Qed.

(** The script of a request body is trimmed text. *)
Lemma resolveScript_trimmed record scriptOverride :
  Js.trim (resolveScript record scriptOverride) = resolveScript record scriptOverride.
Proof.
  rewrite resolveScript_meets_spec. unfold resolveScript_spec.
  destruct (List.find _ record) as [kv|]; [|apply trim_idem].
  unfold trimmedText. destruct (is_nullish kv.2); [done|apply trim_idem].
Qed.

Lemma normalizePhone_trimmed value :
  Js.trim (normalizePhone value) = normalizePhone value.
Proof. apply trim_no_space, phoneShape_no_space, normalizePhone_shape_aux. Qed.

Section EndToEnd.

Variable engine_message : TypeErrorKind -> string.

(** X27. The request the page sends for a dial record of a plain row is never
    turned down by the endpoint that has its credentials: the provider
    is asked to call the normalized number of the to-cell from the
    normalized number of the from-cell; the resolved script, when there
    is one, is spoken as it is and the voice URL is left out; without a
    script the URL and the fallback message of the environment are used. *)
Theorem dialed_call_forwarded
    (twilio : string -> string -> Exc (CallArgs -> Exc string)) (env : Env)
    (calls_create : CallArgs -> Exc string)
    (f t : string) (index : nat) (row record : JsObject) (scriptOverride : string) :
  plainRow row ->
  dialRecord f t index row = Some record ->
  ~ credentialsAbsent env ->
  twilio (default "" (TWILIO_ACCOUNT_SID env))
         (default "" (TWILIO_AUTH_TOKEN env)) = Ok calls_create ->
  let script := resolveScript record scriptOverride in
  POST engine_message twilio env
    (Some (payloadJson (payloadOf scriptOverride record)))
  = providerAnswer
      (calls_create
         {| ca_to := normalizePhone (obj_get row t);
            ca_from := normalizePhone (obj_get row f);
            ca_url :=
              if str_truthy (TWILIO_VOICE_URL env) && negb (Js.nonempty script)
              then TWILIO_VOICE_URL env else None;
            ca_twiml :=
              if Js.nonempty script then Some (say script)
              else if Js.nonempty (default "" (TWILIO_FALLBACK_MESSAGE env))
                   then Some (say (default "" (TWILIO_FALLBACK_MESSAGE env)))
                   else None;
            ca_statusCallback := TWILIO_STATUS_CALLBACK_URL env;
            ca_statusCallbackEvent := ["initiated"; "ringing"; "answered"; "completed"];
            ca_statusCallbackMethod := "POST" |}).
Proof.
  intros Hplain Hrec Hcred Htw script.
  assert (Hkeep : ~ excluded f t row).
  { intros Hex. apply (dialRecord_None f t index) in Hex. congruence. }
  rewrite (dialRecord_Some f t index row Hkeep) in Hrec. injection Hrec as <-.
  assert (Hfrom : obj_get (makeRecord f t index row) "from"
                  = JStr (normalizePhone (obj_get row f))).
  { rewrite makeRecord_derived; [done|]. apply Hplain. compute_done. }
  assert (Hto : obj_get (makeRecord f t index row) "to"
                = JStr (normalizePhone (obj_get row t))).
  { rewrite makeRecord_derived; [done|]. apply Hplain. compute_done. }
  unfold excluded in Hkeep.
  unfold payloadJson, payloadOf. cbn [p_from p_to p_script]. fold script.
  rewrite Hfrom, Hto.
  rewrite (POST_reaches_provider engine_message twilio env _ calls_create Hcred);
    [| |exact Htw].
  - f_equal. unfold createArgs.
    change (get_prop engine_message (JObj ?o) "script") with (Ok (obj_get o "script")).
    change (obj_get [("from", ?a); ("to", ?b); ("script", ?c)] "script") with c.
    change (obj_get [("from", ?a); ("to", ?b); ("script", ?c)] "from") with a.
    change (obj_get [("from", ?a); ("to", ?b); ("script", ?c)] "to") with b.
    unfold buildTwiml. cbn [opt_trim trimmedMember truthy]. simpl mbind.
    rewrite !normalizePhone_trimmed. unfold script.
    rewrite resolveScript_trimmed. cbn [str_truthy].
    destruct (Js.nonempty (resolveScript _ _)); simpl; [done|].
    by destruct (Js.nonempty (default "" (TWILIO_FALLBACK_MESSAGE env))).
  - unfold validNumbers.
    change (obj_get [("from", ?a); ("to", ?b); ("script", ?c)] "from") with a.
    change (obj_get [("from", ?a); ("to", ?b); ("script", ?c)] "to") with b.
    cbn [textOrMissing trimmedMember]. rewrite !normalizePhone_trimmed.
    split_and!; tauto.
Qed.

End EndToEnd.

Lemma dialed_call_forwarded_witness :
  POST sampleEngine echoTwilio fullEnv
    (Some (payloadJson
             (payloadOf "Hi"
                (makeRecord "caller" "callee" 0
                   [("caller", JStr "(555) 000-1111");
                    ("callee", JStr "+1 555 222 3333")]))))
  = Respond 200 (JObj [("sid", JStr "+15552223333")]).
Proof.
  etransitivity.
  - apply (dialed_call_forwarded sampleEngine echoTwilio fullEnv
             (fun args => Ok (ca_to args)) "caller" "callee" 0
             [("caller", JStr "(555) 000-1111"); ("callee", JStr "+1 555 222 3333")]).
    + intros k Hk. unfold derivedKeys in Hk.
      repeat (apply elem_of_cons in Hk as [->|Hk]; [reflexivity|]).
      by apply elem_of_nil in Hk.
    + reflexivity.
    + intros [H|H]; discriminate H.
    + reflexivity.
  - reflexivity.
Defined.
